(** * File sharing: multi-source downloader and shareable item

    A shallow embedding of [filesharingdownloader.cpp] and of the publish
    pipeline of [filesharingitem.cpp], with the properties the
    specification states about them.

    Conventions.  A [QString] or [QByteArray] is a [string]; a [qint64] is
    a [Z] (with the two's-complement wrap written out where the code does
    arithmetic on it); a [QList] is a [list].  An object reached through a
    pointer is a record stored in the state of its owner, [None] standing
    for [nullptr].  A slot returns the new state together with the signals
    it emitted and the calls it made on external services, in order. *)

From Stdlib Require Import ZArith String Ascii List Bool Lia.
From Stdlib Require Import DecimalString DecimalPos.
From Stdlib Require Import Permutation Sorted.
Import ListNotations.
Open Scope string_scope.
Open Scope Z_scope.

(** ** Qt value classes used by the two files *)

Module Qt.

Definition QString := string.
Definition QByteArray := string.
Definition QStringList := list string.

(** The double quote character, for the texts that contain one. *)
Definition dquote : string := String "034"%char EmptyString.

Definition isEmpty (s : string) : bool :=
  match s with EmptyString => true | _ => false end.

(** [QByteArray::size], [QString::size]. *)
Definition size (s : string) : Z := Z.of_nat (String.length s).

(** [QString::startsWith]. *)
Definition startsWith (s pre : string) : bool := String.prefix pre s.

(** [QString::mid(pos)]: what is left after the first [pos] characters. *)
Fixpoint mid (pos : nat) (s : string) : string :=
  match pos, s with
  | O, _ => s
  | S p, String _ r => mid p r
  | S _, EmptyString => EmptyString
  end.

(** [QByteArray::left(n)]. *)
Fixpoint left (n : nat) (s : string) : string :=
  match n, s with
  | S p, String c r => String c (left p r)
  | _, _ => EmptyString
  end.

(** [QByteArray::split(sep)]: the fields between the occurrences of
    [sep]; empty fields are kept, so the result is never empty. *)
Fixpoint split (sep : ascii) (s : string) : list string :=
  match s with
  | EmptyString => [EmptyString]
  | String c r =>
      if Ascii.eqb c sep then EmptyString :: split sep r
      else match split sep r with
           | h :: t => String c h :: t
           | [] => [String c EmptyString]
           end
  end.

(** [QString::number] for an integer, base 10. *)
Definition number (z : Z) : string := NilZero.string_of_int (Z.to_int z).

(** [QString::replace(before, QString())] for a one-character [before]. *)
Fixpoint remove (c : ascii) (s : string) : string :=
  match s with
  | EmptyString => EmptyString
  | String x r => if Ascii.eqb x c then remove c r else String x (remove c r)
  end.

(** Whether [c] occurs in [s]. *)
Fixpoint has_char (c : ascii) (s : string) : bool :=
  match s with
  | EmptyString => false
  | String x r => Ascii.eqb x c || has_char c r
  end.

(** *** qint64 *)

Definition int64_min : Z := - 2 ^ 63.
Definition int64_max : Z := 2 ^ 63 - 1.

Definition in_int64 (z : Z) : bool := (int64_min <=? z) && (z <=? int64_max).

(** Two's-complement wrap of a mathematical integer into [qint64]. *)
Definition wrap64 (z : Z) : Z := (z + 2 ^ 63) mod 2 ^ 64 - 2 ^ 63.

(** *** [QByteArray::toLongLong(&ok)], base 10

    Qt's conversion: white space around the number is skipped, one sign is
    accepted, at least one digit is required, nothing else may follow, and
    the value has to fit a [qint64]; the result is 0 when [ok] is false. *)

Definition is_space (c : ascii) : bool :=
  let n := nat_of_ascii c in
  (Nat.eqb n 32 || Nat.eqb n 9 || Nat.eqb n 10 || Nat.eqb n 11
   || Nat.eqb n 12 || Nat.eqb n 13)%bool.

Definition digit_val (c : ascii) : option Z :=
  let n := Z.of_nat (nat_of_ascii c) in
  if (48 <=? n) && (n <=? 57) then Some (n - 48) else None.

Fixpoint skip_spaces (s : string) : string :=
  match s with
  | String c r => if is_space c then skip_spaces r else s
  | EmptyString => EmptyString
  end.

(** The longest run of digits at the head of [s], accumulated on [acc];
    [seen] tells whether a digit was read. *)
Fixpoint read_digits (acc : Z) (seen : bool) (s : string) : Z * bool * string :=
  match s with
  | String c r =>
      match digit_val c with
      | Some d => read_digits (10 * acc + d) true r
      | None => (acc, seen, s)
      end
  | EmptyString => (acc, seen, EmptyString)
  end.

Definition toLongLong (s : string) : Z * bool :=
  let s1 := skip_spaces s in
  let '(neg, s2) :=
    match s1 with
    | String "-"%char r => (true, r)
    | String "+"%char r => (false, r)
    | _ => (false, s1)
    end in
  let '(v, seen, rest) := read_digits 0 false s2 in
  let v' := if neg then - v else v in
  if seen && isEmpty (skip_spaces rest) && in_int64 v' then (v', true)
  else (0, false).

(** The value of a run of decimal digits read after [acc]. *)
Fixpoint uint_value (acc : Z) (d : Decimal.uint) : Z :=
  match d with
  | Decimal.Nil => acc
  | Decimal.D0 l => uint_value (10 * acc + 0) l
  | Decimal.D1 l => uint_value (10 * acc + 1) l
  | Decimal.D2 l => uint_value (10 * acc + 2) l
  | Decimal.D3 l => uint_value (10 * acc + 3) l
  | Decimal.D4 l => uint_value (10 * acc + 4) l
  | Decimal.D5 l => uint_value (10 * acc + 5) l
  | Decimal.D6 l => uint_value (10 * acc + 6) l
  | Decimal.D7 l => uint_value (10 * acc + 7) l
  | Decimal.D8 l => uint_value (10 * acc + 8) l
  | Decimal.D9 l => uint_value (10 * acc + 9) l
  end.

(** *** [QByteArray::toHex] *)

Definition hex_digit (n : nat) : ascii :=
  ascii_of_nat (if Nat.ltb n 10 then 48 + n else 87 + n)%nat.

Fixpoint toHex (s : string) : string :=
  match s with
  | EmptyString => EmptyString
  | String c r =>
      let n := nat_of_ascii c in
      String (hex_digit (Nat.div n 16)) (String (hex_digit (Nat.modulo n 16)) (toHex r))
  end.

(** *** [QFileInfo] on a path given as text *)

(** What follows the last [sep] of [s]; [None] when [s] has no [sep]. *)
Fixpoint after_last (sep : ascii) (s : string) : option string :=
  match s with
  | EmptyString => None
  | String c r =>
      match after_last sep r with
      | Some t => Some t
      | None => if Ascii.eqb c sep then Some r else None
      end
  end.

(** What precedes the last [sep] of [s]; [None] when [s] has no [sep]. *)
Fixpoint before_last (sep : ascii) (s : string) : option string :=
  match s with
  | EmptyString => None
  | String c r =>
      match before_last sep r with
      | Some t => Some (String c t)
      | None => if Ascii.eqb c sep then Some EmptyString else None
      end
  end.

(** [QFileInfo::fileName]: the path without its directory part. *)
Definition fileName (path : string) : string :=
  match after_last "/"%char path with Some n => n | None => path end.

(** [QFileInfo::path]: the directory part, [.] when there is none. *)
Definition path (p : string) : string :=
  match before_last "/"%char p with
  | Some EmptyString => "/"
  | Some d => d
  | None => "."
  end.

(** [QFileInfo::completeBaseName]: the file name up to its last dot. *)
Definition completeBaseName (p : string) : string :=
  let n := fileName p in
  match before_last "."%char n with Some b => b | None => n end.

(** [QFileInfo::suffix]: the file name after its last dot. *)
Definition suffix (p : string) : string :=
  match after_last "."%char (fileName p) with Some x => x | None => EmptyString end.

(** [QDir::absoluteFilePath] for a directory given by its absolute path. *)
Definition absoluteFilePath (dir fn : string) : string :=
  if startsWith fn "/" then fn else dir ++ "/" ++ fn.

(** [QIODevice::OpenModeFlag]. *)
Definition NotOpen : Z := 0.
Definition ReadOnly : Z := 1.
Definition WriteOnly : Z := 2.

End Qt.

Import Qt.

(** ** Source descriptors ([FileSharingItem::sourceType],
       [FileSharingItem::sortSourcesByPriority]) *)

(** [FileSharingItem::SourceType].  The enumeration is declared in the
    header; its numeric order is the priority order and is taken as a
    parameter [rank] wherever it matters. *)
Inductive SourceType := ST_None | ST_BOB | ST_FTP | ST_Jingle | ST_HTTP.

Definition SourceType_eqb (a b : SourceType) : bool :=
  match a, b with
  | ST_None, ST_None | ST_BOB, ST_BOB | ST_FTP, ST_FTP
  | ST_Jingle, ST_Jingle | ST_HTTP, ST_HTTP => true
  | _, _ => false
  end.

Definition sourceType (uri : QString) : SourceType :=
  if startsWith uri "http" then ST_HTTP
  else if startsWith uri "xmpp" then ST_Jingle
  else if startsWith uri "ftp" then ST_FTP
  else if startsWith uri "cid" then ST_BOB
  else ST_None.

(** [QMultiMap<int, QString>::insert]: the map is kept in key order and a
    new item goes in front of the items that already have its key. *)
Fixpoint insertMulti (k : Z) (v : QString) (m : list (Z * QString)) : list (Z * QString) :=
  match m with
  | [] => [(k, v)]
  | (k', v') :: r =>
      if k <=? k' then (k, v) :: m else (k', v') :: insertMulti k v r
  end.

Definition sortSourcesByPriority (rank : SourceType -> Z) (uris : QStringList) : QStringList :=
  let sorted :=
    fold_left
      (fun m u =>
         let type := sourceType u in
         if SourceType_eqb type ST_None then m else insertMulti (rank type) u m)
      uris [] in
  map snd sorted.

(** ** The range codec of the bulk-transfer adapter *)

(** [parseHttpRangeResponse]: the value of a Content-Range header to
    (parsed, start, size). *)
Definition parseHttpRangeResponse (value : QByteArray) : bool * Z * Z :=
  let arr := split " "%char value in
  match arr with
  | [a0; a1] =>
      if negb (String.eqb a0 "bytes") then (false, 0, 0)
      else
        match split "-"%char a1 with
        | [b0; b1] =>
            let '(start, ok) := toLongLong b0 in
            if ok then
              let arr2 := split "/"%char b1 in
              let '(e, ok2) := toLongLong (hd EmptyString arr2) in
              let size := wrap64 (wrap64 (e - start) + 1) in
              if negb ok2 || (size <? 0) then (false, 0, 0)
              else (true, start, size)
            else (false, 0, 0)
        | _ => (false, 0, 0)
        end
  | _ => (false, 0, 0)
  end.

(** The header the specification describes, [bytes start-end/total] with
    three decimal numbers; this definition follows the specification's
    words, for comparison with what [parseHttpRangeResponse] accepts. *)
Fixpoint all_digits (s : string) : bool :=
  match s with
  | EmptyString => true
  | String c r =>
      match digit_val c with Some _ => all_digits r | None => false end
  end.

Definition is_number (s : string) : bool := negb (isEmpty s) && all_digits s.

Definition spec_content_range (value : QByteArray) : bool :=
  match split " "%char value with
  | [unit; r] =>
      String.eqb unit "bytes"
      && match split "/"%char r with
         | [rng; total] =>
             is_number total
             && match split "-"%char rng with
                | [s; e] => is_number s && is_number e
                | _ => false
                end
         | _ => false
         end
  | _ => false
  end.

(** ** Peers and presence, as the adapters see them *)

Record Jid := {
  jid_bare : QString;
  jid_resource : QString;
  jid_valid : bool
}.

(** [Jid()]. *)
Definition nullJid : Jid :=
  {| jid_bare := EmptyString; jid_resource := EmptyString; jid_valid := false |}.

Definition Jid_eqb (a b : Jid) : bool :=
  String.eqb (jid_bare a) (jid_bare b)
  && String.eqb (jid_resource a) (jid_resource b)
  && Bool.eqb (jid_valid a) (jid_valid b).

(** A roster entry: the names of the resources it has on line. *)
Record UserListItem := { userResourceList : list QString }.

(** What the adapters use of [PsiAccount]: the local identity
    ([acc->client()->jid()]) and the roster lookup. *)
Record PsiAccount := {
  client_jid : Jid;
  findRelevant : Jid -> list UserListItem
}.

(** ** The adapter contract ([AbstractFileShareDownloader]) *)

Inductive Signal := metaDataChanged | readyRead | disconnected | failed | success.

(** Calls an adapter makes on the services outside the two files. *)
Inductive ExtCall :=
| NetGet (url : QString) (rangeHeader : option QString)
| ReplyDeleteLater
| LoadBob (peer : Jid) (cid : QString)
| AppRemove (isFailure : bool) (reason : QString).

(** What a method or a callback of an adapter does, in order: a signal
    emitted at once (with the adapter as it is at that moment, which is
    what a connected slot reads through its pointer), a signal left to a
    zero timer, or a call on a service. *)
Inductive Act (S : Type) :=
| Emit (s : Signal) (self : S)
| SingleShot (s : Signal)
| Call (c : ExtCall).
Arguments Emit {S} s self.
Arguments SingleShot {S} s.
Arguments Call {S} c.

Module Abstract.

Record t := {
  _lastError : QString;
  rangeStart : Z;
  rangeSize : Z;
  sourceUri : QString
}.

Definition make (uri : QString) : t :=
  {| _lastError := EmptyString; rangeStart := 0; rangeSize := 0; sourceUri := uri |}.

Definition set_lastError (e : QString) (a : t) : t :=
  {| _lastError := e; rangeStart := rangeStart a; rangeSize := rangeSize a;
     sourceUri := sourceUri a |}.

Definition setRange (offset length : Z) (a : t) : t :=
  {| _lastError := _lastError a; rangeStart := offset; rangeSize := length;
     sourceUri := sourceUri a |}.

Definition isRanged (a : t) : bool :=
  negb (rangeSize a =? 0) || negb (rangeStart a =? 0).

Definition range (a : t) : Z * Z := (rangeStart a, rangeSize a).

(** [downloadError], its effect on the object: the text is kept when
    there is one.  The [failed] signal it leaves to a zero timer is the
    [SingleShot failed] of the callers. *)
Definition downloadError (err : QString) (a : t) : t :=
  if isEmpty err then a else set_lastError err a.

(** The inner loop of [selectOnlineJid]: some roster entry relevant to
    [j] has the resource of [j] on line. *)
Definition hasResource (acc : PsiAccount) (j : Jid) : bool :=
  existsb (fun u => existsb (String.eqb (jid_resource j)) (userResourceList u))
          (findRelevant acc j).

Fixpoint selectOnlineJid (acc : PsiAccount) (jids : list Jid) : Jid :=
  match jids with
  | [] => nullJid
  | j :: rest =>
      if Jid_eqb j (client_jid acc) then selectOnlineJid acc rest
      else if hasResource acc j then j
      else selectOnlineJid acc rest
  end.

End Abstract.

(** ** The bulk-transfer adapter ([NAMFileShareDownloader]) *)

Module NAM.

(** What the adapter observes of its [QNetworkReply]. *)
Record QNetworkReply := {
  isRunning : bool;
  buffered : QByteArray;
  noError : bool
}.

Record t := {
  base : Abstract.t;
  reply : option QNetworkReply
}.

Definition with_base (b : Abstract.t) (n : t) : t :=
  {| base := b; reply := reply n |}.

(** The value of the Range header of the request. *)
Definition rangeHeader (b : Abstract.t) : option QString :=
  if Abstract.isRanged b then
    Some ("bytes=" ++ number (Abstract.rangeStart b) ++ "-"
          ++ (if Abstract.rangeSize b =? 0 then EmptyString
              else number (wrap64 (wrap64 (Abstract.rangeStart b + Abstract.rangeSize b) - 1))))
  else None.

(** [start]; [r] is the reply object the network manager hands back. *)
Definition start (r : QNetworkReply) (n : t) : t * list (Act t) :=
  ({| base := base n; reply := Some r |},
   [Call (NetGet (Abstract.sourceUri (base n)) (rangeHeader (base n)))]).

(** [namFailed]: the reply is disconnected and left to be deleted, the
    member keeps pointing at it. *)
Definition namFailed (err : QString) (n : t) : t * list (Act t) :=
  (with_base (Abstract.downloadError err (base n)) n,
   [Call ReplyDeleteLater; SingleShot failed]).

(** The slot on [QNetworkReply::metaDataChanged]; [status] is the HTTP
    status attribute and [ba] the raw Content-Range header ([""] when the
    reply has none). *)
Definition onReplyMetaDataChanged (status : Z) (ba : QByteArray) (n : t) : t * list (Act t) :=
  if status =? 206 then
    let '(parsed, rs, rz) := parseHttpRangeResponse ba in
    let n1 := with_base (Abstract.setRange rs rz (base n)) n in
    if negb (size ba =? 0) && negb parsed then
      namFailed "Invalid HTTP response range" n1
    else (n1, [Emit metaDataChanged n1])
  else if negb (status =? 200) && negb (status =? 203) then
    let n1 := with_base (Abstract.setRange 0 0 (base n)) n in
    namFailed ("Unexpected HTTP status" ++ ": " ++ number status) n1
  else (n, [Emit metaDataChanged n]).

(** The slot on [QNetworkReply::finished]. *)
Definition onReplyFinished (n : t) : list (Act t) :=
  match reply n with
  | Some r => if noError r then [Emit disconnected n] else [Emit failed n]
  | None => []
  end.

Definition bytesAvailable (n : t) : Z :=
  match reply n with Some r => size (buffered r) | None => 0 end.

(** [read]: at most [maxSize] of the buffered bytes leave the reply. *)
Definition read (maxSize : Z) (n : t) : t * QByteArray :=
  match reply n with
  | Some r =>
      let k := Z.to_nat maxSize in
      ({| base := base n;
          reply := Some {| isRunning := isRunning r; buffered := mid k (buffered r);
                           noError := noError r |} |},
       left k (buffered r))
  | None => (n, EmptyString)
  end.

Definition abort (n : t) : t * list (Act t) :=
  match reply n with
  | Some _ => ({| base := base n; reply := None |}, [Call ReplyDeleteLater])
  | None => (n, [])
  end.

Definition isConnected (n : t) : bool :=
  match reply n with Some r => isRunning r | None => false end.

End NAM.

(** ** The inline-blob adapter ([BOBFileShareDownloader])

    The class declares an [acc] of its own next to the one of the base
    class.  The constructor initialises the one of the base class only,
    so that [selectOnlineJid] reads the account given to the constructor
    while the call of [loadBob] in [start] goes through a pointer that was
    never set. *)

Module BOB.

Record t := {
  base : Abstract.t;
  jids : list Jid;
  receivedData : QByteArray;
  destroyed : bool;
  connected : bool
}.

Definition make (uri : QString) (js : list Jid) : t :=
  {| base := Abstract.make uri; jids := js; receivedData := EmptyString;
     destroyed := false; connected := false |}.

Definition with_base (a : Abstract.t) (b : t) : t :=
  {| base := a; jids := jids b; receivedData := receivedData b;
     destroyed := destroyed b; connected := connected b |}.

Definition set_connected (c : bool) (b : t) : t :=
  {| base := base b; jids := jids b; receivedData := receivedData b;
     destroyed := destroyed b; connected := c |}.

Definition set_receivedData (d : QByteArray) (b : t) : t :=
  {| base := base b; jids := jids b; receivedData := d;
     destroyed := destroyed b; connected := connected b |}.

Definition offline_text : QString :=
  dquote ++ "Bits Of Binary" ++ dquote ++ " data source is offline".

Definition failed_text : QString :=
  "Download using " ++ dquote ++ "Bits Of Binary" ++ dquote ++ " failed".

(** [start].  The second branch gives the call of [loadBob] as the source
    writes it, with the peer and the content id it passes; what the call
    does through the unset [acc] of the class is not part of the model. *)
Definition start (acc : PsiAccount) (b : t) : t * list (Act t) :=
  let j := Abstract.selectOnlineJid acc (jids b) in
  if negb (jid_valid j) then
    (with_base (Abstract.downloadError offline_text (base b)) b, [SingleShot failed])
  else
    (b, [Call (LoadBob (hd nullJid (jids b)) (mid 4 (Abstract.sourceUri (base b))))]).

(** The callback handed to [loadBob]. *)
Definition onLoaded (ok : bool) (data : QByteArray) (b : t) : t * list (Act t) :=
  if destroyed b then (b, [])
  else
    let b1 := set_connected true b in
    if negb ok then
      (with_base (Abstract.downloadError failed_text (base b1)) b1, [SingleShot failed])
    else
      let b2 := set_receivedData data b1 in
      let b3 := if Abstract.isRanged (base b2)
                then with_base (Abstract.setRange 0 0 (base b2)) b2 else b2 in
      let b4 := set_connected false b3 in
      (b4, [Emit metaDataChanged b3; Emit disconnected b4]).

Definition bytesAvailable (b : t) : Z := size (receivedData b).

Definition read (maxSize : Z) (b : t) : t * QByteArray :=
  if size (receivedData b) <=? maxSize then
    (set_receivedData EmptyString b, receivedData b)
  else
    (set_receivedData (mid (Z.to_nat maxSize) (receivedData b)) b,
     left (Z.to_nat maxSize) (receivedData b)).

Definition abort (b : t) : t :=
  {| base := base b; jids := jids b; receivedData := receivedData b;
     destroyed := true; connected := connected b |}.

Definition isConnected (b : t) : bool := connected b.

End BOB.

(** ** The peer-transfer adapter ([JingleFileShareDownloader])

    The data members and the part of the class the orchestrator calls;
    the session set-up of [start] talks to the Jingle layer only. *)

Module Jingle.

Inductive State := Created | Pending | Active | Finished.

Record Connection := { conn_buffered : QByteArray }.
Record Application := { app_state : State }.

Record t := {
  base : Abstract.t;
  jids : list Jid;
  connection : option Connection;
  app : option Application
}.

Definition with_base (a : Abstract.t) (j : t) : t :=
  {| base := a; jids := jids j; connection := connection j; app := app j |}.

(** The slot on [connectionReady]; [r] is the range of the accepted file
    and [c] the connection of the application. *)
Definition onConnectionReady (r : Z * Z) (c : Connection) (j : t) : t * list (Act t) :=
  let j1 := {| base := Abstract.setRange (fst r) (snd r) (base j); jids := jids j;
               connection := Some c; app := app j |} in
  (j1, [Emit metaDataChanged j1]).

(** The slot on [stateChanged]; [okReason] tells that the termination
    reason is valid and is Success. *)
Definition onStateChanged (state : State) (okReason : bool) (j : t) : t * list (Act t) :=
  match state with
  | Finished =>
      let j1 := {| base := base j; jids := jids j; connection := connection j;
                   app := None |} in
      if okReason then (j1, [Emit disconnected j1])
      else (with_base (Abstract.downloadError "Jingle download failed" (base j1)) j1,
            [SingleShot failed])
  | _ => (j, [])
  end.

Definition bytesAvailable (j : t) : Z :=
  match connection j with Some c => size (conn_buffered c) | None => 0 end.

Definition read (maxSize : Z) (j : t) : t * QByteArray :=
  match connection j with
  | Some c =>
      let k := Z.to_nat maxSize in
      ({| base := base j; jids := jids j;
          connection := Some {| conn_buffered := mid k (conn_buffered c) |};
          app := app j |},
       left k (conn_buffered c))
  | None => (j, EmptyString)
  end.

Definition abort (isFailure : bool) (reason : QString) (j : t) : t * list (Act t) :=
  match app j with
  | Some _ =>
      ({| base := base j; jids := jids j; connection := None; app := None |},
       [Call (AppRemove isFailure reason)])
  | None => (j, [])
  end.

Definition isConnected (j : t) : bool :=
  match connection j, app j with
  | Some _, Some a => match app_state a with Active => true | _ => false end
  | _, _ => false
  end.

End Jingle.

(** ** An adapter behind the base-class pointer *)

Inductive Downloader :=
| D_NAM (n : NAM.t)
| D_BOB (b : BOB.t)
| D_Jingle (j : Jingle.t).

Module Downloader.

Definition base (d : Downloader) : Abstract.t :=
  match d with
  | D_NAM n => NAM.base n
  | D_BOB b => BOB.base b
  | D_Jingle j => Jingle.base j
  end.

Definition with_base (a : Abstract.t) (d : Downloader) : Downloader :=
  match d with
  | D_NAM n => D_NAM (NAM.with_base a n)
  | D_BOB b => D_BOB (BOB.with_base a b)
  | D_Jingle j => D_Jingle (Jingle.with_base a j)
  end.

Definition lastError (d : Downloader) : QString := Abstract._lastError (base d).

Definition setRange (offset length : Z) (d : Downloader) : Downloader :=
  with_base (Abstract.setRange offset length (base d)) d.

Definition range (d : Downloader) : Z * Z := Abstract.range (base d).

Definition bytesAvailable (d : Downloader) : Z :=
  match d with
  | D_NAM n => NAM.bytesAvailable n
  | D_BOB b => BOB.bytesAvailable b
  | D_Jingle j => Jingle.bytesAvailable j
  end.

Definition isConnected (d : Downloader) : bool :=
  match d with
  | D_NAM n => NAM.isConnected n
  | D_BOB b => BOB.isConnected b
  | D_Jingle j => Jingle.isConnected j
  end.

Definition read (maxSize : Z) (d : Downloader) : Downloader * QByteArray :=
  match d with
  | D_NAM n => let '(n', bs) := NAM.read maxSize n in (D_NAM n', bs)
  | D_BOB b => let '(b', bs) := BOB.read maxSize b in (D_BOB b', bs)
  | D_Jingle j => let '(j', bs) := Jingle.read maxSize j in (D_Jingle j', bs)
  end.

(** [abort(isFailure = false, reason = QString())], the call the
    orchestrator makes. *)
Definition abort (d : Downloader) : Downloader * list ExtCall :=
  match d with
  | D_NAM n =>
      match NAM.reply n with
      | Some _ => (D_NAM (fst (NAM.abort n)), [ReplyDeleteLater])
      | None => (d, [])
      end
  | D_BOB b => (D_BOB (BOB.abort b), [])
  | D_Jingle j =>
      match Jingle.app j with
      | Some _ => (D_Jingle (fst (Jingle.abort false EmptyString j)), [AppRemove false EmptyString])
      | None => (d, [])
      end
  end.

End Downloader.

(** ** The download orchestrator ([FileShareDownloader]) *)

Module FileShareDownloader.

(** [XMPP::Hash]: algorithm and digest bytes. *)
Record Hash := { hash_type : Z; hash_data : QByteArray }.

(** What the orchestrator reads of the Jingle file descriptor. *)
Record File := { file_name : QString }.

(** The staging file: its path and what was written to it. *)
Record QFile := { qf_name : QString; qf_data : QByteArray }.

(** [FileShareDownloader::Private], with the open mode kept by the
    [QIODevice] base class. *)
Record Private := {
  sums : list Hash;
  file : File;
  jids : list Jid;
  uris : QStringList;
  tmpFile : option QFile;
  dstFileName : QString;
  lastError : QString;
  rangeStart : Z;
  rangeSize : Z;
  downloader : option Downloader;
  metaReady : bool;
  success : bool;
  openMode : Z
}.

Definition set_uris (v : QStringList) (p : Private) : Private :=
  {| sums := sums p; file := file p; jids := jids p; uris := v; tmpFile := tmpFile p;
     dstFileName := dstFileName p; lastError := lastError p; rangeStart := rangeStart p;
     rangeSize := rangeSize p; downloader := downloader p; metaReady := metaReady p;
     success := success p; openMode := openMode p |}.

Definition set_tmpFile (v : option QFile) (p : Private) : Private :=
  {| sums := sums p; file := file p; jids := jids p; uris := uris p; tmpFile := v;
     dstFileName := dstFileName p; lastError := lastError p; rangeStart := rangeStart p;
     rangeSize := rangeSize p; downloader := downloader p; metaReady := metaReady p;
     success := success p; openMode := openMode p |}.

Definition set_dstFileName (v : QString) (p : Private) : Private :=
  {| sums := sums p; file := file p; jids := jids p; uris := uris p; tmpFile := tmpFile p;
     dstFileName := v; lastError := lastError p; rangeStart := rangeStart p;
     rangeSize := rangeSize p; downloader := downloader p; metaReady := metaReady p;
     success := success p; openMode := openMode p |}.

Definition set_lastError (v : QString) (p : Private) : Private :=
  {| sums := sums p; file := file p; jids := jids p; uris := uris p; tmpFile := tmpFile p;
     dstFileName := dstFileName p; lastError := v; rangeStart := rangeStart p;
     rangeSize := rangeSize p; downloader := downloader p; metaReady := metaReady p;
     success := success p; openMode := openMode p |}.

Definition set_range (r : Z * Z) (p : Private) : Private :=
  {| sums := sums p; file := file p; jids := jids p; uris := uris p; tmpFile := tmpFile p;
     dstFileName := dstFileName p; lastError := lastError p; rangeStart := fst r;
     rangeSize := snd r; downloader := downloader p; metaReady := metaReady p;
     success := success p; openMode := openMode p |}.

Definition set_downloader (v : option Downloader) (p : Private) : Private :=
  {| sums := sums p; file := file p; jids := jids p; uris := uris p; tmpFile := tmpFile p;
     dstFileName := dstFileName p; lastError := lastError p; rangeStart := rangeStart p;
     rangeSize := rangeSize p; downloader := v; metaReady := metaReady p;
     success := success p; openMode := openMode p |}.

Definition set_metaReady (v : bool) (p : Private) : Private :=
  {| sums := sums p; file := file p; jids := jids p; uris := uris p; tmpFile := tmpFile p;
     dstFileName := dstFileName p; lastError := lastError p; rangeStart := rangeStart p;
     rangeSize := rangeSize p; downloader := downloader p; metaReady := v;
     success := success p; openMode := openMode p |}.

Definition set_success (v : bool) (p : Private) : Private :=
  {| sums := sums p; file := file p; jids := jids p; uris := uris p; tmpFile := tmpFile p;
     dstFileName := dstFileName p; lastError := lastError p; rangeStart := rangeStart p;
     rangeSize := rangeSize p; downloader := downloader p; metaReady := metaReady p;
     success := v; openMode := openMode p |}.

Definition set_openMode (v : Z) (p : Private) : Private :=
  {| sums := sums p; file := file p; jids := jids p; uris := uris p; tmpFile := tmpFile p;
     dstFileName := dstFileName p; lastError := lastError p; rangeStart := rangeStart p;
     rangeSize := rangeSize p; downloader := downloader p; metaReady := metaReady p;
     success := success p; openMode := v |}.

(** The signals of the orchestrator itself ([emit q->...]). *)
Inductive QSignal := q_finished | q_metaDataChanged | q_readyRead | q_disconnected.

(** What a slot or a method of the orchestrator does besides changing
    its members. *)
Inductive Out :=
| QEmit (s : QSignal)
| Delete (d : Downloader)
| Start (d : Downloader)
| Ext (c : ExtCall).

Definition no_sources_text : QString := "Download sources are not given".

(** The constructor: the members as initialised in the class, the source
    list ranked by [sortSourcesByPriority]. *)
Definition make (rank : SourceType -> Z) (sums0 : list Hash) (file0 : File)
    (jids0 : list Jid) (uris0 : QStringList) : Private :=
  {| sums := sums0; file := file0; jids := jids0;
     uris := sortSourcesByPriority rank uris0;
     tmpFile := None; dstFileName := EmptyString; lastError := EmptyString;
     rangeStart := 0; rangeSize := 0; downloader := None;
     metaReady := false; success := false; openMode := NotOpen |}.

(** The [switch] of [startNextDownloader]: the adapter built for a source,
    [None] in the default case. *)
Definition newDownloader (p : Private) (uri : QString) : option Downloader :=
  match sourceType uri with
  | ST_HTTP | ST_FTP => Some (D_NAM {| NAM.base := Abstract.make uri; NAM.reply := None |})
  | ST_BOB => Some (D_BOB (BOB.make uri (jids p)))
  | ST_Jingle =>
      Some (D_Jingle {| Jingle.base := Abstract.make uri; Jingle.jids := jids p;
                        Jingle.connection := None; Jingle.app := None |})
  | ST_None => None
  end.

Definition startNextDownloader (p : Private) : Private * list Out :=
  let '(p1, o1) :=
    match downloader p with
    | Some d => (set_downloader None (set_lastError (Downloader.lastError d) p), [Delete d])
    | None => (p, [])
    end in
  match uris p1 with
  | [] =>
      let p2 := set_success false p1 in
      let p3 := if isEmpty (lastError p2) then set_lastError no_sources_text p2 else p2 in
      (p3, (o1 ++ [QEmit q_finished])%list)
  | _ :: _ =>
      let uri := last (uris p1) EmptyString in
      let p2 := set_uris (removelast (uris p1)) p1 in
      match newDownloader p2 uri with
      | None =>
          (set_success false (set_lastError "Unhandled downloader" p2),
           (o1 ++ [QEmit q_finished])%list)
      | Some d =>
          let d1 := Downloader.setRange (rangeStart p2) (rangeSize p2) d in
          (set_downloader (Some d1) p2, (o1 ++ [Start d1])%list)
      end
  end.

(** The slot on the adapter's [failed].  The connection lives as long as
    the adapter does, so without an adapter nothing is delivered. *)
Definition onFailed (p : Private) : Private * list Out :=
  match downloader p with
  | None => (p, [])
  | Some d =>
      let p1 := set_success false p in
      if metaReady p1 then
        (set_lastError (Downloader.lastError d) p1, [QEmit q_finished])
      else startNextDownloader p1
  end.

(** The path of the staging file for a destination. *)
Definition stagingName (dst : QString) : QString :=
  Qt.path dst ++ "/" ++ ("dl-" ++ Qt.fileName dst).

(** The slot on the adapter's [metaDataChanged]; [openErr] is the error
    text of the staging file when it cannot be opened. *)
Definition onMetaDataChanged (openErr : option QString) (p : Private) : Private * list Out :=
  match downloader p with
  | None => (p, [])
  | Some d =>
      let p1 := set_metaReady true p in
      match openErr with
      | Some err =>
          let '(d1, calls) := Downloader.abort d in
          (set_success false
             (set_downloader (Some d1) (set_tmpFile None (set_lastError err p1))),
           (map Ext calls ++ [QEmit q_finished])%list)
      | None =>
          let f := {| qf_name := stagingName (dstFileName p1); qf_data := EmptyString |} in
          (set_range (Downloader.range d) (set_tmpFile (Some f) p1),
           [QEmit q_metaDataChanged])
      end
  end.

(** The adapter's [readyRead] is connected to the orchestrator's. *)
Definition onReadyRead (p : Private) : Private * list Out :=
  match downloader p with
  | None => (p, [])
  | Some _ => (p, [QEmit q_readyRead])
  end.

(** The slot on the adapter's [disconnected]. *)
Definition onDisconnected (p : Private) : Private * list Out :=
  match downloader p with
  | None => (p, [])
  | Some d =>
      (p, QEmit q_disconnected ::
          (if Downloader.bytesAvailable d =? 0 then [QEmit q_finished] else []))
  end.

Definition isSuccess (p : Private) : bool := success p.

Definition isConnected (p : Private) : bool :=
  match downloader p with Some d => Downloader.isConnected d | None => false end.

Definition isOpen (p : Private) : bool := negb (openMode p =? NotOpen).

(** What [open] reads of the application and of the documents directory:
    its path, which names exist in it, and [FileUtil::cleanFileName]. *)
Record Env := {
  documentsDir : QString;
  dirExists : QString -> bool;
  cleanFileName : QString -> QString
}.

(** The name [open] starts from. *)
Definition firstName (env : Env) (p : Private) : QString :=
  let fn := cleanFileName env (Qt.fileName (file_name (file p))) in
  if isEmpty fn then toHex (hash_data (nth 0 (sums p) {| hash_type := 0; hash_data := EmptyString |}))
  else fn.

(** The name the body of the [while] loop of [open] assigns. *)
Definition numbered (baseName suffix : QString) (index : Z) : QString :=
  if negb (size suffix =? 0) then baseName ++ "-" ++ number index ++ "." ++ suffix
  else baseName ++ "-" ++ number index.

(** The [while] loop of [open]; [fuel] bounds the number of tests of the
    condition, [None] meaning that the loop is still running. *)
Fixpoint pickName (env : Env) (baseName suffix : QString) (index : Z)
    (fuel : nat) (fn : QString) : option QString :=
  match fuel with
  | O => None
  | S k =>
      if dirExists env fn
      then pickName env baseName suffix index k (numbered baseName suffix index)
      else Some fn
  end.

(** [open]: the new state, the value returned and what was done. *)
Definition open (env : Env) (fuel : nat) (mode : Z) (p : Private)
    : option (Private * bool * list Out) :=
  if (Nat.eqb (List.length (uris p)) 0) && (Z.land mode ReadOnly =? 0) then
    Some (set_success false p, false, [])
  else if isOpen p then Some (p, true, [])
  else
    let fn := firstName env p in
    let baseName := completeBaseName fn in
    let suffix := Qt.suffix fn in
    match pickName env baseName suffix 1 fuel fn with
    | None => None
    | Some fn' =>
        let p1 := set_dstFileName (absoluteFilePath (documentsDir env) fn') p in
        let p2 := set_openMode mode p1 in
        let '(p3, o) := startNextDownloader p2 in
        Some (p3, true, o)
    end.

Definition abort (p : Private) : Private * list Out :=
  match downloader p with
  | Some d =>
      let '(d1, calls) := Downloader.abort d in
      (set_downloader (Some d1) p, map Ext calls)
  | None => (p, [])
  end.

Definition setRange (start size : Z) (p : Private) : Private := set_range (start, size) p.

Definition isRanged (p : Private) : bool := (0 <? rangeStart p) || (0 <? rangeSize p).

Definition range (p : Private) : Z * Z := (rangeStart p, rangeSize p).

Definition fileName (p : Private) : QString :=
  if success p then dstFileName p else EmptyString.

(** [readData]: the new state, the value returned and what was done.
    [writeErr] is [None] when [write] on the staging file returns the
    number of bytes it was given; when it returns anything else,
    [writeErr] holds the number of bytes that reached the file all the
    same and the error text of the file. *)
Definition readData (maxSize : Z) (writeErr : option (nat * QString)) (p : Private)
    : Private * Z * list Out :=
  match tmpFile p, downloader p with
  | Some f, Some d =>
      let '(d1, bytes) := Downloader.read maxSize d in
      let p1 := set_downloader (Some d1) p in
      match writeErr with
      | Some (written, err) =>
          let f1 := {| qf_name := qf_name f; qf_data := qf_data f ++ left written bytes |} in
          let '(d2, calls) := Downloader.abort d1 in
          (set_lastError err (set_downloader (Some d2) (set_tmpFile (Some f1) p1)),
           0, map Ext calls)
      | None =>
          let f1 := {| qf_name := qf_name f; qf_data := qf_data f ++ bytes |} in
          let p2 := set_tmpFile (Some f1) p1 in
          if negb (Downloader.isConnected d1) && (Downloader.bytesAvailable d1 =? 0) then
            (set_success true p2, size bytes, [QEmit q_finished])
          else (p2, size bytes, [])
      end
  | _, _ => (p, 0, [])
  end.

Definition bytesAvailable (p : Private) : Z :=
  match downloader p with Some d => Downloader.bytesAvailable d | None => 0 end.

(** *** Runs of a download

    What can happen to an open orchestrator: a signal of the active
    adapter reaches its slot, the consumer pulls, aborts or sets a range,
    or the adapter itself moves on (its transport delivered, closed or
    failed), which changes the object behind the pointer and nothing
    else. *)
Inductive Event :=
| E_failed
| E_metaDataChanged (openErr : option QString)
| E_readyRead
| E_disconnected
| E_readData (maxSize : Z) (writeErr : option (nat * QString))
| E_abort
| E_setRange (start size : Z)
| E_transport (d : Downloader).

Definition step (e : Event) (p : Private) : Private * list Out :=
  match e with
  | E_failed => onFailed p
  | E_metaDataChanged oe => onMetaDataChanged oe p
  | E_readyRead => onReadyRead p
  | E_disconnected => onDisconnected p
  | E_readData m w => let '(p', _, o) := readData m w p in (p', o)
  | E_abort => abort p
  | E_setRange s z => (setRange s z p, [])
  | E_transport d =>
      match downloader p with
      | Some _ => (set_downloader (Some d) p, [])
      | None => (p, [])
      end
  end.

Fixpoint run (evs : list Event) (p : Private) : Private * list Out :=
  match evs with
  | [] => (p, [])
  | e :: rest =>
      let '(p1, o1) := step e p in
      let '(p2, o2) := run rest p1 in
      (p2, (o1 ++ o2)%list)
  end.

(** Anything but the delivery of an adapter's [metaDataChanged]. *)
Definition not_metadata (e : Event) : Prop :=
  match e with E_metaDataChanged _ => False | _ => True end.

(** The orchestrator is committed to its adapter: the metadata slot has
    run and the adapter is there. *)
Definition committed (p : Private) : Prop :=
  metaReady p = true /\ downloader p <> None.

(** Every source left on the list has a known transport kind. *)
Definition known (u : QString) : Prop := sourceType u <> ST_None.

(** The adapter class that goes with a transport kind. *)
Definition kind_matches (t : SourceType) (d : Downloader) : Prop :=
  match t, d with
  | ST_HTTP, D_NAM _ | ST_FTP, D_NAM _ | ST_BOB, D_BOB _ | ST_Jingle, D_Jingle _ => True
  | _, _ => False
  end.

End FileShareDownloader.

(** ** The shareable item: the publish pipeline ([FileSharingItem::publish]) *)

Module FileSharingItem.

Inductive FileType := LocalLink | LocalFile | TempFile | RemoteFile.

Definition FileType_eqb (a b : FileType) : bool :=
  match a, b with
  | LocalLink, LocalLink | LocalFile, LocalFile
  | TempFile, TempFile | RemoteFile, RemoteFile => true
  | _, _ => false
  end.

(** The bits of [FileSharingItem::Flag].  The enumeration is declared in
    the header, so the four values are taken as a parameter. *)
Record FlagBits := {
  HttpFinished : Z;
  JingleFinished : Z;
  PublishNotified : Z;
  SizeKnown : Z
}.

Definition TEMP_TTL : Z := 7 * 24 * 3600.
Definition FILE_TTL : Z := 365 * 24 * 3600.

Inductive QVariant :=
| V_string (s : QString)
| V_list (l : QStringList)
| V_bytes (b : QByteArray).

(** A [QVariantMap], one entry per key. *)
Definition QVariantMap := list (QString * QVariant).

(** [m[k] = v]. *)
Fixpoint map_set (k : QString) (v : QVariant) (m : QVariantMap) : QVariantMap :=
  match m with
  | [] => [(k, v)]
  | (k', v') :: r => if String.eqb k k' then (k, v) :: r else (k', v') :: map_set k v r
  end.

Record t := {
  _fileType : FileType;
  _flags : Z;
  _fileName : QString;
  _mimeType : QString;
  _uris : QStringList;
  _metaData : QVariantMap;
  _sums : list FileShareDownloader.Hash;
  _log : QStringList
}.

Definition set_flags (v : Z) (i : t) : t :=
  {| _fileType := _fileType i; _flags := v; _fileName := _fileName i;
     _mimeType := _mimeType i; _uris := _uris i; _metaData := _metaData i;
     _sums := _sums i; _log := _log i |}.

Definition set_file (ty : FileType) (fn : QString) (i : t) : t :=
  {| _fileType := ty; _flags := _flags i; _fileName := fn;
     _mimeType := _mimeType i; _uris := _uris i; _metaData := _metaData i;
     _sums := _sums i; _log := _log i |}.

Definition set_uris (v : QStringList) (i : t) : t :=
  {| _fileType := _fileType i; _flags := _flags i; _fileName := _fileName i;
     _mimeType := _mimeType i; _uris := v; _metaData := _metaData i;
     _sums := _sums i; _log := _log i |}.

Definition set_log (v : QStringList) (i : t) : t :=
  {| _fileType := _fileType i; _flags := _flags i; _fileName := _fileName i;
     _mimeType := _mimeType i; _uris := _uris i; _metaData := _metaData i;
     _sums := _sums i; _log := v |}.

(** What [publish] does outside the item: its signals, the cache bridge
    and the upload service. *)
Inductive Eff :=
| Emit_publishFinished
| Emit_logChanged
| Emit_publishProgress (bytes : Z)
| MoveToCache (sums : list FileShareDownloader.Hash) (fileName : QString)
    (meta : QVariantMap) (ttl : Z)
| SaveToCache (sums : list FileShareDownloader.Hash) (data : QByteArray)
    (meta : QVariantMap) (ttl : Z)
| Upload (fileName displayName mimeType : QString).

(** What [publish] reads of its collaborators: whether the upload service
    is known absent, the cache directory, the file name of the cache item
    [moveToCache] returns, and [FileUtil::mimeToFileExt]. *)
Record Env := {
  discoNotFound : bool;
  cacheDir : QString;
  cachedName : QString;
  mimeToFileExt : QString -> QString
}.

Definition displayName (env : Env) (i : t) : QString :=
  if isEmpty (_fileName i) then
    let ext := mimeToFileExt env (_mimeType i) in
    let h := nth 0 (_sums i)
               {| FileShareDownloader.hash_type := 0;
                  FileShareDownloader.hash_data := EmptyString |} in
    Qt.remove "/"%char
      ("psi-" ++ toHex (FileShareDownloader.hash_data h) ++ "." ++ ext)
  else Qt.fileName (_fileName i).

(** The [checkFinished] closure of [publish]. *)
Definition checkFinished (fl : FlagBits) (env : Env) (i : t) : t * list Eff :=
  let ff := Z.lor (HttpFinished fl) (JingleFinished fl) in
  if (Z.land (_flags i) (PublishNotified fl) =? 0) && (Z.land (_flags i) ff =? ff) then
    let meta := map_set "type" (V_string (_mimeType i)) (_metaData i) in
    let meta := if (0 <? Z.of_nat (List.length (_uris i)))
                then map_set "uris" (V_list (_uris i)) meta else meta in
    let '(i1, e1) :=
      if FileType_eqb (_fileType i) TempFile then
        (set_file LocalFile (cacheDir env ++ "/" ++ cachedName env) i,
         [MoveToCache (_sums i) (_fileName i) meta TEMP_TTL])
      else
        (i, [SaveToCache (_sums i) EmptyString
               (map_set "link" (V_string (_fileName i)) meta) FILE_TTL]) in
    (set_flags (Z.lor (_flags i1) (PublishNotified fl)) i1,
     (e1 ++ [Emit_publishFinished])%list)
  else (i, []).

(** [publish]; [None] is the failed [Q_ASSERT] on a remote item. *)
Definition publish (fl : FlagBits) (env : Env) (i : t) : option (t * list Eff) :=
  if FileType_eqb (_fileType i) RemoteFile then None
  else
    let '(i1, e1) :=
      if Z.land (_flags i) (HttpFinished fl) =? 0 then
        if discoNotFound env then
          checkFinished fl env (set_flags (Z.lor (_flags i) (HttpFinished fl)) i)
        else (i, [Upload (_fileName i) (displayName env i) (_mimeType i)])
      else (i, []) in
    let '(i2, e2) :=
      if Z.land (_flags i1) (JingleFinished fl) =? 0 then
        checkFinished fl env (set_flags (Z.lor (_flags i1) (JingleFinished fl)) i1)
      else (i1, []) in
    Some (i2, (e1 ++ e2)%list).

(** The slot on [HttpFileUpload::progress]. *)
Definition onUploadProgress (bytesReceived : Z) : list Eff :=
  [Emit_publishProgress bytesReceived].

(** The slot on [HttpFileUpload::finished]; [ok], [url] and [status] are
    what the upload reports. *)
Definition onUploadFinished (fl : FlagBits) (env : Env) (ok : bool) (url status : QString)
    (i : t) : t * list Eff :=
  let i1 := set_flags (Z.lor (_flags i) (HttpFinished fl)) i in
  let i2 :=
    if ok then
      set_uris (_uris i1 ++ [url])%list
        (set_log (_log i1 ++ ["Published on HttpUpload service"])%list i1)
    else
      set_log (_log i1 ++ [("Failed to publish on HttpUpload service" ++ ": " ++ status)%string])%list
        i1 in
  let '(i3, e) := checkFinished fl env i2 in
  (i3, Emit_logChanged :: e).

End FileSharingItem.

(** ** Concrete downloads, used to run the model *)

Module Scenario.

Import FileShareDownloader.

(** One priority order of the transport kinds. *)
Definition rank (t : SourceType) : Z :=
  match t with
  | ST_None => 0 | ST_BOB => 1 | ST_FTP => 2 | ST_Jingle => 3 | ST_HTTP => 4
  end.

(** An empty documents directory. *)
Definition env_empty : Env :=
  {| documentsDir := "/home/user/Documents";
     dirExists := fun _ => false;
     cleanFileName := fun s => s |}.

(** A documents directory that already holds [a.txt] and [a-1.txt]. *)
Definition env_taken : Env :=
  {| documentsDir := "/home/user/Documents";
     dirExists := fun n => String.eqb n "a.txt" || String.eqb n "a-1.txt";
     cleanFileName := fun s => s |}.

(** An orchestrator as constructed for a payload named [a.txt] with the
    given sources. *)
Definition fresh (sources : QStringList) : Private :=
  make rank [] {| file_name := "a.txt" |} [] sources.

Definition no_sources : Private := fresh [].

Definition two_http : Private := fresh ["http://a.example/f"; "http://b.example/f"].

Definition one_http : Private := fresh ["http://a.example/f"].

(** A reply that is still running with three bytes buffered, the same
    reply once read and closed without error, and a reply that ended on a
    network error. *)
Definition reply_running : NAM.QNetworkReply :=
  {| NAM.isRunning := true; NAM.buffered := "abc"; NAM.noError := true |}.

Definition reply_closed : NAM.QNetworkReply :=
  {| NAM.isRunning := false; NAM.buffered := EmptyString; NAM.noError := true |}.

Definition reply_broken : NAM.QNetworkReply :=
  {| NAM.isRunning := false; NAM.buffered := EmptyString; NAM.noError := false |}.

(** The adapter for a source as [startNextDownloader] builds it. *)
Definition nam (uri : QString) : NAM.t :=
  {| NAM.base := Abstract.make uri; NAM.reply := None |}.

(** The state [open] leaves, in read-only mode and an empty directory. *)
Definition opened (p : Private) : Private :=
  match open env_empty 1 ReadOnly p with
  | Some (p', _, _) => p'
  | None => p
  end.

(** The adapter of the first source once started, with the running
    reply, and once its reply is read and closed. *)
Definition nam_running : Downloader :=
  D_NAM (fst (NAM.start reply_running (nam "http://a.example/f"))).

Definition nam_closed : Downloader :=
  D_NAM (fst (NAM.start reply_closed (nam "http://a.example/f"))).

(** A download of one source up to the point where every byte has been
    pulled and the transport has closed. *)
Definition drained : Private :=
  fst (run [E_transport nam_running; E_metaDataChanged None; E_readData 4096 None;
            E_transport nam_closed; E_disconnected]
           (opened one_http)).

(** The first of two sources answers 404; the second ends on a network
    error, which leaves no error text in the adapter. *)
Definition nam_404 : NAM.t :=
  fst (NAM.onReplyMetaDataChanged 404 EmptyString
         (fst (NAM.start reply_running (nam "http://a.example/f")))).

Definition nam_broken : NAM.t :=
  fst (NAM.start reply_broken (nam "http://b.example/f")).

(** The local identity and two peers: Alice has no resource on line, Bob
    has the resource named in his address on line. *)
Definition me : Jid :=
  {| jid_bare := "me@example.org"; jid_resource := "laptop"; jid_valid := true |}.

Definition alice : Jid :=
  {| jid_bare := "alice@example.org"; jid_resource := "phone"; jid_valid := true |}.

Definition bob : Jid :=
  {| jid_bare := "bob@example.org"; jid_resource := "desk"; jid_valid := true |}.

Definition account : PsiAccount :=
  {| client_jid := me;
     findRelevant := fun j =>
       if String.eqb (jid_bare j) "bob@example.org"
       then [{| userResourceList := ["desk"] |}]
       else if String.eqb (jid_bare j) "alice@example.org"
       then [{| userResourceList := [] |}]
       else [] |}.

(** One assignment of the flag bits, an item made from a blob, and an
    account whose server has no upload service. *)
Definition bits : FileSharingItem.FlagBits :=
  {| FileSharingItem.HttpFinished := 1; FileSharingItem.JingleFinished := 2;
     FileSharingItem.PublishNotified := 4; FileSharingItem.SizeKnown := 8 |}.

Definition blob_item : FileSharingItem.t :=
  {| FileSharingItem._fileType := FileSharingItem.TempFile;
     FileSharingItem._flags := 8;
     FileSharingItem._fileName := "/tmp/psi-Ab12Cd.png";
     FileSharingItem._mimeType := "image/png";
     FileSharingItem._uris := [];
     FileSharingItem._metaData := [];
     FileSharingItem._sums := [{| hash_type := 1; hash_data := "abc" |}];
     FileSharingItem._log := [] |}.

Definition no_upload : FileSharingItem.Env :=
  {| FileSharingItem.discoNotFound := true;
     FileSharingItem.cacheDir := "/home/user/.cache/psi/sharing";
     FileSharingItem.cachedName := "616263.png";
     FileSharingItem.mimeToFileExt := fun _ => "png" |}.

(** The item after its first [publish]. *)
Definition published_item : FileSharingItem.t :=
  match FileSharingItem.publish bits no_upload blob_item with
  | Some (i, _) => i
  | None => blob_item
  end.

(** An inline-blob adapter for an object both peers are candidates for. *)
Definition bob_adapter : BOB.t :=
  BOB.make "cid:sha1+8f35fef110ffc5df08d579a50083ff9308fb6242@bob.xmpp.org" [alice; bob].

End Scenario.

(** ** Ranked source lists: what the item does with them
       ([FileSharingItem::simpleSource], the source list of
       [FileSharingItem::toReference]) *)

Module Sources.

(** A source with a known transport kind, as a test. *)
Definition knownb (u : QString) : bool :=
  negb (SourceType_eqb (sourceType u) ST_None).

(** The priority of a source. *)
Definition rank_of (rank : SourceType -> Z) (u : QString) : Z := rank (sourceType u).

(** What [simpleSource] returns. *)
Inductive SimpleSource :=
| Unspecified          (* [sorted.last()] on an empty list *)
| NoUrl                (* [QUrl()] *)
| Url (u : QString).

Definition simpleSource (rank : SourceType -> Z) (uris : QStringList) : SimpleSource :=
  let sorted := sortSourcesByPriority rank uris in
  match sorted with
  | [] => Unspecified
  | _ :: _ =>
      let srcUrl := last sorted EmptyString in
      let t := sourceType srcUrl in
      if SourceType_eqb t ST_HTTP || SourceType_eqb t ST_FTP then Url srcUrl else NoUrl
  end.

(** One turn of the loop of [sortSourcesByPriority]. *)
Definition add (rank : SourceType -> Z) (m : list (Z * QString)) (u : QString)
    : list (Z * QString) :=
  if SourceType_eqb (sourceType u) ST_None then m
  else insertMulti (rank (sourceType u)) u m.

(** The map of the loop holds known sources under their priority. *)
Definition keyed (rank : SourceType -> Z) (m : list (Z * QString)) : Prop :=
  Forall (fun kv => fst kv = rank_of rank (snd kv) /\ knownb (snd kv) = true) m.

(** The map of the loop is in key order. *)
Definition ascending (m : list (Z * QString)) : Prop :=
  StronglySorted (fun a b => fst a <= fst b) m.

(** The sources of priority [k]. *)
Definition at_rank (rank : SourceType -> Z) (k : Z) (u : QString) : bool :=
  rank_of rank u =? k.

(** [Jid::full] of [u->jid().withResource(name)]. *)
Definition withResource (bare name : QString) : QString :=
  if isEmpty name then bare else bare ++ "/" ++ name.

(** The source list [toReference] puts in the descriptor: [selfBare] is
    the bare address of the roster entry of the local account and
    [resources] the names of its resources on line; [None] is the empty
    [Reference()] returned when there is none. *)
Definition referenceSources (rank : SourceType -> Z) (selfBare : QString)
    (resources : list QString) (uris : QStringList) : option QStringList :=
  match resources with
  | [] => None
  | first :: _ =>
      let self := "xmpp:" ++ withResource selfBare first ++ "?jingle-ft" in
      let uris1 := (uris ++ [self])%list in
      Some (rev (sortSourcesByPriority rank uris1))
  end.

End Sources.

(** ** The byte stream of a download, observed from outside *)

Module Stream.

Import FileShareDownloader.

(** The bytes an adapter holds ready for [read]. *)
Definition pending (d : Downloader) : QByteArray :=
  match d with
  | D_NAM n => match NAM.reply n with Some r => NAM.buffered r | None => EmptyString end
  | D_BOB b => BOB.receivedData b
  | D_Jingle j =>
      match Jingle.connection j with
      | Some c => Jingle.conn_buffered c
      | None => EmptyString
      end
  end.

(** What has been written to the staging file. *)
Definition staged (p : Private) : QByteArray :=
  match tmpFile p with Some f => qf_data f | None => EmptyString end.

(** The sources of the adapters started, in order. *)
Fixpoint started (o : list Out) : list QString :=
  match o with
  | [] => []
  | Start d :: r => Abstract.sourceUri (Downloader.base d) :: started r
  | _ :: r => started r
  end.

(** How often [finished] was emitted. *)
Fixpoint finished_count (o : list Out) : nat :=
  match o with
  | [] => O
  | QEmit q_finished :: r => S (finished_count r)
  | _ :: r => finished_count r
  end.

(** No signal of the orchestrator among what was done. *)
Fixpoint silent (o : list Out) : bool :=
  match o with
  | [] => true
  | QEmit _ :: _ => false
  | _ :: r => silent r
  end.

(** Adapter after adapter fails: each has moved on to the state given
    for it when its [failed] arrives. *)
Definition failures (ds : list Downloader) : list Event :=
  flat_map (fun d => [E_transport d; E_failed]) ds.

(** What the flags of the orchestrator promise about its members. *)
Definition consistent (p : Private) : Prop :=
  (forall f, tmpFile p = Some f ->
     metaReady p = true /\ downloader p <> None
     /\ qf_name f = stagingName (dstFileName p))
  /\ (success p = true -> tmpFile p <> None).

End Stream.

(** ** Publishing, observed from outside *)

Module Publishing.

Import FileSharingItem.

(** What can happen to an item being published: [publish] is called, or
    the upload it started reports progress or its end. *)
Inductive Ev :=
| Publish
| UploadProgress (bytesReceived : Z)
| UploadFinished (ok : bool) (url status : QString).

Definition step (fl : FlagBits) (env : Env) (e : Ev) (i : t) : option (t * list Eff) :=
  match e with
  | Publish => publish fl env i
  | UploadProgress n => Some (i, onUploadProgress n)
  | UploadFinished ok url status => Some (onUploadFinished fl env ok url status i)
  end.

(** A run stops at a failed assertion. *)
Fixpoint run (fl : FlagBits) (env : Env) (evs : list Ev) (i : t) : option (t * list Eff) :=
  match evs with
  | [] => Some (i, [])
  | e :: rest =>
      match step fl env e i with
      | None => None
      | Some (i1, e1) =>
          match run fl env rest i1 with
          | None => None
          | Some (i2, e2) => Some (i2, (e1 ++ e2)%list)
          end
      end
  end.

(** How often [publishFinished] was emitted, and how often the cache was
    written. *)
Fixpoint notifications (es : list Eff) : nat :=
  match es with
  | [] => O
  | Emit_publishFinished :: r => S (notifications r)
  | _ :: r => notifications r
  end.

Fixpoint cache_writes (es : list Eff) : nat :=
  match es with
  | [] => O
  | MoveToCache _ _ _ _ :: r => S (cache_writes r)
  | SaveToCache _ _ _ _ :: r => S (cache_writes r)
  | _ :: r => cache_writes r
  end.

(** [m.value(k)], [None] for a key that is not there. *)
Fixpoint map_get (k : QString) (m : QVariantMap) : option QVariant :=
  match m with
  | [] => None
  | (k', v) :: r => if String.eqb k k' then Some v else map_get k r
  end.

(** The metadata a cache write carries. *)
Definition written_meta (e : Eff) : option QVariantMap :=
  match e with
  | MoveToCache _ _ m _ => Some m
  | SaveToCache _ _ m _ => Some m
  | _ => None
  end.

(** The entry of [k] in the metadata a cache write carries. *)
Definition written (k : QString) (e : Eff) : option QVariant :=
  match written_meta e with Some m => map_get k m | None => None end.

(** The three publish flags are bits of their own. *)
Definition distinct_bits (fl : FlagBits) : Prop :=
  HttpFinished fl <> 0 /\ JingleFinished fl <> 0 /\ PublishNotified fl <> 0
  /\ Z.land (HttpFinished fl) (JingleFinished fl) = 0
  /\ Z.land (HttpFinished fl) (PublishNotified fl) = 0
  /\ Z.land (JingleFinished fl) (PublishNotified fl) = 0.

(** None of the three publish flags is set. *)
Definition unpublished (fl : FlagBits) (i : t) : Prop :=
  Z.land (_flags i) (HttpFinished fl) = 0
  /\ Z.land (_flags i) (JingleFinished fl) = 0
  /\ Z.land (_flags i) (PublishNotified fl) = 0.

(** The metadata [checkFinished] hands to the cache, before the link. *)
Definition finalMeta (i : t) : QVariantMap :=
  let meta := map_set "type" (V_string (_mimeType i)) (_metaData i) in
  if (0 <? Z.of_nat (List.length (_uris i)))
  then map_set "uris" (V_list (_uris i)) meta else meta.

End Publishing.

(** * Properties *)

(** ** The orchestrator: metadata, fallback and terminal failure *)

Section Orchestrator.

Import FileShareDownloader.

Lemma startNextDownloader_metaReady (p : Private) :
  metaReady (fst (startNextDownloader p)) = metaReady p.
Proof.
  unfold startNextDownloader.
  destruct (downloader p) as [d|]; simpl;
    (destruct (uris p) as [|u us]; simpl;
     [ destruct (isEmpty _); reflexivity
     | destruct (newDownloader _ _); reflexivity ]).
Qed.

Lemma readData_members (m : Z) (w : option (nat * QString)) (p : Private) :
  let p' := fst (fst (readData m w p)) in
  metaReady p' = metaReady p /\ uris p' = uris p
  /\ (downloader p <> None -> downloader p' <> None).
Proof.
  unfold readData.
  destruct (tmpFile p) as [f|]; [|simpl; auto].
  destruct (downloader p) as [d|]; [|simpl; auto].
  destruct (Downloader.read m d) as [d1 bytes].
  destruct w as [[written err]|].
  - destruct (Downloader.abort d1) as [d2 calls]; simpl.
    repeat split; congruence.
  - destruct (negb (Downloader.isConnected d1) && (Downloader.bytesAvailable d1 =? 0));
      simpl; repeat split; congruence.
Qed.

Lemma step_committed (e : Event) (p : Private) :
  committed p ->
  committed (fst (step e p)) /\ uris (fst (step e p)) = uris p
  /\ (forall d, ~ In (Start d) (snd (step e p))).
Proof.
  intros [Hm Hd].
  destruct (downloader p) as [d|] eqn:Ed; [clear Hd | congruence].
  unfold committed.
  destruct e as [ | oe | | | m w | | s z | d']; simpl.
  - unfold onFailed. rewrite Ed. simpl. rewrite Hm. simpl.
    rewrite Hm, Ed. repeat split; try congruence.
    intros d0 [H|[]]; discriminate.
  - unfold onMetaDataChanged. rewrite Ed.
    destruct oe as [err|].
    + destruct (Downloader.abort d) as [d1 calls]; simpl.
      repeat split; try congruence.
      intros d0 H. apply in_app_or in H. destruct H as [H|[H|[]]]; [|discriminate].
      apply in_map_iff in H. destruct H as [c [H _]]. discriminate.
    + simpl. rewrite Ed. repeat split; try congruence.
      intros d0 [H|[]]; discriminate.
  - unfold onReadyRead. rewrite Ed. simpl. rewrite Hm, Ed.
    repeat split; try congruence. intros d0 [H|[]]; discriminate.
  - unfold onDisconnected. rewrite Ed. simpl. rewrite Hm, Ed.
    repeat split; try congruence.
    intros d0 [H|H]; [discriminate|].
    destruct (Downloader.bytesAvailable d =? 0); [destruct H as [H|[]]; discriminate | destruct H].
  - pose proof (readData_members m w p) as Hr.
    assert (Hout : forall d0, ~ In (Start d0) (snd (readData m w p))).
    { unfold readData. rewrite Ed. destruct (tmpFile p); [|simpl; tauto].
      destruct (Downloader.read m d) as [d1 bytes]. destruct w as [[written err]|].
      - destruct (Downloader.abort d1) as [d2 calls]; simpl.
        intros d0 H. apply in_map_iff in H. destruct H as [c [H _]]. discriminate.
      - destruct (negb (Downloader.isConnected d1) && (Downloader.bytesAvailable d1 =? 0));
          simpl; intros d0 H; [destruct H as [H|[]]; discriminate | exact H]. }
    destruct (readData m w p) as [[p' n] o]; simpl in *.
    destruct Hr as (H1 & H2 & H3). rewrite H1.
    repeat split; try assumption. apply H3. rewrite Ed. discriminate.
  - unfold abort. rewrite Ed. destruct (Downloader.abort d) as [d1 calls]; simpl.
    repeat split; try congruence.
    intros d0 H. apply in_map_iff in H. destruct H as [c [H _]]. discriminate.
  - rewrite Hm, Ed. repeat split; congruence || tauto.
  - rewrite Ed. simpl. repeat split; congruence || tauto.
Qed.

Lemma run_committed (evs : list Event) :
  forall p, committed p ->
    committed (fst (run evs p)) /\ uris (fst (run evs p)) = uris p
    /\ (forall d, ~ In (Start d) (snd (run evs p))).
Proof.
  induction evs as [|e rest IH]; intros p Hc; simpl.
  - repeat split; try apply Hc. tauto.
  - destruct (step_committed e p Hc) as (Hc1 & Hu1 & Ho1).
    destruct (step e p) as [p1 o1]; simpl in *.
    destruct (IH p1 Hc1) as (Hc2 & Hu2 & Ho2).
    destruct (run rest p1) as [p2 o2]; simpl in *.
    repeat split; try apply Hc2; try congruence.
    intros d H. apply in_app_or in H. destruct H; [eapply Ho1 | eapply Ho2]; eassumption.
Qed.

Lemma onMetaDataChanged_committed (oe : option QString) (p : Private) (d : Downloader) :
  downloader p = Some d ->
  committed (fst (onMetaDataChanged oe p))
  /\ uris (fst (onMetaDataChanged oe p)) = uris p.
Proof.
  intros Ed. unfold onMetaDataChanged, committed. rewrite Ed.
  destruct oe as [err|].
  - destruct (Downloader.abort d) as [d1 calls]; simpl. repeat split; congruence.
  - simpl. rewrite Ed. repeat split; congruence.
Qed.

Lemma onFailed_committed (p : Private) (d : Downloader) :
  downloader p = Some d -> metaReady p = true ->
  onFailed p
  = (set_lastError (Downloader.lastError d) (set_success false p), [QEmit q_finished]).
Proof.
  intros Ed Hm. unfold onFailed. rewrite Ed. simpl. rewrite Hm. reflexivity.
Qed.

(** C1.  Once the metadata slot has run for the active adapter, whatever
    happens next (pulls, aborts, range requests, further signals, the
    adapter moving on), a [failed] signal of the adapter ends the download:
    [finished] is emitted with [success] false and the adapter's last
    error text as [lastError]; the adapter is kept, no source is popped
    and no adapter is started, whatever is left on the source list. *)
Theorem failed_after_metadata_is_terminal :
  forall (p : Private) (d0 : Downloader) (oe : option QString) (evs : list Event),
    downloader p = Some d0 ->
    let p1 := fst (run evs (fst (onMetaDataChanged oe p))) in
    exists d,
      downloader p1 = Some d
      /\ uris p1 = uris p
      /\ onFailed p1
         = (set_lastError (Downloader.lastError d) (set_success false p1),
            [QEmit q_finished])
      /\ success (fst (onFailed p1)) = false
      /\ lastError (fst (onFailed p1)) = Downloader.lastError d
      /\ uris (fst (onFailed p1)) = uris p
      /\ downloader (fst (onFailed p1)) = Some d.
Proof.
  intros p d0 oe evs Ed p1.
  destruct (onMetaDataChanged_committed oe p d0 Ed) as [Hc Hu].
  destruct (run_committed evs _ Hc) as ([Hm Hd] & Hu' & _).
  fold p1 in Hm, Hd, Hu'.
  destruct (downloader p1) as [d|] eqn:Ed1; [|congruence].
  exists d.
  rewrite (onFailed_committed p1 d Ed1 Hm). simpl.
  repeat split; congruence.
Qed.

(** [metaReady] is false on a fresh orchestrator and stays as it is as
    long as no [metaDataChanged] of an adapter is delivered. *)
Lemma step_without_metadata (e : Event) (p : Private) :
  not_metadata e -> metaReady (fst (step e p)) = metaReady p.
Proof.
  destruct e as [ | oe | | | m w | | s z | d']; simpl; intros H; try contradiction.
  - unfold onFailed. destruct (downloader p); [|reflexivity].
    simpl. destruct (metaReady p) eqn:E; [exact E|].
    rewrite startNextDownloader_metaReady. exact E.
  - unfold onReadyRead. destruct (downloader p); reflexivity.
  - unfold onDisconnected. destruct (downloader p); reflexivity.
  - pose proof (readData_members m w p) as (Hm & _).
    destruct (readData m w p) as [[p' n] o]. exact Hm.
  - unfold abort. destruct (downloader p) as [d|]; [destruct (Downloader.abort d)|]; reflexivity.
  - reflexivity.
  - destruct (downloader p); reflexivity.
Qed.

Lemma run_without_metadata (evs : list Event) :
  forall p, Forall not_metadata evs -> metaReady (fst (run evs p)) = metaReady p.
Proof.
  induction evs as [|e rest IH]; intros p H; simpl; [reflexivity|].
  inversion H; subst.
  pose proof (step_without_metadata e p ltac:(assumption)) as Hs.
  destruct (step e p) as [p1 o1]. simpl in Hs.
  specialize (IH p1 ltac:(assumption)).
  destruct (run rest p1) as [p2 o2]. simpl in *. congruence.
Qed.

(** The sources the constructor keeps all have a known kind. *)
Lemma insertMulti_snd (k : Z) (v : QString) (m : list (Z * QString)) (P : QString -> Prop) :
  P v -> Forall P (map snd m) -> Forall P (map snd (insertMulti k v m)).
Proof.
  intros Hv. induction m as [|[k' v'] r IH]; simpl; intros Hm.
  - constructor; [exact Hv | constructor].
  - destruct (k <=? k'); simpl.
    + constructor; [exact Hv | exact Hm].
    + inversion Hm; subst. constructor; [assumption | apply IH; assumption].
Qed.

Lemma sortSourcesByPriority_known (rank : SourceType -> Z) (l : QStringList) :
  Forall known (sortSourcesByPriority rank l).
Proof.
  unfold sortSourcesByPriority.
  assert (H : forall m, Forall known (map snd m) ->
            Forall known (map snd (fold_left
              (fun m u => let type := sourceType u in
                 if SourceType_eqb type ST_None then m
                 else insertMulti (rank type) u m) l m))).
  { induction l as [|u l IH]; simpl; intros m Hm; [exact Hm|].
    apply IH. destruct (sourceType u) eqn:Eu; simpl; try exact Hm;
      apply insertMulti_snd; try exact Hm; unfold known; rewrite Eu; discriminate. }
  apply H. constructor.
Qed.

Lemma removelast_Forall {A : Type} (P : A -> Prop) (l : list A) :
  Forall P l -> Forall P (removelast l).
Proof.
  induction l as [|a [|b r] IH]; simpl; intros H; auto.
  inversion H; subst. constructor; auto.
Qed.

Lemma startNextDownloader_known (p : Private) :
  Forall known (uris p) -> Forall known (uris (fst (startNextDownloader p))).
Proof.
  unfold startNextDownloader. intros H.
  destruct (downloader p) as [d|]; simpl;
    (destruct (uris p) as [|u us] eqn:Eu; simpl;
     [ destruct (isEmpty _); simpl; rewrite Eu; constructor
     | destruct (newDownloader _ _); simpl;
       change (match us with [] => [] | _ :: _ => u :: removelast us end)
         with (removelast (u :: us));
       apply removelast_Forall; exact H ]).
Qed.

Lemma step_known (e : Event) (p : Private) :
  Forall known (uris p) -> Forall known (uris (fst (step e p))).
Proof.
  intros H. destruct e as [ | oe | | | m w | | s z | d']; simpl.
  - unfold onFailed. destruct (downloader p) as [d|] eqn:Ed; [|exact H].
    simpl. destruct (metaReady p); [exact H|].
    apply startNextDownloader_known. exact H.
  - unfold onMetaDataChanged. destruct (downloader p) as [d|]; [|exact H].
    destruct oe; [destruct (Downloader.abort d)|]; exact H.
  - unfold onReadyRead. destruct (downloader p); exact H.
  - unfold onDisconnected. destruct (downloader p); exact H.
  - pose proof (readData_members m w p) as (_ & Hu & _).
    destruct (readData m w p) as [[p' n] o]; simpl in *. rewrite Hu. exact H.
  - unfold abort. destruct (downloader p) as [d|]; [destruct (Downloader.abort d)|]; exact H.
  - exact H.
  - destruct (downloader p); exact H.
Qed.

Lemma newDownloader_known (p : Private) (u : QString) :
  known u ->
  exists d, newDownloader p u = Some d
            /\ Downloader.base d = Abstract.make u
            /\ kind_matches (sourceType u) d.
Proof.
  unfold known, newDownloader. intros H.
  destruct (sourceType u); try congruence; eexists; repeat split.
Qed.

Lemma last_snoc {A : Type} (l : list A) (a d : A) : last (l ++ [a])%list d = a.
Proof.
  induction l as [|b r IH]; simpl; [reflexivity|].
  destruct (r ++ [a])%list eqn:E; [destruct r; discriminate | exact IH].
Qed.

Lemma removelast_snoc {A : Type} (l : list A) (a : A) : removelast (l ++ [a])%list = l.
Proof.
  induction l as [|b r IH]; simpl; [reflexivity|].
  destruct (r ++ [a])%list eqn:E; [destruct r; discriminate | rewrite IH; reflexivity].
Qed.

(** C2, as the code has it.  A [failed] signal before any metadata: the
    error text of the adapter is recorded and the adapter deleted.  With
    the list exhausted, [finished] is emitted with [success] false and
    that text, or the generic text when that text is empty.  Otherwise
    the last source of the list is popped, the adapter of its kind is
    built for it with the requested range and started. *)
Theorem failed_before_metadata_falls_back :
  forall (p : Private) (d : Downloader),
    downloader p = Some d -> metaReady p = false -> Forall known (uris p) ->
    (uris p = [] ->
       onFailed p
       = (set_lastError
            (if isEmpty (Downloader.lastError d) then no_sources_text
             else Downloader.lastError d)
            (set_downloader None (set_success false p)),
          [Delete d; QEmit q_finished]))
    /\ (forall us u, uris p = (us ++ [u])%list ->
          exists d1,
            onFailed p
            = (set_downloader (Some d1)
                 (set_uris us
                    (set_lastError (Downloader.lastError d) (set_success false p))),
               [Delete d; Start d1])
            /\ Downloader.base d1
               = Abstract.setRange (rangeStart p) (rangeSize p) (Abstract.make u)
            /\ kind_matches (sourceType u) d1).
Proof.
  intros p d Ed Hm Hk. split.
  - intros Hu. unfold onFailed. rewrite Ed. simpl. rewrite Hm.
    unfold startNextDownloader. simpl. rewrite Ed. simpl. rewrite Hu. simpl.
    destruct (isEmpty (Downloader.lastError d)); reflexivity.
  - intros us u Hu.
    assert (Ku : known u).
    { rewrite Hu in Hk. apply Forall_app in Hk. destruct Hk as [_ Hk].
      inversion Hk; assumption. }
    unfold onFailed. rewrite Ed. simpl. rewrite Hm.
    unfold startNextDownloader. simpl. rewrite Ed. simpl. rewrite Hu.
    destruct (us ++ [u])%list as [|x xs] eqn:Ex; [destruct us; discriminate|].
    rewrite <- Ex. rewrite last_snoc, removelast_snoc.
    match goal with |- context [newDownloader ?q u] =>
      destruct (newDownloader_known q u Ku) as (d0 & E0 & Hb & Hkind) end.
    rewrite E0. simpl.
    exists (Downloader.setRange (rangeStart p) (rangeSize p) d0).
    repeat split.
    + destruct d0; simpl in *; rewrite Hb; reflexivity.
    + destruct d0; simpl in *; exact Hkind.
Qed.

(** [failed_after_metadata_is_terminal] on a download of two sources whose
    first adapter has reported metadata. *)
Lemma failed_after_metadata_witness :
  downloader (Scenario.opened Scenario.two_http)
  = Some (D_NAM (Scenario.nam "http://a.example/f"))
  /\ exists d,
      let p1 := fst (run [E_transport Scenario.nam_running; E_readData 2 None; E_readyRead]
                        (fst (onMetaDataChanged None (Scenario.opened Scenario.two_http)))) in
      downloader p1 = Some d
      /\ uris p1 = ["http://b.example/f"]
      /\ snd (onFailed p1) = [QEmit q_finished].
Proof.
  split; [reflexivity|].
  destruct (failed_after_metadata_is_terminal
              (Scenario.opened Scenario.two_http)
              (D_NAM (Scenario.nam "http://a.example/f")) None
              [E_transport Scenario.nam_running; E_readData 2 None; E_readyRead]
              eq_refl) as (d & H1 & H2 & H3 & _).
  exists d. cbv zeta. rewrite H3. repeat split; assumption.
Defined.

(** [failed_before_metadata_falls_back] on the same download before any
    metadata: the second source is still on the list. *)
Lemma failed_before_metadata_witness :
  downloader (Scenario.opened Scenario.two_http)
  = Some (D_NAM (Scenario.nam "http://a.example/f"))
  /\ metaReady (Scenario.opened Scenario.two_http) = false
  /\ exists d1,
      snd (onFailed (Scenario.opened Scenario.two_http))
      = [Delete (D_NAM (Scenario.nam "http://a.example/f")); Start d1]
      /\ Downloader.base d1 = Abstract.make "http://b.example/f".
Proof.
  split; [reflexivity|]. split; [reflexivity|].
  destruct (failed_before_metadata_falls_back
              (Scenario.opened Scenario.two_http)
              (D_NAM (Scenario.nam "http://a.example/f"))
              eq_refl eq_refl
              (sortSourcesByPriority_known Scenario.rank ["http://b.example/f"]))
    as [_ H].
  destruct (H [] "http://b.example/f" eq_refl) as (d1 & E & B & _).
  exists d1. rewrite E. split; [reflexivity | exact B].
Defined.

(** C2, against the claim as stated.  Two sources; the first adapter
    fails on a 404 and its text is recorded; the second ends on a network
    error, which the adapter signals without any text.  The list is then
    exhausted and the download fails with the generic text, although an
    adapter had recorded one: the text carried is neither the one recorded
    first nor the (empty) one recorded last. *)
Lemma exhausted_list_hides_recorded_error :
  let p1 := Scenario.opened Scenario.two_http in
  let p2 := fst (run [E_transport (D_NAM Scenario.nam_404); E_failed] p1) in
  let r3 := run [E_transport (D_NAM Scenario.nam_broken); E_failed] p2 in
  metaReady p2 = false
  /\ lastError p2 = "Unexpected HTTP status: 404"
  /\ downloader p2 = Some (D_NAM (Scenario.nam "http://b.example/f"))
  /\ uris p2 = []
  /\ NAM.onReplyFinished Scenario.nam_broken = [Emit failed Scenario.nam_broken]
  /\ Downloader.lastError (D_NAM Scenario.nam_broken) = EmptyString
  /\ snd r3 = [Delete (D_NAM Scenario.nam_broken); QEmit q_finished]
  /\ success (fst r3) = false
  /\ lastError (fst r3) = no_sources_text
  /\ lastError (fst r3) <> "Unexpected HTTP status: 404"
  /\ lastError (fst r3) <> EmptyString.
Proof.
  cbv zeta. repeat split; try reflexivity; vm_compute; discriminate.
Qed.

(** ** The orchestrator: pulls and the success flag *)

Lemma string_app_empty (s : string) : (s ++ EmptyString)%string = s.
Proof. induction s as [|c r IH]; simpl; [reflexivity | rewrite IH; reflexivity]. Qed.

Lemma size_zero_empty (s : string) : size s = 0 -> s = EmptyString.
Proof. destruct s; [reflexivity | unfold size; simpl; lia]. Qed.

Lemma mid_empty (k : nat) : mid k EmptyString = EmptyString.
Proof. destruct k; reflexivity. Qed.

Lemma left_empty (k : nat) : left k EmptyString = EmptyString.
Proof. destruct k; reflexivity. Qed.

(** Reading an adapter that has nothing available takes nothing and
    leaves the adapter as it is. *)
Lemma read_nothing_available (m : Z) (d : Downloader) :
  Downloader.bytesAvailable d = 0 -> Downloader.read m d = (d, EmptyString).
Proof.
  destruct d as [[b [r|]] | b | [b js [c|] a]]; simpl; intros H; try reflexivity.
  - unfold NAM.bytesAvailable in H. simpl in H. apply size_zero_empty in H.
    unfold NAM.read. simpl. destruct r as [run buf ne]; simpl in *. subst buf.
    rewrite mid_empty, left_empty. reflexivity.
  - unfold BOB.bytesAvailable in H. pose proof (size_zero_empty _ H) as E.
    unfold BOB.read. destruct b as [a js rd ds cn]; simpl in *. subst rd.
    unfold BOB.set_receivedData; simpl.
    destruct (size EmptyString <=? m); simpl; [reflexivity|].
    rewrite mid_empty, left_empty. reflexivity.
  - unfold Jingle.bytesAvailable in H. simpl in H. apply size_zero_empty in H.
    unfold Jingle.read. simpl. destruct c as [buf]; simpl in *. subst buf.
    rewrite mid_empty, left_empty. reflexivity.
Qed.

(** A pull that finds the adapter disconnected and drained declares
    success and emits [finished], and leaves the orchestrator in a state
    where the next pull finds the same. *)
Lemma readData_drained (m : Z) (p : Private) (f : QFile) (d : Downloader) :
  tmpFile p = Some f -> downloader p = Some d ->
  Downloader.isConnected d = false -> Downloader.bytesAvailable d = 0 ->
  readData m None p = (set_success true p, 0, [QEmit q_finished]).
Proof.
  intros Ef Ed Hc Ha. unfold readData. rewrite Ef, Ed.
  rewrite (read_nothing_available m d Ha). rewrite Hc, Ha. simpl.
  rewrite string_app_empty.
  destruct p; simpl in *; subst. destruct f. reflexivity.
Qed.

Lemma pulls_after_drained (ms : list Z) :
  forall (p : Private) (f : QFile) (d : Downloader),
    tmpFile p = Some f -> downloader p = Some d ->
    Downloader.isConnected d = false -> Downloader.bytesAvailable d = 0 ->
    snd (run (map (fun m => E_readData m None) ms) p)
    = map (fun _ => QEmit q_finished) ms.
Proof.
  induction ms as [|m ms IH]; intros p f d Ef Ed Hc Ha; simpl; [reflexivity|].
  rewrite (readData_drained m p f d Ef Ed Hc Ha).
  specialize (IH (set_success true p) f d Ef Ed Hc Ha).
  destruct (run _ (set_success true p)) as [p2 o2]. simpl in *. rewrite IH. reflexivity.
Qed.

(** C3, on the code.  A download of one source is pulled to the end and
    its transport closes; the pull that finds it closed and drained emits
    [finished] with [success] set, and so does the pull after it: the
    success notification goes out twice. *)
Theorem second_pull_emits_finished_again :
  let r1 := readData 4096 None Scenario.drained in
  let r2 := readData 4096 None (fst (fst r1)) in
  isConnected Scenario.drained = false
  /\ bytesAvailable Scenario.drained = 0
  /\ success Scenario.drained = false
  /\ snd r1 = [QEmit q_finished] /\ success (fst (fst r1)) = true
  /\ snd r2 = [QEmit q_finished] /\ success (fst (fst r2)) = true
  /\ snd (run [E_readData 4096 None; E_readData 4096 None] Scenario.drained)
     = [QEmit q_finished; QEmit q_finished].
Proof.
  cbv zeta. do 7 (split; [reflexivity|]).
  exact (pulls_after_drained [4096; 4096] Scenario.drained
           {| qf_name := "/home/user/Documents/dl-a.txt"; qf_data := "abc" |}
           Scenario.nam_closed eq_refl eq_refl eq_refl eq_refl).
Qed.

(** C10.  [fileName] is empty whenever [success] is not set, and is the
    destination path when it is set; it is empty on a freshly constructed
    orchestrator and after the slot of [failed] has run; and the flag goes
    from unset to set only in a pull that emits [finished]. *)
Theorem fileName_only_after_success :
  (forall p, success p = false -> fileName p = EmptyString)
  /\ (forall p, success p = true -> fileName p = dstFileName p)
  /\ (forall rank sums0 file0 jids0 uris0,
        fileName (make rank sums0 file0 jids0 uris0) = EmptyString)
  /\ (forall p d, downloader p = Some d -> fileName (fst (onFailed p)) = EmptyString)
  /\ (forall e p, success p = false -> success (fst (step e p)) = true ->
        exists m w, e = E_readData m w /\ In (QEmit q_finished) (snd (step e p))).
Proof.
  repeat split.
  - intros p H. unfold fileName. rewrite H. reflexivity.
  - intros p H. unfold fileName. rewrite H. reflexivity.
  - intros p d Ed. unfold onFailed. rewrite Ed. simpl.
    destruct (metaReady p); [reflexivity|].
    unfold startNextDownloader. simpl. rewrite Ed. simpl.
    destruct (uris p) as [|u us]; simpl.
    + destruct (isEmpty (Downloader.lastError d)); reflexivity.
    + destruct (newDownloader _ _); reflexivity.
  - intros e p Hs Hs'.
    destruct e as [ | oe | | | m w | | s z | d']; simpl in *.
    + exfalso. unfold onFailed in Hs'. destruct (downloader p) as [d|] eqn:Ed;
        [|simpl in Hs'; congruence].
      simpl in Hs'. destruct (metaReady p); [simpl in Hs'; congruence|].
      unfold startNextDownloader in Hs'. simpl in Hs'. rewrite Ed in Hs'. simpl in Hs'.
      destruct (uris p) as [|u us]; simpl in Hs'.
      * destruct (isEmpty (Downloader.lastError d)); simpl in Hs'; congruence.
      * destruct (newDownloader _ _); simpl in Hs'; congruence.
    + exfalso. unfold onMetaDataChanged in Hs'.
      destruct (downloader p) as [d|]; [|simpl in Hs'; congruence].
      destruct oe; [destruct (Downloader.abort d)|]; simpl in Hs'; congruence.
    + exfalso. unfold onReadyRead in Hs'. destruct (downloader p); simpl in Hs'; congruence.
    + exfalso. unfold onDisconnected in Hs'. destruct (downloader p); simpl in Hs'; congruence.
    + exists m, w. split; [reflexivity|].
      unfold readData in *.
      destruct (tmpFile p); [|simpl in Hs'; congruence].
      destruct (downloader p) as [d|]; [|simpl in Hs'; congruence].
      destruct (Downloader.read m d) as [d1 bytes].
      destruct w as [[written err]|];
        [destruct (Downloader.abort d1); simpl in Hs'; congruence|].
      destruct (negb (Downloader.isConnected d1) && (Downloader.bytesAvailable d1 =? 0));
        simpl in *; [left; reflexivity | congruence].
    + exfalso. unfold abort in Hs'.
      destruct (downloader p) as [d|]; [destruct (Downloader.abort d)|]; simpl in Hs'; congruence.
    + congruence.
    + exfalso. destruct (downloader p); simpl in Hs'; congruence.
Qed.

(** [fileName_only_after_success] on the download of [Scenario]: no name
    before the last pull, the destination path after it. *)
Lemma fileName_only_after_success_witness :
  success Scenario.drained = false
  /\ fileName Scenario.drained = EmptyString
  /\ success (fst (step (E_readData 4096 None) Scenario.drained)) = true
  /\ fileName (fst (step (E_readData 4096 None) Scenario.drained))
     = "/home/user/Documents/a.txt"
  /\ In (QEmit q_finished) (snd (step (E_readData 4096 None) Scenario.drained)).
Proof.
  destruct fileName_only_after_success as (H1 & H2 & _ & _ & H5).
  split; [reflexivity|].
  split; [exact (H1 Scenario.drained eq_refl)|].
  split; [reflexivity|].
  split; [rewrite (H2 (fst (step (E_readData 4096 None) Scenario.drained)) eq_refl);
          reflexivity|].
  destruct (H5 (E_readData 4096 None) Scenario.drained eq_refl eq_refl) as (m & w & _ & Hin).
  exact Hin.
Defined.

(** ** The orchestrator: [open] *)

(** The loop of [open] stops at once on a free name, and what it returns
    is always a free name. *)
Lemma pickName_free (env : Env) (b sfx : QString) (i : Z) (k : nat) (fn : QString) :
  dirExists env fn = false -> pickName env b sfx i (S k) fn = Some fn.
Proof. intros H. simpl. rewrite H. reflexivity. Qed.

Lemma pickName_sound (env : Env) (b sfx : QString) (i : Z) (fuel : nat) :
  forall fn fn', pickName env b sfx i fuel fn = Some fn' -> dirExists env fn' = false.
Proof.
  induction fuel as [|k IH]; simpl; intros fn fn' H; [discriminate|].
  destruct (dirExists env fn) eqn:E.
  - eapply IH; eassumption.
  - injection H as <-. exact E.
Qed.

(** After one collision the loop stops on the first numbered name when
    that name is free. *)
Lemma pickName_numbered (env : Env) (b sfx : QString) (i : Z) (k : nat) (fn : QString) :
  dirExists env fn = true -> dirExists env (numbered b sfx i) = false ->
  pickName env b sfx i (S (S k)) fn = Some (numbered b sfx i).
Proof. intros H0 H1. simpl. rewrite H0, H1. reflexivity. Qed.

(** The index is never advanced: when the first numbered name is taken
    too, the loop tests that same name for ever. *)
Lemma pickName_spins (env : Env) (b sfx : QString) (i : Z) (fn : QString) :
  dirExists env fn = true -> dirExists env (numbered b sfx i) = true ->
  forall fuel, pickName env b sfx i fuel fn = None.
Proof.
  intros H0 H1 fuel.
  assert (Hn : forall k, pickName env b sfx i k (numbered b sfx i) = None).
  { induction k as [|k IH]; simpl; [reflexivity | rewrite H1; exact IH]. }
  destruct fuel as [|k]; simpl; [reflexivity | rewrite H0; apply Hn].
Qed.

(** C4, as the code has it.  With an empty source list [open] never
    starts an adapter.  It returns false only when the mode lacks the
    read flag.  With the read flag it returns true: at once when the
    device is open already, and otherwise after choosing the destination
    name and letting [startNextDownloader] end the download with
    [finished], [success] false and the text for missing sources when no
    other text was there. *)
Theorem open_without_sources :
  forall (env : Env) (mode : Z) (p : Private),
    uris p = [] ->
    (Z.land mode ReadOnly = 0 ->
       forall fuel, open env fuel mode p = Some (set_success false p, false, []))
    /\ (Z.land mode ReadOnly <> 0 -> isOpen p = true ->
          forall fuel, open env fuel mode p = Some (p, true, []))
    /\ (Z.land mode ReadOnly <> 0 -> isOpen p = false -> downloader p = None ->
          forall fuel fn,
            pickName env (completeBaseName (firstName env p)) (Qt.suffix (firstName env p))
                     1 fuel (firstName env p) = Some fn ->
            open env fuel mode p
            = Some (set_lastError
                      (if isEmpty (lastError p) then no_sources_text else lastError p)
                      (set_success false
                         (set_openMode mode
                            (set_dstFileName (absoluteFilePath (documentsDir env) fn) p))),
                    true, [QEmit q_finished]))
    /\ (Z.land mode ReadOnly <> 0 -> isOpen p = false -> downloader p = None ->
          dirExists env (firstName env p) = false ->
          forall k, exists p',
            open env (S k) mode p = Some (p', true, [QEmit q_finished])
            /\ success p' = false /\ downloader p' = None)
    /\ (forall fuel r d, open env fuel mode p = Some r -> ~ In (Start d) (snd r)).
Proof.
  intros env mode p Hu.
  assert (H3 : Z.land mode ReadOnly <> 0 -> isOpen p = false -> downloader p = None ->
          forall fuel fn,
            pickName env (completeBaseName (firstName env p)) (Qt.suffix (firstName env p))
                     1 fuel (firstName env p) = Some fn ->
            open env fuel mode p
            = Some (set_lastError
                      (if isEmpty (lastError p) then no_sources_text else lastError p)
                      (set_success false
                         (set_openMode mode
                            (set_dstFileName (absoluteFilePath (documentsDir env) fn) p))),
                    true, [QEmit q_finished])).
  { intros Hm Ho Hd fuel fn Hp. unfold open. rewrite Hu. simpl.
    apply Z.eqb_neq in Hm. rewrite Hm, Ho. simpl. rewrite Hp.
    unfold startNextDownloader. simpl. rewrite Hd. simpl. rewrite Hu. simpl.
    destruct (isEmpty (lastError p)); reflexivity. }
  repeat split.
  - intros Hm fuel. unfold open. rewrite Hu. simpl.
    apply Z.eqb_eq in Hm. rewrite Hm. reflexivity.
  - intros Hm Ho fuel. unfold open. rewrite Hu. simpl.
    apply Z.eqb_neq in Hm. rewrite Hm, Ho. reflexivity.
  - exact H3.
  - intros Hm Ho Hd Hfree k.
    eexists. split; [apply (H3 Hm Ho Hd); apply pickName_free; exact Hfree|].
    split; [reflexivity | exact Hd].
  - intros fuel r d. unfold open. rewrite Hu. simpl.
    destruct (Z.land mode ReadOnly =? 0).
    + intros E; injection E as <-. simpl. tauto.
    + destruct (isOpen p).
      * intros E; injection E as <-. simpl. tauto.
      * destruct (pickName _ _ _ _ _ _); [|discriminate].
        unfold startNextDownloader. simpl.
        destruct (downloader p) as [d0|]; simpl; rewrite Hu; simpl.
        -- destruct (isEmpty (Downloader.lastError d0)); intros E; injection E as <-; simpl;
             intros [H|[H|[]]]; discriminate.
        -- destruct (isEmpty (lastError p)); intros E; injection E as <-; simpl;
             intros [H|[]]; discriminate.
Qed.

(** [open_without_sources] on an orchestrator constructed without
    sources, in an empty documents directory. *)
Lemma open_without_sources_witness :
  uris Scenario.no_sources = []
  /\ open Scenario.env_empty 1 WriteOnly Scenario.no_sources
     = Some (Scenario.no_sources, false, [])
  /\ exists p',
      open Scenario.env_empty 1 ReadOnly Scenario.no_sources
      = Some (p', true, [QEmit q_finished])
      /\ success p' = false /\ downloader p' = None.
Proof.
  destruct (open_without_sources Scenario.env_empty WriteOnly Scenario.no_sources eq_refl)
    as (H1 & _).
  destruct (open_without_sources Scenario.env_empty ReadOnly Scenario.no_sources eq_refl)
    as (_ & _ & _ & H4 & _).
  split; [reflexivity|]. split.
  - rewrite (H1 eq_refl 1%nat). reflexivity.
  - apply (H4 ltac:(discriminate) eq_refl eq_refl eq_refl 0%nat).
Defined.

(** C4, against the claim as stated.  An orchestrator constructed without
    sources is opened for reading: the source list is empty and [open]
    returns true, whatever the bound on the name loop. *)
Lemma open_without_sources_returns_true :
  uris Scenario.no_sources = []
  /\ open Scenario.env_empty 1 ReadOnly Scenario.no_sources
     = Some (Scenario.opened Scenario.no_sources, true, [QEmit q_finished])
  /\ (forall fuel p' out,
        open Scenario.env_empty fuel ReadOnly Scenario.no_sources <> Some (p', false, out)).
Proof.
  split; [reflexivity|]. split; [reflexivity|].
  intros [|k] p' out; [discriminate|].
  vm_compute. discriminate.
Qed.

(** C5, on the code.  The payload is named [a.txt] and the documents
    directory holds [a.txt] and [a-1.txt]: the name loop of [open] has not
    finished after any number of tests, so [open] does not return. *)
Theorem open_name_selection_never_ends :
  firstName Scenario.env_taken Scenario.one_http = "a.txt"
  /\ dirExists Scenario.env_taken "a.txt" = true
  /\ numbered "a" "txt" 1 = "a-1.txt"
  /\ dirExists Scenario.env_taken "a-1.txt" = true
  /\ dirExists Scenario.env_taken "a-2.txt" = false
  /\ forall fuel, open Scenario.env_taken fuel ReadOnly Scenario.one_http = None.
Proof.
  do 5 (split; [reflexivity|]).
  intros fuel. unfold open.
  change (uris Scenario.one_http) with ["http://a.example/f"]. simpl negb.
  change (isOpen Scenario.one_http) with false. cbv iota.
  change (firstName Scenario.env_taken Scenario.one_http) with "a.txt".
  change (completeBaseName "a.txt") with "a".
  change (Qt.suffix "a.txt") with "txt".
  simpl. rewrite (pickName_spins Scenario.env_taken "a" "txt" 1 "a.txt" eq_refl eq_refl fuel).
  reflexivity.
Qed.

End Orchestrator.

(** ** The bulk-transfer adapter: the response status and the granted range *)

Section BulkTransfer.

Lemma wrap64_small (z : Z) : int64_min <= z <= int64_max -> wrap64 z = z.
Proof.
  unfold wrap64, int64_min, int64_max. intros H.
  rewrite Z.mod_small; lia.
Qed.

Lemma has_char_app (c : ascii) (a b : string) :
  has_char c (a ++ b) = has_char c a || has_char c b.
Proof.
  induction a as [|x r IH]; simpl; [reflexivity|].
  rewrite IH. destruct (Ascii.eqb x c); reflexivity.
Qed.

Lemma split_without (c : ascii) (s : string) :
  has_char c s = false -> split c s = [s].
Proof.
  induction s as [|x r IH]; simpl; [reflexivity|].
  destruct (Ascii.eqb x c); simpl; [discriminate|].
  intros H. rewrite (IH H). reflexivity.
Qed.

Lemma split_at_first (c : ascii) (a b : string) :
  has_char c a = false -> split c (a ++ String c b) = a :: split c b.
Proof.
  induction a as [|x r IH]; simpl.
  - rewrite Ascii.eqb_refl. reflexivity.
  - destruct (Ascii.eqb x c); simpl; [discriminate|].
    intros H. rewrite (IH H). reflexivity.
Qed.

(** A value [bytes S-E/T] whose fields hold no separator of an outer
    level is parsed to the start [S] stands for and the length up to and
    including the end [E] stands for; [T] is not looked at. *)
Lemma parseHttpRangeResponse_fields (S E T : string) (a b : Z) :
  has_char " " S = false -> has_char "-" S = false ->
  has_char " " E = false -> has_char "-" E = false -> has_char "/" E = false ->
  has_char " " T = false -> has_char "-" T = false ->
  toLongLong S = (a, true) -> toLongLong E = (b, true) ->
  0 <= b - a + 1 <= int64_max ->
  parseHttpRangeResponse ("bytes " ++ S ++ "-" ++ E ++ "/" ++ T) = (true, a, b - a + 1).
Proof.
  intros S1 S2 E1 E2 E3 T1 T2 HS HE Hr.
  unfold parseHttpRangeResponse.
  change ("bytes " ++ S ++ "-" ++ E ++ "/" ++ T)
    with ("bytes" ++ String " " (S ++ String "-" (E ++ String "/" T))).
  rewrite split_at_first by reflexivity.
  rewrite split_without
    by (rewrite has_char_app; simpl; rewrite has_char_app; simpl; rewrite S1, E1, T1; reflexivity).
  simpl negb. cbv iota.
  rewrite split_at_first by exact S2.
  rewrite split_without by (rewrite has_char_app; simpl; rewrite E2, T2; reflexivity).
  rewrite HS. rewrite split_at_first by exact E3.
  simpl hd. rewrite HE.
  assert (W : wrap64 (wrap64 (b - a) + 1) = b - a + 1).
  { unfold int64_max in Hr. rewrite (wrap64_small (b - a)) by (unfold int64_min, int64_max; lia).
    apply wrap64_small. unfold int64_min, int64_max. lia. }
  rewrite W. simpl negb.
  destruct (b - a + 1 <? 0) eqn:L; [apply Z.ltb_lt in L; lia | reflexivity].
Qed.

(** [toLongLong] reads back what [number] prints. *)
Lemma read_digits_uint (d : Decimal.uint) :
  forall acc seen,
    read_digits acc seen (NilEmpty.string_of_uint d)
    = (uint_value acc d, match d with Decimal.Nil => seen | _ => true end, EmptyString).
Proof.
  induction d; intros acc seen; simpl; try reflexivity;
    rewrite IHd; destruct d; reflexivity.
Qed.

Lemma uint_value_acc (d : Decimal.uint) :
  forall acc : positive, uint_value (Z.pos acc) d = Z.pos (Pos.of_uint_acc d acc).
Proof.
  induction d; intros acc; cbn [uint_value Pos.of_uint_acc]; try reflexivity;
    rewrite <- IHd; f_equal; lia.
Qed.

Lemma uint_value_of_uint (d : Decimal.uint) : uint_value 0 d = Z.of_N (Pos.of_uint d).
Proof.
  induction d; cbn [uint_value Pos.of_uint]; try reflexivity; try exact IHd;
    match goal with |- uint_value (10 * 0 + ?k) d = _ =>
      change (10 * 0 + k) with (Z.pos (Z.to_pos k)) end;
    rewrite uint_value_acc; reflexivity.
Qed.

Lemma has_char_digits (c : ascii) (d : Decimal.uint) :
  digit_val c = None -> has_char c (NilEmpty.string_of_uint d) = false.
Proof.
  intros H. induction d; cbn [NilEmpty.string_of_uint has_char]; try reflexivity;
    rewrite IHd;
    match goal with |- (Ascii.eqb ?k c || false)%bool = false =>
      destruct (Ascii.eqb k c) eqn:E;
        [apply Ascii.eqb_eq in E; subst c; discriminate | reflexivity]
    end.
Qed.

Lemma number_pos (p : positive) :
  number (Z.pos p) = NilEmpty.string_of_uint (Pos.to_uint p).
Proof.
  unfold number. simpl. pose proof (Unsigned.to_uint_nonnil p).
  destruct (Pos.to_uint p); try reflexivity. congruence.
Qed.

Lemma toLongLong_number (z : Z) :
  0 <= z <= int64_max -> toLongLong (number z) = (z, true).
Proof.
  intros [H0 H1]. destruct z as [|p|p]; [reflexivity| |lia].
  rewrite number_pos.
  pose proof (DecimalPos.Unsigned.of_to p) as R.
  pose proof (Unsigned.to_uint_nonnil p) as NN.
  pose proof (uint_value_of_uint (Pos.to_uint p)) as V. rewrite R in V. simpl in V.
  assert (I : in_int64 (Z.pos p) = true).
  { unfold in_int64, int64_min. apply andb_true_intro. split; apply Z.leb_le; lia. }
  destruct (Pos.to_uint p) as [|l|l|l|l|l|l|l|l|l|l]; [congruence| | | | | | | | | |];
    unfold toLongLong; simpl NilEmpty.string_of_uint; cbn [skip_spaces is_space];
    simpl in V |- *; rewrite read_digits_uint; simpl in V |- *; rewrite V;
    (destruct l; simpl; rewrite I; reflexivity).
Qed.

Lemma has_char_number (c : ascii) (z : Z) :
  0 <= z -> digit_val c = None -> has_char c (number z) = false.
Proof.
  intros H0 Hc.
  destruct z as [|p|p]; [|rewrite number_pos; apply has_char_digits; exact Hc|lia].
  change (number 0) with "0". cbn [has_char].
  destruct (Ascii.eqb "0" c) eqn:E;
    [apply Ascii.eqb_eq in E; subst c; discriminate | reflexivity].
Qed.

(** The header of the specification, with the numbers written out. *)
Lemma parseHttpRangeResponse_numbers (a b : Z) (T : string) :
  0 <= a -> 0 <= b -> a <= b + 1 -> b < int64_max ->
  has_char " " T = false -> has_char "-" T = false ->
  parseHttpRangeResponse ("bytes " ++ number a ++ "-" ++ number b ++ "/" ++ T)
  = (true, a, b - a + 1).
Proof.
  intros Ha Hb Hab Hmax T1 T2.
  apply parseHttpRangeResponse_fields; try assumption;
    try (apply has_char_number; [assumption | reflexivity]);
    try (apply toLongLong_number; lia).
  lia.
Qed.

(** The parser reports no range when it rejects. *)
Lemma parseHttpRangeResponse_rejects (ba : QByteArray) :
  fst (fst (parseHttpRangeResponse ba)) = false ->
  parseHttpRangeResponse ba = (false, 0, 0).
Proof.
  unfold parseHttpRangeResponse.
  destruct (split " " ba) as [|a0 [|a1 [|a2 r]]]; try reflexivity.
  destruct (negb (a0 =? "bytes")%string); [reflexivity|].
  destruct (split "-" a1) as [|b0 [|b1 [|b2 r]]]; try reflexivity.
  destruct (toLongLong b0) as [start [|]]; [|reflexivity].
  destruct (toLongLong (hd EmptyString (split "/" b1))) as [e ok2].
  destruct (negb ok2 || (wrap64 (wrap64 (e - start) + 1) <? 0)); [reflexivity|].
  simpl. discriminate.
Qed.

Lemma wrap64_range (z : Z) : int64_min <= wrap64 z <= int64_max.
Proof.
  unfold wrap64, int64_min, int64_max.
  pose proof (Z.mod_pos_bound (z + 2 ^ 63) (2 ^ 64) ltac:(lia)). lia.
Qed.

Lemma toLongLong_in_range (s : string) (v : Z) :
  toLongLong s = (v, true) -> int64_min <= v <= int64_max.
Proof.
  unfold toLongLong.
  destruct (match skip_spaces s with
            | String "-"%char r => (true, r)
            | String "+"%char r => (false, r)
            | _ => (false, skip_spaces s)
            end) as [neg s2].
  destruct (read_digits 0 false s2) as [[v0 seen] rest].
  destruct (seen && isEmpty (skip_spaces rest) && in_int64 (if neg then - v0 else v0)) eqn:E;
    [|discriminate].
  intros H. injection H as <-.
  apply andb_true_iff in E. destruct E as [_ E]. unfold in_int64 in E.
  apply andb_true_iff in E. destruct E as [E1 E2].
  apply Z.leb_le in E1, E2. lia.
Qed.

Lemma split_nonempty (c : ascii) (s : string) : split c s <> [].
Proof.
  destruct s as [|x r]; simpl; [discriminate|].
  destruct (Ascii.eqb x c); [discriminate|]. destruct (split c r); discriminate.
Qed.

Lemma split_one (c : ascii) (s b : string) :
  split c s = [b] -> s = b /\ has_char c s = false.
Proof.
  revert b. induction s as [|x r IH]; simpl; intros b H.
  - injection H as <-. auto.
  - destruct (Ascii.eqb x c) eqn:Ex.
    + injection H as _ H. exfalso. exact (split_nonempty c r H).
    + destruct (split c r) as [|h t] eqn:E; [exfalso; exact (split_nonempty c r E)|].
      injection H as <- ->. destruct (IH h eq_refl) as [-> Hc]. auto.
Qed.

Lemma split_two (c : ascii) (s a b : string) :
  split c s = [a; b] ->
  s = a ++ String c b /\ has_char c a = false /\ has_char c b = false.
Proof.
  revert a. induction s as [|x r IH]; simpl; intros a H; [discriminate|].
  destruct (Ascii.eqb x c) eqn:Ex.
  - injection H as <- H. apply split_one in H. destruct H as [-> Hc].
    apply Ascii.eqb_eq in Ex. subst x. auto.
  - destruct (split c r) as [|h t] eqn:E; [discriminate|].
    injection H as <- ->. destruct (IH h eq_refl) as (-> & H1 & H2).
    simpl. rewrite Ex. auto.
Qed.

Lemma has_char_skip_spaces (c : ascii) (s : string) :
  has_char c s = false -> has_char c (skip_spaces s) = false.
Proof.
  induction s as [|x r IH]; simpl; [reflexivity|].
  intros H. destruct (is_space x); [|exact H].
  apply orb_false_elim in H. destruct H as [_ H]. exact (IH H).
Qed.

Lemma read_digits_nonneg (s : string) :
  forall acc seen, 0 <= acc -> 0 <= fst (fst (read_digits acc seen s)).
Proof.
  induction s as [|x r IH]; intros acc seen H; cbn [read_digits]; [exact H|].
  destruct (digit_val x) as [d|] eqn:D; [|exact H].
  assert (Hd : 0 <= d).
  { unfold digit_val in D.
    destruct ((48 <=? Z.of_nat (nat_of_ascii x)) && (Z.of_nat (nat_of_ascii x) <=? 57)) eqn:E;
      [|discriminate].
    injection D as <-. apply andb_true_iff in E. destruct E as [E _].
    apply Z.leb_le in E. lia. }
  apply IH. lia.
Qed.

(** A text without a hyphen does not convert to a negative number. *)
Lemma toLongLong_nonneg (s : string) (v : Z) :
  has_char "-" s = false -> toLongLong s = (v, true) -> 0 <= v.
Proof.
  intros Hh. unfold toLongLong.
  pose proof (has_char_skip_spaces "-" s Hh) as Hs.
  set (pr := match skip_spaces s with
             | String "-"%char r => (true, r)
             | String "+"%char r => (false, r)
             | _ => (false, skip_spaces s)
             end).
  assert (Hn : fst pr = false).
  { subst pr. destruct (skip_spaces s) as [|c r]; [reflexivity|].
    cbn [has_char] in Hs. apply orb_false_elim in Hs. destruct Hs as [Hc _].
    destruct c as [[|] [|] [|] [|] [|] [|] [|] [|]]; try reflexivity;
      vm_compute in Hc; discriminate. }
  destruct pr as [neg s2]. simpl in Hn. subst neg.
  pose proof (read_digits_nonneg s2 0 false ltac:(lia)) as Hr.
  destruct (read_digits 0 false s2) as [[v0 seen] rest]. simpl in Hr.
  destruct (seen && isEmpty (skip_spaces rest) && in_int64 v0); [|discriminate].
  intros H. injection H as <-. exact Hr.
Qed.

(** The first field of [split]: the text up to the first separator. *)
Lemma split_hd (c : ascii) (s : string) :
  exists E R,
    s = E ++ R /\ hd EmptyString (split c s) = E /\ has_char c E = false
    /\ (R = EmptyString \/ exists T, R = String c T).
Proof.
  induction s as [|x r IH].
  - exists EmptyString, EmptyString. simpl. auto.
  - simpl. destruct (Ascii.eqb x c) eqn:Ex.
    + apply Ascii.eqb_eq in Ex. subst x.
      exists EmptyString, (String c r). simpl. repeat split. right. exists r. reflexivity.
    + destruct IH as (E & R & Hs & Hh & Hc & HR).
      destruct (split c r) as [|h t] eqn:Sp; [exfalso; exact (split_nonempty c r Sp)|].
      simpl in Hh. subst h. exists (String x E), R. simpl. rewrite Ex, Hc, Hs. auto.
Qed.

(** What [parseHttpRangeResponse] accepts, and what it makes of it: the
    values [bytes S-E] and [bytes S-E/T] whose parts hold no space and no
    hyphen, with [S] and [E] converting to the start and the end, and a
    length that fits a [qint64]. *)
Lemma parseHttpRangeResponse_iff (ba : QByteArray) (a k : Z) :
  parseHttpRangeResponse ba = (true, a, k) <->
  exists S E R b,
    ba = "bytes " ++ S ++ "-" ++ E ++ R
    /\ (R = EmptyString \/ exists T, R = "/" ++ T)
    /\ has_char " " S = false /\ has_char "-" S = false
    /\ has_char " " E = false /\ has_char "-" E = false /\ has_char "/" E = false
    /\ has_char " " R = false /\ has_char "-" R = false
    /\ toLongLong S = (a, true) /\ toLongLong E = (b, true)
    /\ k = b - a + 1 /\ 0 <= k <= int64_max.
Proof.
  split.
  - unfold parseHttpRangeResponse.
    destruct (split " " ba) as [|a0 [|a1 [|a2 r]]] eqn:E1; try discriminate.
    destruct (negb (a0 =? "bytes")%string) eqn:Eb; [discriminate|].
    apply negb_false_iff, String.eqb_eq in Eb. subst a0.
    destruct (split "-" a1) as [|b0 [|b1 [|b2 r]]] eqn:E2; try discriminate.
    destruct (toLongLong b0) as [start [|]] eqn:Es; [|discriminate].
    destruct (split_hd "/" b1) as (E & R & Hb1 & Hhd & HE & HR). rewrite Hhd.
    destruct (toLongLong E) as [e ok2] eqn:Ee.
    destruct ok2; [|discriminate]. simpl negb. cbv iota.
    destruct (wrap64 (wrap64 (e - start) + 1) <? 0) eqn:Ec; [discriminate|].
    intros H. injection H as <- <-. apply Z.ltb_ge in Ec.
    apply split_two in E1. destruct E1 as (-> & _ & H1).
    apply split_two in E2. destruct E2 as (-> & H2 & H3).
    subst b1.
    rewrite has_char_app in H1. cbn [has_char] in H1.
    apply orb_false_elim in H1. destruct H1 as [H1 H4].
    apply orb_false_elim in H4. destruct H4 as [_ H4].
    rewrite has_char_app in H4. apply orb_false_elim in H4. destruct H4 as [H4 H5].
    rewrite has_char_app in H3. apply orb_false_elim in H3. destruct H3 as [H3 H6].
    pose proof (toLongLong_in_range b0 start Es) as Rs.
    pose proof (toLongLong_in_range E e Ee) as Re.
    pose proof (toLongLong_nonneg b0 start H2 Es) as Ns.
    pose proof (toLongLong_nonneg E e H3 Ee) as Ne.
    assert (W1 : wrap64 (e - start) = e - start)
      by (apply wrap64_small; unfold int64_min, int64_max in *; lia).
    rewrite W1 in Ec |- *.
    assert (Hle : e - start + 1 <= int64_max).
    { destruct (Z_le_gt_dec (e - start + 1) int64_max) as [L|G]; [exact L|].
      assert (X : e - start + 1 = 2 ^ 63) by (unfold int64_max in *; lia).
      rewrite X in Ec. vm_compute in Ec. exfalso. apply Ec. reflexivity. }
    assert (W2 : wrap64 (e - start + 1) = e - start + 1)
      by (apply wrap64_small; unfold int64_min, int64_max in *; lia).
    rewrite W2 in Ec |- *.
    exists b0, E, R, e.
    split; [reflexivity|]. split.
    { destruct HR as [->|[T ->]]; [left; reflexivity | right; exists T; reflexivity]. }
    repeat split; assumption.
  - intros (S & E & R & b & -> & HR & S1 & S2 & E1 & E2 & E3 & R1 & R2 & HS & HE & -> & Hk).
    pose proof (toLongLong_in_range S a HS) as Rs.
    pose proof (toLongLong_in_range E b HE) as Re.
    unfold parseHttpRangeResponse.
    change ("bytes " ++ S ++ "-" ++ E ++ R)
      with ("bytes" ++ String " " (S ++ String "-" (E ++ R))).
    rewrite split_at_first by reflexivity.
    rewrite split_without
      by (rewrite has_char_app; cbn [has_char]; rewrite has_char_app, S1, E1, R1; reflexivity).
    simpl negb. cbv iota.
    rewrite split_at_first by exact S2.
    rewrite split_without by (rewrite has_char_app, E2, R2; reflexivity).
    rewrite HS.
    assert (Hhd : hd EmptyString (split "/" (E ++ R)) = E).
    { destruct HR as [->|[T ->]].
      - rewrite string_app_empty, split_without by exact E3. reflexivity.
      - change (E ++ "/" ++ T) with (E ++ String "/" T).
        rewrite split_at_first by exact E3. reflexivity. }
    rewrite Hhd, HE.
    assert (W : wrap64 (wrap64 (b - a) + 1) = b - a + 1).
    { rewrite (wrap64_small (b - a)) by (unfold int64_min, int64_max in *; lia).
      apply wrap64_small. unfold int64_min, int64_max in *. lia. }
    rewrite W. simpl negb.
    destruct (b - a + 1 <? 0) eqn:L; [apply Z.ltb_lt in L; lia | reflexivity].
Qed.

(** C6, as the code has it.  On a 206 with a Content-Range value the
    adapter accepts exactly the values [bytes S-E] and [bytes S-E/T] in
    which no part holds a space or a hyphen, [S] and [E] convert to the
    start and the end, and the length end-start+1 is at least 0 and fits
    a [qint64]; it then takes the range (start, end-start+1) and emits
    [metaDataChanged].  What follows the slash is not looked at beyond
    that: it may be missing or no number, but not hold a space or a
    hyphen.  With decimal numbers for start and end this is
    [bytes start-end/T] and [bytes start-end].  An empty value is no
    failure and gives the whole payload; any other value makes the
    adapter fail.
    On a 200 or a 203 the adapter does not fail and emits
    [metaDataChanged].  On any other status it fails with a text that
    carries the status. *)
Theorem nam_response_status :
  forall (n : NAM.t),
    (forall ba a k,
        parseHttpRangeResponse ba = (true, a, k) <->
        exists S E R b,
          ba = "bytes " ++ S ++ "-" ++ E ++ R
          /\ (R = EmptyString \/ exists T, R = "/" ++ T)
          /\ has_char " " S = false /\ has_char "-" S = false
          /\ has_char " " E = false /\ has_char "-" E = false /\ has_char "/" E = false
          /\ has_char " " R = false /\ has_char "-" R = false
          /\ toLongLong S = (a, true) /\ toLongLong E = (b, true)
          /\ k = b - a + 1 /\ 0 <= k <= int64_max)
    /\ (forall ba a k,
          parseHttpRangeResponse ba = (true, a, k) ->
          let n1 := NAM.with_base (Abstract.setRange a k (NAM.base n)) n in
          NAM.onReplyMetaDataChanged 206 ba n = (n1, [Emit metaDataChanged n1]))
    /\ (forall a b T,
          0 <= a -> 0 <= b -> a <= b + 1 -> b < int64_max ->
          has_char " " T = false -> has_char "-" T = false ->
          let n1 := NAM.with_base (Abstract.setRange a (b - a + 1) (NAM.base n)) n in
          NAM.onReplyMetaDataChanged 206
            ("bytes " ++ number a ++ "-" ++ number b ++ "/" ++ T) n
          = (n1, [Emit metaDataChanged n1])
          /\ NAM.onReplyMetaDataChanged 206 ("bytes " ++ number a ++ "-" ++ number b) n
             = (n1, [Emit metaDataChanged n1]))
    /\ (let n1 := NAM.with_base (Abstract.setRange 0 0 (NAM.base n)) n in
        NAM.onReplyMetaDataChanged 206 EmptyString n = (n1, [Emit metaDataChanged n1]))
    /\ (forall ba,
          ba <> EmptyString -> fst (fst (parseHttpRangeResponse ba)) = false ->
          NAM.onReplyMetaDataChanged 206 ba n
          = (NAM.with_base
               (Abstract.set_lastError "Invalid HTTP response range"
                  (Abstract.setRange 0 0 (NAM.base n))) n,
             [Call ReplyDeleteLater; SingleShot failed]))
    /\ (forall status ba,
          status = 200 \/ status = 203 ->
          exists n1,
            NAM.onReplyMetaDataChanged status ba n = (n1, [Emit metaDataChanged n1])
            /\ Abstract._lastError (NAM.base n1) = Abstract._lastError (NAM.base n)
            /\ NAM.reply n1 = NAM.reply n)
    /\ (forall status ba,
          status <> 206 -> status <> 200 -> status <> 203 ->
          NAM.onReplyMetaDataChanged status ba n
          = (NAM.with_base
               (Abstract.set_lastError ("Unexpected HTTP status: " ++ number status)
                  (Abstract.setRange 0 0 (NAM.base n))) n,
             [Call ReplyDeleteLater; SingleShot failed])).
Proof.
  intros n. split; [|split; [|split; [|split; [|split; [|split]]]]].
  - intros ba a k. apply parseHttpRangeResponse_iff.
  - intros ba a k H n1.
    unfold NAM.onReplyMetaDataChanged. simpl (206 =? 206). cbv iota.
    rewrite H. destruct (negb (size ba =? 0)); reflexivity.
  - intros a b T Ha Hb Hab Hmax T1 T2 n1. split.
    + unfold NAM.onReplyMetaDataChanged. simpl (206 =? 206). cbv iota.
      rewrite (parseHttpRangeResponse_numbers a b T) by assumption.
      destruct (negb (size _ =? 0)); reflexivity.
    + assert (P : parseHttpRangeResponse ("bytes " ++ number a ++ "-" ++ number b)
                  = (true, a, b - a + 1)).
      { apply parseHttpRangeResponse_iff.
        exists (number a), (number b), EmptyString, b.
        rewrite string_app_empty.
        split; [reflexivity|]. split; [left; reflexivity|].
        do 5 (split; [apply has_char_number; [assumption | reflexivity]|]).
        do 2 (split; [reflexivity|]).
        split; [apply toLongLong_number; lia|].
        split; [apply toLongLong_number; lia|].
        split; [reflexivity | lia]. }
      unfold NAM.onReplyMetaDataChanged. simpl (206 =? 206). cbv iota.
      rewrite P. destruct (negb (size _ =? 0)); reflexivity.
  - reflexivity.
  - intros ba Hne Hrej.
    unfold NAM.onReplyMetaDataChanged. simpl (206 =? 206). cbv iota.
    rewrite (parseHttpRangeResponse_rejects ba Hrej).
    assert (Hs : (size ba =? 0) = false).
    { apply Z.eqb_neq. intros H. apply Hne. destruct ba; [reflexivity|].
      unfold size in H. simpl in H. lia. }
    rewrite Hs. reflexivity.
  - intros status ba [-> | ->]; exists n; repeat split.
  - intros status ba H1 H2 H3.
    unfold NAM.onReplyMetaDataChanged.
    apply Z.eqb_neq in H1, H2, H3. rewrite H1, H2, H3. reflexivity.
Qed.

(** [nam_response_status] on an adapter that asked for the first 1000
    bytes: a granted range with and without the total, an empty header,
    three rejected headers (no number for the end, a space and a hyphen
    in the total), a 200 and a 404. *)
Lemma nam_response_status_witness :
  let n := fst (NAM.start Scenario.reply_running
                  (NAM.with_base (Abstract.setRange 0 1000 (Abstract.make "http://a.example/f"))
                     (Scenario.nam "http://a.example/f"))) in
  Abstract.range (NAM.base (fst (NAM.onReplyMetaDataChanged 206 "bytes 100-999/1000" n)))
  = (100, 900)
  /\ Abstract.range (NAM.base (fst (NAM.onReplyMetaDataChanged 206 "bytes 100-999" n)))
     = (100, 900)
  /\ Abstract.range (NAM.base (fst (NAM.onReplyMetaDataChanged 206 "bytes 0-999/unknown" n)))
     = (0, 1000)
  /\ Abstract.range (NAM.base (fst (NAM.onReplyMetaDataChanged 206 EmptyString n))) = (0, 0)
  /\ snd (NAM.onReplyMetaDataChanged 206 "bytes 100-x/1000" n)
     = [Call ReplyDeleteLater; SingleShot failed]
  /\ snd (NAM.onReplyMetaDataChanged 206 "bytes 0-999/1 000" n)
     = [Call ReplyDeleteLater; SingleShot failed]
  /\ snd (NAM.onReplyMetaDataChanged 206 "bytes 0-999/10-00" n)
     = [Call ReplyDeleteLater; SingleShot failed]
  /\ (exists n1, NAM.onReplyMetaDataChanged 200 EmptyString n = (n1, [Emit metaDataChanged n1]))
  /\ Abstract._lastError (NAM.base (fst (NAM.onReplyMetaDataChanged 404 EmptyString n)))
     = "Unexpected HTTP status: 404".
Proof.
  intros n.
  destruct (nam_response_status n) as (_ & H0 & H1 & H2 & H3 & H4 & H5).
  split.
  { pose proof (H1 100 999 "1000" ltac:(lia) ltac:(lia) ltac:(lia)
                    ltac:(unfold int64_max; lia) eq_refl eq_refl) as [E _].
    change ("bytes " ++ number 100 ++ "-" ++ number 999 ++ "/" ++ "1000")
      with "bytes 100-999/1000" in E.
    cbv zeta in E. rewrite E. reflexivity. }
  split.
  { pose proof (H1 100 999 "1000" ltac:(lia) ltac:(lia) ltac:(lia)
                    ltac:(unfold int64_max; lia) eq_refl eq_refl) as [_ E].
    change ("bytes " ++ number 100 ++ "-" ++ number 999)
      with "bytes 100-999" in E.
    cbv zeta in E. rewrite E. reflexivity. }
  split.
  { pose proof (H0 "bytes 0-999/unknown" 0 1000 eq_refl) as E.
    cbv zeta in E. rewrite E. reflexivity. }
  split.
  { rewrite H2. reflexivity. }
  split.
  { rewrite (H3 "bytes 100-x/1000" ltac:(discriminate) eq_refl). reflexivity. }
  split.
  { rewrite (H3 "bytes 0-999/1 000" ltac:(discriminate) eq_refl). reflexivity. }
  split.
  { rewrite (H3 "bytes 0-999/10-00" ltac:(discriminate) eq_refl). reflexivity. }
  split.
  { destruct (H4 200 EmptyString (or_introl eq_refl)) as (n1 & E & _).
    exists n1. exact E. }
  rewrite (H5 404 EmptyString ltac:(discriminate) ltac:(discriminate) ltac:(discriminate)).
  reflexivity.
Defined.

(** C6, against the claim as stated.  On a 206, a Content-Range value
    without the total, and one with text for the total, are not of the
    form the specification gives, and an empty value is not either; the
    adapter does not fail on any of them and emits [metaDataChanged].
    And on a 200 an adapter that asked for 512 bytes from offset 100 still
    reports that range at [metaDataChanged]. *)
Lemma malformed_content_range_accepted :
  let n := fst (NAM.start Scenario.reply_running (Scenario.nam "http://a.example/f")) in
  spec_content_range "bytes 0-999/1000" = true
  /\ spec_content_range "bytes 0-999" = false
  /\ (let n1 := NAM.with_base (Abstract.setRange 0 1000 (NAM.base n)) n in
      NAM.onReplyMetaDataChanged 206 "bytes 0-999" n = (n1, [Emit metaDataChanged n1]))
  /\ spec_content_range "bytes 0-999/unknown" = false
  /\ (let n1 := NAM.with_base (Abstract.setRange 0 1000 (NAM.base n)) n in
      NAM.onReplyMetaDataChanged 206 "bytes 0-999/unknown" n
      = (n1, [Emit metaDataChanged n1]))
  /\ spec_content_range EmptyString = false
  /\ (let n1 := NAM.with_base (Abstract.setRange 0 0 (NAM.base n)) n in
      NAM.onReplyMetaDataChanged 206 EmptyString n = (n1, [Emit metaDataChanged n1]))
  /\ (let r := NAM.with_base (Abstract.setRange 100 512 (NAM.base n)) n in
      NAM.onReplyMetaDataChanged 200 EmptyString r = (r, [Emit metaDataChanged r])
      /\ Abstract.range (NAM.base r) = (100, 512)
      /\ Abstract.isRanged (NAM.base r) = true).
Proof.
  cbv zeta. repeat split.
Qed.

End BulkTransfer.

(** ** The inline-blob adapter *)

Section InlineBlob.

Lemma isRanged_false (a : Abstract.t) :
  Abstract.isRanged a = false -> Abstract.range a = (0, 0).
Proof.
  unfold Abstract.isRanged, Abstract.range. intros H.
  apply orb_false_elim in H. destruct H as [H1 H2].
  apply negb_false_iff in H1, H2. apply Z.eqb_eq in H1, H2.
  rewrite H1, H2. reflexivity.
Qed.

(** The metadata slot of the orchestrator takes the range the adapter
    reports at that moment. *)
Lemma onMetaDataChanged_range (p : FileShareDownloader.Private) (d : Downloader) :
  FileShareDownloader.downloader p = Some d ->
  FileShareDownloader.range (fst (FileShareDownloader.onMetaDataChanged None p))
  = Downloader.range d.
Proof.
  intros E. unfold FileShareDownloader.onMetaDataChanged. rewrite E.
  destruct (Downloader.range d). reflexivity.
Qed.

(** C7.  Whatever range was set on the adapter, when the fetch succeeds
    (and the adapter was not aborted meanwhile) the callback emits
    [metaDataChanged] and then [disconnected] and nothing else; at
    [metaDataChanged] the adapter holds the whole object, is connected and
    reports the range (0, 0), which is the range the orchestrator takes
    in its slot; at [disconnected] it is no longer connected. *)
Theorem bob_fetch_discards_range :
  forall (b : BOB.t) (offset length : Z) (data : QByteArray),
    BOB.destroyed b = false ->
    let b0 := BOB.with_base (Abstract.setRange offset length (BOB.base b)) b in
    exists bm bd,
      BOB.onLoaded true data b0 = (bd, [Emit metaDataChanged bm; Emit disconnected bd])
      /\ Abstract.range (BOB.base bm) = (0, 0)
      /\ BOB.receivedData bm = data
      /\ BOB.isConnected bm = true
      /\ Abstract.range (BOB.base bd) = (0, 0)
      /\ BOB.receivedData bd = data
      /\ BOB.isConnected bd = false
      /\ (forall p,
            FileShareDownloader.downloader p = Some (D_BOB bm) ->
            FileShareDownloader.range
              (fst (FileShareDownloader.onMetaDataChanged None p)) = (0, 0)).
Proof.
  intros b offset length data Hd b0.
  unfold BOB.onLoaded. subst b0. simpl. rewrite Hd. simpl.
  destruct (Abstract.isRanged
              (Abstract.setRange offset length (BOB.base b))) eqn:R.
  - eexists. eexists. split; [reflexivity|]. simpl.
    do 6 (split; [reflexivity|]).
    intros p Ep. rewrite (onMetaDataChanged_range p _ Ep). reflexivity.
  - pose proof (isRanged_false _ R) as H0.
    eexists. eexists. split; [reflexivity|]. simpl.
    split; [exact H0|]. do 2 (split; [reflexivity|]). split; [exact H0|].
    do 2 (split; [reflexivity|]).
    intros p Ep. rewrite (onMetaDataChanged_range p _ Ep). exact H0.
Qed.

(** [bob_fetch_discards_range] for a request of 512 bytes from offset
    100. *)
Lemma bob_fetch_discards_range_witness :
  BOB.destroyed Scenario.bob_adapter = false
  /\ exists bm bd,
      BOB.onLoaded true "0123456789"
        (BOB.with_base (Abstract.setRange 100 512 (BOB.base Scenario.bob_adapter))
           Scenario.bob_adapter)
      = (bd, [Emit metaDataChanged bm; Emit disconnected bd])
      /\ Abstract.range (BOB.base bm) = (0, 0).
Proof.
  split; [reflexivity|].
  destruct (bob_fetch_discards_range Scenario.bob_adapter 100 512 "0123456789" eq_refl)
    as (bm & bd & E & R & _).
  exists bm, bd. split; [exact E | exact R].
Defined.

(** What [selectOnlineJid] returns is the null identity or a candidate
    that is not the local identity and has its resource on line. *)
Lemma selectOnlineJid_reachable (acc : PsiAccount) (js : list Jid) :
  Abstract.selectOnlineJid acc js = nullJid
  \/ (In (Abstract.selectOnlineJid acc js) js
      /\ Jid_eqb (Abstract.selectOnlineJid acc js) (client_jid acc) = false
      /\ Abstract.hasResource acc (Abstract.selectOnlineJid acc js) = true).
Proof.
  induction js as [|j r IH]; simpl; [left; reflexivity|].
  destruct (Jid_eqb j (client_jid acc)) eqn:Es.
  - destruct IH as [IH | (I1 & I2 & I3)]; [left; exact IH | right; auto].
  - destruct (Abstract.hasResource acc j) eqn:Eh.
    + right. auto.
    + destruct IH as [IH | (I1 & I2 & I3)]; [left; exact IH | right; auto].
Qed.

(** Without a reachable candidate [start] asks nothing of the
    small-object service and leaves [failed] to the timer; otherwise it
    asks the first candidate of the list for the identifier that follows
    the first four characters of the source. *)
Lemma bob_start_cases (acc : PsiAccount) (b : BOB.t) :
  (jid_valid (Abstract.selectOnlineJid acc (BOB.jids b)) = false ->
     BOB.start acc b
     = (BOB.with_base (Abstract.set_lastError BOB.offline_text (BOB.base b)) b,
        [SingleShot failed]))
  /\ (jid_valid (Abstract.selectOnlineJid acc (BOB.jids b)) = true ->
     BOB.start acc b
     = (b, [Call (LoadBob (hd nullJid (BOB.jids b))
                    (mid 4 (Abstract.sourceUri (BOB.base b))))])).
Proof.
  unfold BOB.start. split; intros H; rewrite H; reflexivity.
Qed.

(** C8, on the code.  Alice, first on the candidate list, has no resource
    on line; Bob, second, has.  [selectOnlineJid] resolves Bob, and
    [start] sends the request for the object to Alice. *)
Theorem bob_request_goes_to_first_candidate :
  BOB.jids Scenario.bob_adapter = [Scenario.alice; Scenario.bob]
  /\ Abstract.hasResource Scenario.account Scenario.alice = false
  /\ Abstract.hasResource Scenario.account Scenario.bob = true
  /\ Abstract.selectOnlineJid Scenario.account (BOB.jids Scenario.bob_adapter)
     = Scenario.bob
  /\ BOB.start Scenario.account Scenario.bob_adapter
     = (Scenario.bob_adapter,
        [Call (LoadBob Scenario.alice
                 "sha1+8f35fef110ffc5df08d579a50083ff9308fb6242@bob.xmpp.org")])
  /\ Scenario.alice <> Scenario.bob.
Proof.
  do 5 (split; [reflexivity|]). discriminate.
Qed.

End InlineBlob.

(** ** The shareable item: publishing a published item *)

Section Publish.

Import FileSharingItem.

(** With both flags set, neither branch of [publish] is taken. *)
Lemma publish_flags_set (fl : FlagBits) (env : Env) (i : t) :
  Z.land (_flags i) (HttpFinished fl) <> 0 ->
  Z.land (_flags i) (JingleFinished fl) <> 0 ->
  publish fl env i
  = if FileType_eqb (_fileType i) RemoteFile then None else Some (i, []).
Proof.
  intros Hh Hj. unfold publish.
  destruct (FileType_eqb (_fileType i) RemoteFile); [reflexivity|].
  apply Z.eqb_neq in Hh, Hj. rewrite Hh. cbv iota beta. rewrite Hj. reflexivity.
Qed.

(** C9.  When both the flag of the bulk upload and the flag of the peer
    transfer are set, [publish] leaves the item as it is and does nothing
    outside it: no upload, no change of the source list, no cache write
    and no notification.  (On a remote item it stops at its assertion.) *)
Theorem publish_again_does_nothing :
  forall (fl : FlagBits) (env : Env) (i : t),
    Z.land (_flags i) (HttpFinished fl) <> 0 ->
    Z.land (_flags i) (JingleFinished fl) <> 0 ->
    publish fl env i
    = if FileType_eqb (_fileType i) RemoteFile then None else Some (i, []).
Proof.
  intros fl env i. apply publish_flags_set.
Qed.

(** [publish_again_does_nothing] on an item published once: the first
    call moves the file to the cache and notifies, the second does
    nothing. *)
Lemma publish_again_witness :
  publish Scenario.bits Scenario.no_upload Scenario.blob_item
  = Some (Scenario.published_item,
          [MoveToCache (_sums Scenario.blob_item) "/tmp/psi-Ab12Cd.png"
             [("type", V_string "image/png")] TEMP_TTL;
           Emit_publishFinished])
  /\ Z.land (_flags Scenario.published_item) (HttpFinished Scenario.bits) <> 0
  /\ Z.land (_flags Scenario.published_item) (JingleFinished Scenario.bits) <> 0
  /\ publish Scenario.bits Scenario.no_upload Scenario.published_item
     = Some (Scenario.published_item, []).
Proof.
  split; [reflexivity|].
  split; [discriminate|].
  split; [discriminate|].
  exact (publish_again_does_nothing Scenario.bits Scenario.no_upload
           Scenario.published_item ltac:(discriminate) ltac:(discriminate)).
Defined.

Lemma land_lor_keep (f x h : Z) : Z.land f h <> 0 -> Z.land (Z.lor f x) h <> 0.
Proof.
  intros H E. rewrite Z.land_lor_distr_l in E.
  apply Z.lor_eq_0_iff in E. tauto.
Qed.

Lemma land_lor_self (f h : Z) : h <> 0 -> Z.land (Z.lor f h) h <> 0.
Proof.
  intros H E. rewrite Z.land_lor_distr_l, Z.land_diag in E.
  apply Z.lor_eq_0_iff in E. tauto.
Qed.

Lemma checkFinished_keeps (fl : FlagBits) (env : Env) (i : t) (h : Z) :
  Z.land (_flags i) h <> 0 ->
  Z.land (_flags (fst (checkFinished fl env i))) h <> 0.
Proof.
  intros H. unfold checkFinished.
  destruct ((Z.land (_flags i) (PublishNotified fl) =? 0)
            && (Z.land (_flags i) (Z.lor (HttpFinished fl) (JingleFinished fl))
                =? Z.lor (HttpFinished fl) (JingleFinished fl))); [|exact H].
  destruct (FileType_eqb (_fileType i) TempFile); simpl; apply land_lor_keep; exact H.
Qed.

Lemma checkFinished_not_remote (fl : FlagBits) (env : Env) (i : t) :
  FileType_eqb (_fileType i) RemoteFile = false ->
  FileType_eqb (_fileType (fst (checkFinished fl env i))) RemoteFile = false.
Proof.
  intros H. unfold checkFinished.
  destruct ((Z.land (_flags i) (PublishNotified fl) =? 0)
            && (Z.land (_flags i) (Z.lor (HttpFinished fl) (JingleFinished fl))
                =? Z.lor (HttpFinished fl) (JingleFinished fl))); [|exact H].
  destruct (FileType_eqb (_fileType i) TempFile); simpl; [reflexivity | exact H].
Qed.

(** With the upload service known absent, a first [publish] sets both
    flags, so that a second one changes nothing and stays silent. *)
Lemma publish_twice (fl : FlagBits) (env : Env) (i i1 : t) (e1 : list Eff) :
  HttpFinished fl <> 0 -> JingleFinished fl <> 0 ->
  discoNotFound env = true ->
  publish fl env i = Some (i1, e1) ->
  publish fl env i1 = Some (i1, []).
Proof.
  intros Hh Hj Hd Hp.
  assert (Hflags : Z.land (_flags i1) (HttpFinished fl) <> 0
                   /\ Z.land (_flags i1) (JingleFinished fl) <> 0
                   /\ FileType_eqb (_fileType i1) RemoteFile = false).
  { unfold publish in Hp.
    destruct (FileType_eqb (_fileType i) RemoteFile) eqn:Er; [discriminate|].
    rewrite Hd in Hp.
    set (ia := if Z.land (_flags i) (HttpFinished fl) =? 0
               then checkFinished fl env (set_flags (Z.lor (_flags i) (HttpFinished fl)) i)
               else (i, [])) in Hp.
    assert (Ha : Z.land (_flags (fst ia)) (HttpFinished fl) <> 0
                 /\ FileType_eqb (_fileType (fst ia)) RemoteFile = false).
    { subst ia. destruct (Z.land (_flags i) (HttpFinished fl) =? 0) eqn:E0.
      - split; [apply checkFinished_keeps; simpl; apply land_lor_self; exact Hh
               | apply checkFinished_not_remote; exact Er].
      - simpl. apply Z.eqb_neq in E0. split; [exact E0 | exact Er]. }
    destruct ia as [ia ea]. simpl in Ha. destruct Ha as [Ha1 Ha2].
    destruct (Z.land (_flags ia) (JingleFinished fl) =? 0) eqn:E1.
    - destruct (checkFinished fl env (set_flags (Z.lor (_flags ia) (JingleFinished fl)) ia))
        as [ib eb] eqn:Eb.
      injection Hp as <- _.
      pose proof (checkFinished_keeps fl env
                    (set_flags (Z.lor (_flags ia) (JingleFinished fl)) ia)) as K.
      pose proof (checkFinished_not_remote fl env
                    (set_flags (Z.lor (_flags ia) (JingleFinished fl)) ia) Ha2) as N.
      rewrite Eb in K, N. simpl in K, N.
      repeat split.
      + apply K. apply land_lor_keep. exact Ha1.
      + apply K. apply land_lor_self. exact Hj.
      + exact N.
    - injection Hp as <- _. apply Z.eqb_neq in E1. repeat split; assumption. }
  destruct Hflags as (F1 & F2 & F3).
  rewrite (publish_flags_set fl env i1 F1 F2), F3. reflexivity.
Qed.

End Publish.

(** ** Ranked source lists *)

Section Ranking.

Import Sources.

Variable rank : SourceType -> Z.

Lemma insertMulti_perm (k : Z) (v : QString) (m : list (Z * QString)) :
  Permutation (insertMulti k v m) ((k, v) :: m).
Proof.
  induction m as [|[k' v'] r IH]; simpl; [reflexivity|].
  destruct (k <=? k'); [reflexivity|].
  rewrite IH. apply perm_swap.
Qed.

Lemma insertMulti_ascending (k : Z) (v : QString) (m : list (Z * QString)) :
  ascending m -> ascending (insertMulti k v m).
Proof.
  unfold ascending. induction m as [|[k' v'] r IH]; simpl; intros H.
  - constructor; constructor.
  - destruct (k <=? k') eqn:E.
    + apply Z.leb_le in E. constructor; [exact H|].
      inversion H; subst. constructor; [exact E|].
      eapply Forall_impl; [|eassumption]. simpl. intros a Ha. lia.
    + apply Z.leb_gt in E. inversion H; subst.
      constructor; [apply IH; assumption|].
      eapply Permutation_Forall; [symmetry; apply insertMulti_perm|].
      constructor; [simpl; lia | assumption].
Qed.

Lemma add_keyed (m : list (Z * QString)) (u : QString) : keyed rank m -> keyed rank (add rank m u).
Proof.
  unfold add, keyed. intros H.
  destruct (SourceType_eqb (sourceType u) ST_None) eqn:E; [exact H|].
  eapply Permutation_Forall; [symmetry; apply insertMulti_perm|].
  constructor; [|exact H]. simpl. split; [reflexivity|].
  unfold knownb. rewrite E. reflexivity.
Qed.

Lemma add_ascending (m : list (Z * QString)) (u : QString) :
  ascending m -> ascending (add rank m u).
Proof.
  unfold add. intros H.
  destruct (SourceType_eqb (sourceType u) ST_None); [exact H|].
  apply insertMulti_ascending. exact H.
Qed.

Lemma add_perm (m : list (Z * QString)) (u : QString) :
  Permutation (map snd (add rank m u)) ((if knownb u then [u] else []) ++ map snd m).
Proof.
  unfold add, knownb.
  destruct (SourceType_eqb (sourceType u) ST_None); simpl; [reflexivity|].
  apply (Permutation_map snd (insertMulti_perm _ u m)).
Qed.

Lemma fold_add_facts (l : QStringList) :
  forall m, keyed rank m -> ascending m ->
    keyed rank (fold_left (add rank) l m) /\ ascending (fold_left (add rank) l m)
    /\ Permutation (map snd (fold_left (add rank) l m)) (filter knownb l ++ map snd m).
Proof.
  induction l as [|u l IH]; simpl; intros m K A.
  - repeat split; try assumption. reflexivity.
  - destruct (IH (add rank m u) (add_keyed m u K) (add_ascending m u A)) as (K' & A' & P').
    repeat split; try assumption.
    rewrite P', add_perm. destruct (knownb u); simpl.
    + symmetry. apply Permutation_middle.
    + reflexivity.
Qed.

Lemma sort_unfold (l : QStringList) :
  sortSourcesByPriority rank l = map snd (fold_left (add rank) l []).
Proof. reflexivity. Qed.

(** X1.  [sortSourcesByPriority] keeps every source of a known kind, as
    often as it was given, and nothing else: its result is a rearrangement
    of the known sources of its argument. *)
Theorem sortSourcesByPriority_permutation (l : QStringList) :
  Permutation (sortSourcesByPriority rank l) (filter knownb l).
Proof.
  rewrite sort_unfold.
  destruct (fold_add_facts l [] (Forall_nil _) (SSorted_nil _)) as (_ & _ & P).
  rewrite P. simpl. rewrite app_nil_r. reflexivity.
Qed.

Lemma keyed_ascending_sorted (m : list (Z * QString)) :
  keyed rank m -> ascending m ->
  StronglySorted (fun a b => rank_of rank a <= rank_of rank b) (map snd m).
Proof.
  unfold keyed, ascending. induction m as [|[k v] r IH]; simpl; intros K A.
  - constructor.
  - inversion K; subst. inversion A; subst. simpl in *.
    constructor; [apply IH; assumption|].
    apply Forall_map.
    rewrite Forall_forall in *. intros [k' v'] Hin. simpl.
    destruct H1 as [Hk _]. destruct (H2 _ Hin) as [Hk' _]. simpl in *.
    specialize (H4 _ Hin). simpl in H4. lia.
Qed.

(** X2.  The result of [sortSourcesByPriority] is in ascending priority:
    every source is followed by sources of the same or a higher priority
    only. *)
Theorem sortSourcesByPriority_ascending (l : QStringList) :
  StronglySorted (fun a b => rank_of rank a <= rank_of rank b)
                 (sortSourcesByPriority rank l).
Proof.
  rewrite sort_unfold.
  destruct (fold_add_facts l [] (Forall_nil _) (SSorted_nil _)) as (K & A & _).
  apply keyed_ascending_sorted; assumption.
Qed.


Lemma insertMulti_at_rank (k' : Z) (v : QString) (m : list (Z * QString)) :
  keyed rank m ->
  filter (at_rank rank k') (map snd (insertMulti (rank_of rank v) v m))
  = ((if at_rank rank k' v then [v] else []) ++ filter (at_rank rank k') (map snd m))%list.
Proof.
  unfold keyed. induction m as [|[k1 v1] r IH]; simpl; intros K.
  - destruct (at_rank rank k' v); reflexivity.
  - inversion K as [|? ? [Hk _] Kr]; subst. simpl in Hk.
    destruct (rank_of rank v <=? k1) eqn:E; simpl.
    + destruct (at_rank rank k' v); reflexivity.
    + rewrite (IH Kr). apply Z.leb_gt in E.
      unfold at_rank in *.
      destruct (rank_of rank v =? k') eqn:Ev; simpl; [|reflexivity].
      apply Z.eqb_eq in Ev.
      destruct (rank_of rank v1 =? k') eqn:E1; [apply Z.eqb_eq in E1; lia | reflexivity].
Qed.

Lemma fold_add_at_rank (k : Z) (l : QStringList) :
  forall m, keyed rank m ->
    filter (at_rank rank k) (map snd (fold_left (add rank) l m))
    = (rev (filter (fun u => knownb u && at_rank rank k u) l)
       ++ filter (at_rank rank k) (map snd m))%list.
Proof.
  induction l as [|u l IH]; simpl; intros m K; [reflexivity|].
  rewrite (IH (add rank m u) (add_keyed m u K)).
  unfold add at 1. unfold knownb at 2.
  destruct (SourceType_eqb (sourceType u) ST_None); simpl; [reflexivity|].
  change (rank (sourceType u)) with (rank_of rank u).
  rewrite (insertMulti_at_rank k u m K).
  destruct (at_rank rank k u); simpl; [|reflexivity].
  rewrite <- app_assoc. reflexivity.
Qed.

(** X3.  Sources of one priority come out of [sortSourcesByPriority] in
    the reverse of the order they were given in. *)
Theorem sortSourcesByPriority_same_rank (k : Z) (l : QStringList) :
  filter (at_rank rank k) (sortSourcesByPriority rank l)
  = rev (filter (fun u => knownb u && at_rank rank k u) l).
Proof.
  rewrite sort_unfold, (fold_add_at_rank k l [] (Forall_nil _)).
  simpl. apply app_nil_r.
Qed.

Lemma fold_add_rev_sorted (s : QStringList) :
  Forall (fun u => knownb u = true) s ->
  StronglySorted (fun a b => rank_of rank a <= rank_of rank b) s ->
  fold_left (add rank) (rev s) [] = map (fun u => (rank_of rank u, u)) s.
Proof.
  induction s as [|a s IH]; intros K S; [reflexivity|].
  inversion K; subst. inversion S; subst.
  simpl rev. rewrite fold_left_app.
  transitivity (add rank (map (fun u => (rank_of rank u, u)) s) a);
    [exact (f_equal (fun m => add rank m a) (IH ltac:(assumption) ltac:(assumption)))|].
  cbn [map]. unfold add. unfold knownb in H1. apply negb_true_iff in H1. rewrite H1.
  destruct s as [|b s]; simpl; [reflexivity|].
  inversion H4; subst. unfold rank_of in *.
  destruct (rank (sourceType a) <=? rank (sourceType b)) eqn:E; [reflexivity|].
  apply Z.leb_gt in E. lia.
Qed.

Lemma sort_known (l : QStringList) :
  Forall (fun u => knownb u = true) (sortSourcesByPriority rank l).
Proof.
  eapply Permutation_Forall; [symmetry; apply sortSourcesByPriority_permutation|].
  apply Forall_forall. intros u H. apply filter_In in H. tauto.
Qed.

(** X4.  Reversing a ranked list and ranking it again gives the ranked
    list back: sender and receiver of a descriptor work with the same
    list. *)
Theorem sortSourcesByPriority_reversed (l : QStringList) :
  sortSourcesByPriority rank (rev (sortSourcesByPriority rank l))
  = sortSourcesByPriority rank l.
Proof.
  rewrite (sort_unfold (rev _)).
  rewrite fold_add_rev_sorted;
    [| apply sort_known | apply sortSourcesByPriority_ascending].
  rewrite map_map. simpl. apply map_id.
Qed.

Lemma sorted_last_max (s : QStringList) (v : QString) :
  StronglySorted (fun a b => rank_of rank a <= rank_of rank b) s ->
  In v s -> rank_of rank v <= rank_of rank (last s EmptyString).
Proof.
  induction s as [|a s IH]; simpl; intros S H; [contradiction|].
  inversion S; subst.
  destruct s as [|b s]; [destruct H as [<-|[]]; lia|].
  destruct H as [<-|H]; [|apply IH; assumption].
  rewrite Forall_forall in H3. apply H3.
  clear. generalize b. induction s as [|c s IH]; intros b0; simpl; [left; reflexivity|].
  right. apply IH.
Qed.

(** X5.  When [simpleSource] returns a URL, it is one of the sources of
    the item, its kind is HTTP or FTP, it is the last source of the ranked
    list (the one a download tries first) and no known source of the item
    has a higher priority. *)
Theorem simpleSource_url (l : QStringList) (u : QString) :
  simpleSource rank l = Url u ->
  In u l
  /\ (sourceType u = ST_HTTP \/ sourceType u = ST_FTP)
  /\ u = last (sortSourcesByPriority rank l) EmptyString
  /\ (forall v, In v l -> knownb v = true -> rank_of rank v <= rank_of rank u).
Proof.
  unfold simpleSource. intros H.
  destruct (sortSourcesByPriority rank l) as [|a s] eqn:E; [discriminate|].
  rewrite <- E in *.
  set (x := last (sortSourcesByPriority rank l) EmptyString) in *.
  assert (Hin : In x (sortSourcesByPriority rank l)).
  { subst x. rewrite E. clear. generalize a. induction s as [|c s IH]; intros a0; simpl;
      [left; reflexivity | right; apply IH]. }
  destruct (SourceType_eqb (sourceType x) ST_HTTP || SourceType_eqb (sourceType x) ST_FTP) eqn:T;
    [|discriminate].
  injection H as <-.
  split; [|split; [|split; [reflexivity|]]].
  - apply (Permutation_in _ (sortSourcesByPriority_permutation l)) in Hin.
    apply filter_In in Hin. tauto.
  - destruct (sourceType x); simpl in T; try discriminate; auto.
  - intros v Hv Kv. apply sorted_last_max; [apply sortSourcesByPriority_ascending|].
    apply (Permutation_in _ (Permutation_sym (sortSourcesByPriority_permutation l))).
    apply filter_In. split; assumption.
Qed.

Lemma last_rev_hd {A : Type} (l : list A) (d : A) : last (rev l) d = hd d l.
Proof.
  destruct l as [|a l]; [reflexivity|]. simpl. apply last_snoc.
Qed.

(** X6.  The source list [toReference] advertises is never empty; it
    holds the known sources of the item and the peer-transfer source of
    the local account, highest priority first; and an orchestrator
    constructed from it works on that list reversed, so that the source it
    pops first is the first one advertised. *)
Theorem referenceSources_worklist (selfBare : QString) (resources : list QString)
    (uris adv : QStringList) (sums : list FileShareDownloader.Hash)
    (file : FileShareDownloader.File) (jids : list Jid) :
  referenceSources rank selfBare resources uris = Some adv ->
  adv <> []
  /\ (forall v, In v adv <->
        knownb v = true
        /\ (In v uris
            \/ v = "xmpp:" ++ withResource selfBare (hd EmptyString resources) ++ "?jingle-ft"))
  /\ (forall v, In v adv -> rank_of rank v <= rank_of rank (hd EmptyString adv))
  /\ FileShareDownloader.uris (FileShareDownloader.make rank sums file jids adv) = rev adv
  /\ last (FileShareDownloader.uris (FileShareDownloader.make rank sums file jids adv))
          EmptyString
     = hd EmptyString adv.
Proof.
  unfold referenceSources. destruct resources as [|r0 rs]; [discriminate|].
  intros H. cbn [hd].
  set (self := "xmpp:" ++ withResource selfBare r0 ++ "?jingle-ft").
  set (l := (uris ++ [self])%list).
  assert (E : adv = rev (sortSourcesByPriority rank l))
    by (injection H as <-; reflexivity).
  subst adv. clear H.
  assert (Hmem : forall v, In v (rev (sortSourcesByPriority rank l)) <->
                           knownb v = true /\ (In v uris \/ v = self)).
  { intros v. rewrite <- in_rev. split.
    - intros H. apply (Permutation_in _ (sortSourcesByPriority_permutation l)) in H.
      apply filter_In in H. destruct H as [H K]. split; [exact K|].
      subst l. apply in_app_or in H. destruct H as [H|[H|[]]]; auto.
    - intros [K H].
      apply (Permutation_in _ (Permutation_sym (sortSourcesByPriority_permutation l))).
      apply filter_In. split; [|exact K].
      subst l. apply in_or_app. destruct H as [H|H]; [left; exact H | right; left; auto]. }
  assert (Hself : In self (rev (sortSourcesByPriority rank l))).
  { apply Hmem. split; [reflexivity | right; reflexivity]. }
  split; [intros E; rewrite E in Hself; exact Hself|].
  split; [exact Hmem|].
  split.
  { intros v Hv. rewrite <- last_rev_hd, rev_involutive.
    apply sorted_last_max; [apply sortSourcesByPriority_ascending | apply in_rev; exact Hv]. }
  unfold FileShareDownloader.make. cbn [FileShareDownloader.uris].
  rewrite sortSourcesByPriority_reversed, rev_involutive.
  split; [reflexivity|].
  rewrite <- (rev_involutive (sortSourcesByPriority rank l)) at 1.
  apply last_rev_hd.
Qed.

End Ranking.

(** [referenceSources_worklist] for an item with a bulk and an inline
    source, announced by an account with one resource on line. *)
Lemma referenceSources_worklist_witness :
  Sources.referenceSources Scenario.rank "me@example.org" ["laptop"]
    ["cid:sha1+abc@bob.xmpp.org"; "http://a.example/f"]
  = Some ["http://a.example/f"; "xmpp:me@example.org/laptop?jingle-ft";
          "cid:sha1+abc@bob.xmpp.org"]
  /\ FileShareDownloader.uris
       (FileShareDownloader.make Scenario.rank [] {| FileShareDownloader.file_name := "f" |} []
          ["http://a.example/f"; "xmpp:me@example.org/laptop?jingle-ft";
           "cid:sha1+abc@bob.xmpp.org"])
     = ["cid:sha1+abc@bob.xmpp.org"; "xmpp:me@example.org/laptop?jingle-ft";
        "http://a.example/f"].
Proof.
  split; [reflexivity|].
  destruct (referenceSources_worklist Scenario.rank "me@example.org" ["laptop"]
              ["cid:sha1+abc@bob.xmpp.org"; "http://a.example/f"]
              ["http://a.example/f"; "xmpp:me@example.org/laptop?jingle-ft";
               "cid:sha1+abc@bob.xmpp.org"]
              [] {| FileShareDownloader.file_name := "f" |} [] eq_refl)
    as (_ & _ & _ & H & _).
  exact H.
Defined.

(** [simpleSource_url] for the same item. *)
Lemma simpleSource_url_witness :
  Sources.simpleSource Scenario.rank ["cid:sha1+abc@bob.xmpp.org"; "http://a.example/f"]
  = Sources.Url "http://a.example/f"
  /\ (forall v, In v ["cid:sha1+abc@bob.xmpp.org"; "http://a.example/f"] ->
                Sources.knownb v = true ->
                Sources.rank_of Scenario.rank v
                <= Sources.rank_of Scenario.rank "http://a.example/f").
Proof.
  split; [reflexivity|].
  exact (proj2 (proj2 (proj2
           (simpleSource_url Scenario.rank
              ["cid:sha1+abc@bob.xmpp.org"; "http://a.example/f"]
              "http://a.example/f" eq_refl)))).
Defined.

(** ** The byte stream: reading, staging, aborting *)

Section Streaming.

Import FileShareDownloader Stream.

Lemma left_mid (k : nat) (s : string) : left k s ++ mid k s = s.
Proof.
  revert s. induction k as [|k IH]; intros [|c r]; simpl; try reflexivity.
  rewrite IH. reflexivity.
Qed.

Lemma length_left (k : nat) (s : string) :
  String.length (left k s) = Nat.min k (String.length s).
Proof.
  revert s. induction k as [|k IH]; intros [|c r]; simpl; try reflexivity.
  rewrite IH. reflexivity.
Qed.

Lemma size_left (m : Z) (s : string) :
  0 <= m -> size (left (Z.to_nat m) s) = Z.min m (size s).
Proof.
  intros H. unfold size. rewrite length_left. lia.
Qed.

Lemma size_append (a b : string) : size (a ++ b) = size a + size b.
Proof.
  unfold size. induction a as [|c r IH]; simpl String.length; [lia|].
  rewrite !Nat2Z.inj_succ. lia.
Qed.


Lemma bytesAvailable_pending (d : Downloader) :
  Downloader.bytesAvailable d = size (pending d).
Proof.
  destruct d as [[b [r|]] | b | [b js [c|] a]]; reflexivity.
Qed.

(** X7.  [read] on any adapter takes the first [min(maxSize, available)]
    bytes of what the adapter holds and leaves the rest, in order; it
    changes neither the connection state nor the error text and range of
    the adapter. *)
Theorem read_takes_prefix (m : Z) (d : Downloader) :
  0 <= m ->
  let r := Downloader.read m d in
  snd r ++ pending (fst r) = pending d
  /\ size (snd r) = Z.min m (Downloader.bytesAvailable d)
  /\ Downloader.bytesAvailable (fst r) = Downloader.bytesAvailable d - size (snd r)
  /\ Downloader.isConnected (fst r) = Downloader.isConnected d
  /\ Downloader.base (fst r) = Downloader.base d.
Proof.
  intros Hm r.
  assert (H1 : snd r ++ pending (fst r) = pending d
               /\ size (snd r) = Z.min m (size (pending d))
               /\ Downloader.isConnected (fst r) = Downloader.isConnected d
               /\ Downloader.base (fst r) = Downloader.base d).
  { subst r. destruct d as [[b [r|]] | b | [b js [c|] a]]; simpl.
    - repeat split; [apply left_mid | apply size_left; exact Hm].
    - repeat split. unfold size. simpl. lia.
    - unfold BOB.read. destruct (size (BOB.receivedData b) <=? m) eqn:E; simpl.
      + apply Z.leb_le in E. repeat split; [apply string_app_empty | lia].
      + repeat split; [apply left_mid | apply size_left; exact Hm].
    - repeat split; [apply left_mid | apply size_left; exact Hm].
    - repeat split. unfold size. simpl. lia. }
  destruct H1 as (A & B & C & D).
  rewrite !bytesAvailable_pending.
  repeat split; try assumption.
  rewrite <- A, size_append. lia.
Qed.

(** [read_takes_prefix] on an inline-blob adapter holding ten bytes. *)
Lemma read_takes_prefix_witness :
  let d := D_BOB (BOB.set_receivedData "0123456789" Scenario.bob_adapter) in
  snd (Downloader.read 4 d) = "0123"
  /\ pending (fst (Downloader.read 4 d)) = "456789"
  /\ snd (Downloader.read 4 d) ++ pending (fst (Downloader.read 4 d)) = pending d.
Proof.
  intros d. split; [reflexivity|]. split; [reflexivity|].
  exact (proj1 (read_takes_prefix 4 d ltac:(lia))).
Defined.



(** X9.  A pull whose write to the staging file does not return the
    number of bytes read returns 0, emits no signal, leaves [success] and
    the source list as they were, makes the error text of the file the
    last error and aborts the adapter.  The staging file has grown by the
    part of the bytes read that the write put there all the same, a
    prefix of them; the bytes read are taken from the adapter and not
    returned. *)
Theorem readData_write_error (m : Z) (written : nat) (err : QString) (p : Private)
    (f : QFile) (d : Downloader) :
  tmpFile p = Some f -> downloader p = Some d ->
  let r := readData m (Some (written, err)) p in
  let p' := fst (fst r) in
  let bytes := snd (Downloader.read m d) in
  snd (fst r) = 0
  /\ silent (snd r) = true
  /\ success p' = success p
  /\ staged p' = staged p ++ left written bytes
  /\ bytes = left written bytes ++ mid written bytes
  /\ uris p' = uris p
  /\ lastError p' = err
  /\ downloader p' = Some (fst (Downloader.abort (fst (Downloader.read m d)))).
Proof.
  intros Ef Ed r p' bytes. subst p' r bytes. unfold readData, staged. rewrite Ef, Ed.
  destruct (Downloader.read m d) as [d1 bs].
  destruct (Downloader.abort d1) as [d2 calls] eqn:Ea. simpl. rewrite ?Ef.
  split; [reflexivity|]. split; [|repeat split].
  - clear. induction calls as [|c r IH]; simpl; [reflexivity | exact IH].
  - symmetry. apply left_mid.
  - rewrite Ea. reflexivity.
Qed.

(** [readData_write_error] on the same download with a disk that fills up
    after one of the two bytes read. *)
Lemma readData_write_error_witness :
  let p := fst (run [E_transport Scenario.nam_running; E_metaDataChanged None]
                    (Scenario.opened Scenario.one_http)) in
  snd (fst (readData 2 (Some (1%nat, "No space left on device")) p)) = 0
  /\ staged p = EmptyString
  /\ staged (fst (fst (readData 2 (Some (1%nat, "No space left on device")) p)))
     = left 1 (snd (Downloader.read 2 Scenario.nam_running))
  /\ lastError (fst (fst (readData 2 (Some (1%nat, "No space left on device")) p)))
     = "No space left on device".
Proof.
  intros p.
  destruct (readData_write_error 2 1 "No space left on device" p
              {| qf_name := "/home/user/Documents/dl-a.txt"; qf_data := EmptyString |}
              Scenario.nam_running eq_refl eq_refl) as (H0 & _ & _ & H & _ & _ & He & _).
  split; [exact H0|]. split; [reflexivity|]. split; [exact H | exact He].
Defined.

Lemma run_cons (e : Event) (rest : list Event) (p : Private) :
  run (e :: rest) p
  = (fst (run rest (fst (step e p))),
     (snd (step e p) ++ snd (run rest (fst (step e p))))%list).
Proof.
  simpl. destruct (step e p) as [p1 o1]. simpl.
  destruct (run rest p1) as [p2 o2]. reflexivity.
Qed.

Lemma onMetaDataChanged_opened (p : Private) (d : Downloader) :
  downloader p = Some d ->
  onMetaDataChanged None p
  = (set_range (Downloader.range d)
       (set_tmpFile
          (Some {| qf_name := stagingName (dstFileName (set_metaReady true p));
                   qf_data := EmptyString |})
          (set_metaReady true p)),
     [QEmit q_metaDataChanged]).
Proof. intros E. unfold onMetaDataChanged. rewrite E. reflexivity. Qed.

Lemma bob_read_all (m : Z) (b : BOB.t) :
  size (BOB.receivedData b) <= m ->
  Downloader.read m (D_BOB b) = (D_BOB (BOB.set_receivedData EmptyString b), BOB.receivedData b).
Proof.
  intros H. simpl. unfold BOB.read. apply Z.leb_le in H. rewrite H. reflexivity.
Qed.

(** X10.  An inline-blob download from fetch to success: when the fetch
    succeeds and the staging file opens, one pull with room for the whole
    object stages exactly the object, sets [success] and makes
    [fileName] the destination path; the orchestrator has emitted
    [metaDataChanged], [disconnected] and [finished] (once more before the
    pull when the object is empty), and its range is (0, 0). *)
Theorem bob_download_in_one_pull (p : Private) (b bm bd : BOB.t) (data : QByteArray)
    (m : Z) :
  downloader p = Some (D_BOB b) ->
  BOB.onLoaded true data b = (bd, [Emit metaDataChanged bm; Emit disconnected bd]) ->
  size data <= m ->
  let r := run [E_transport (D_BOB bm); E_metaDataChanged None;
                E_transport (D_BOB bd); E_disconnected; E_readData m None] p in
  staged (fst r) = data
  /\ success (fst r) = true
  /\ fileName (fst r) = dstFileName p
  /\ range (fst r) = (0, 0)
  /\ option_map qf_name (tmpFile (fst r)) = Some (stagingName (dstFileName p))
  /\ snd r = ([QEmit q_metaDataChanged; QEmit q_disconnected]
              ++ (if size data =? 0 then [QEmit q_finished] else [])
              ++ [QEmit q_finished])%list.
Proof.
  intros Ed Hl Hm r. subst r.
  unfold BOB.onLoaded in Hl.
  destruct (BOB.destroyed b) eqn:Hd; [discriminate|].
  cbn [negb] in Hl.
  assert (Hbm : Abstract.range (BOB.base bm) = (0, 0) /\ BOB.receivedData bm = data
                /\ bd = BOB.set_connected false bm).
  { injection Hl as E1 E2 _. subst bm. split; [|split; [|symmetry; exact E1]].
    - destruct (Abstract.isRanged _) eqn:R; [reflexivity | exact (isRanged_false _ R)].
    - destruct (Abstract.isRanged _); reflexivity. }
  destruct Hbm as (Hr & Hdata & ->). clear Hl.
  rewrite !run_cons. cbn [run].
  set (p1 := fst (step (E_transport (D_BOB bm)) p)).
  assert (E1 : downloader p1 = Some (D_BOB bm)).
  { subst p1. cbn [step]. rewrite Ed. reflexivity. }
  assert (O1 : snd (step (E_transport (D_BOB bm)) p) = []).
  { cbn [step]. rewrite Ed. reflexivity. }
  rewrite O1. cbn [step].
  rewrite (onMetaDataChanged_opened p1 _ E1).
  cbn [fst snd].
  change (Downloader.range (D_BOB bm)) with (Abstract.range (BOB.base bm)). rewrite Hr.
  set (p2 := set_range (0, 0) _).
  assert (E2 : downloader p2 = Some (D_BOB bm)) by exact E1.
  rewrite E2. cbn [fst snd].
  set (p3 := set_downloader (Some (D_BOB (BOB.set_connected false bm))) p2).
  unfold onDisconnected. cbn [downloader p3 set_downloader fst snd].
  unfold readData. cbn [tmpFile downloader p3 p2 set_downloader set_range set_tmpFile].
  rewrite (bob_read_all m (BOB.set_connected false bm))
    by (cbn [BOB.receivedData BOB.set_connected]; rewrite Hdata; exact Hm).
  change (Downloader.isConnected
            (D_BOB (BOB.set_receivedData EmptyString (BOB.set_connected false bm))))
    with false.
  change (Downloader.bytesAvailable
            (D_BOB (BOB.set_receivedData EmptyString (BOB.set_connected false bm))))
    with 0.
  change (Downloader.bytesAvailable (D_BOB (BOB.set_connected false bm)))
    with (size (BOB.receivedData bm)).
  change (BOB.receivedData (BOB.set_connected false bm)) with (BOB.receivedData bm).
  rewrite !Hdata.
  cbn [negb andb Z.eqb fst snd qf_name qf_data].
  assert (Hd1 : dstFileName p1 = dstFileName p).
  { subst p1. cbn [step]. rewrite Ed. reflexivity. }
  split; [reflexivity|]. split; [reflexivity|].
  split; [unfold fileName; cbn; exact Hd1|].
  split; [reflexivity|].
  split; [cbn; rewrite Hd1; reflexivity|].
  destruct (size data =? 0); reflexivity.
Qed.

(** [bob_download_in_one_pull] for an object of ten bytes and a buffer
    of 4096. *)
Lemma bob_download_in_one_pull_witness :
  let p := set_downloader (Some (D_BOB Scenario.bob_adapter))
             (Scenario.opened Scenario.one_http) in
  let r := run [E_transport
                  (D_BOB (BOB.set_connected true
                            (BOB.set_receivedData "0123456789" Scenario.bob_adapter)));
                E_metaDataChanged None;
                E_transport (D_BOB (BOB.set_receivedData "0123456789" Scenario.bob_adapter));
                E_disconnected; E_readData 4096 None] p in
  staged (fst r) = "0123456789" /\ success (fst r) = true
  /\ fileName (fst r) = "/home/user/Documents/a.txt".
Proof.
  intros p r.
  destruct (bob_download_in_one_pull p Scenario.bob_adapter
              (BOB.set_connected true
                 (BOB.set_receivedData "0123456789" Scenario.bob_adapter))
              (BOB.set_receivedData "0123456789" Scenario.bob_adapter)
              "0123456789" 4096 eq_refl eq_refl ltac:(unfold size; simpl; lia))
    as (H1 & H2 & H3 & _).
  split; [exact H1|]. split; [exact H2 | exact H3].
Defined.

(** X11.  [abort] of the orchestrator emits no signal and touches nothing
    but the adapter; a second [abort] changes nothing at all and makes no
    call on any service. *)
Theorem abort_idempotent (p : Private) :
  let r1 := abort p in
  let r2 := abort (fst r1) in
  fst r2 = fst r1
  /\ snd r2 = []
  /\ silent (snd r1) = true
  /\ success (fst r1) = success p
  /\ lastError (fst r1) = lastError p
  /\ uris (fst r1) = uris p
  /\ tmpFile (fst r1) = tmpFile p
  /\ metaReady (fst r1) = metaReady p
  /\ (downloader p = None <-> downloader (fst r1) = None).
Proof.
  unfold abort.
  destruct (downloader p) as [d|] eqn:Ed.
  - destruct d as [[b [r|]] | b | [b js c [a|]]]; simpl; rewrite ?Ed; simpl;
      repeat split; intros; discriminate.
  - simpl. rewrite Ed. repeat split; intros; assumption.
Qed.

Lemma aborted_adapter_is_quiet_nam (n : NAM.t) (m : Z) :
  let d := fst (Downloader.abort (D_NAM n)) in
  Downloader.isConnected d = false /\ Downloader.bytesAvailable d = 0
  /\ Downloader.read m d = (d, EmptyString).
Proof. destruct n as [b [r|]]; simpl; repeat split. Qed.

(** X12.  An aborted adapter is quiet.  A bulk-transfer adapter is then
    not connected, has nothing available and reads nothing; a
    peer-transfer adapter is not connected; an inline-blob adapter
    ignores the completion of its fetch, whatever it brings. *)
Theorem aborted_adapter_is_quiet :
  (forall (n : NAM.t) (m : Z),
     let d := fst (Downloader.abort (D_NAM n)) in
     Downloader.isConnected d = false /\ Downloader.bytesAvailable d = 0
     /\ Downloader.read m d = (d, EmptyString))
  /\ (forall (j : Jingle.t),
        Downloader.isConnected (fst (Downloader.abort (D_Jingle j))) = false)
  /\ (forall (b : BOB.t) (ok : bool) (data : QByteArray),
        BOB.onLoaded ok data (BOB.abort b) = (BOB.abort b, [])).
Proof.
  split; [|split].
  - intros n m. apply aborted_adapter_is_quiet_nam.
  - intros [b js [c|] [a|]]; reflexivity.
  - intros b ok data. reflexivity.
Qed.

(** X13.  After [abort] of a bulk-transfer download whose staging file is
    open, the next pull returns 0, sets [success] and emits [finished]:
    the aborted adapter counts as disconnected and drained. *)
Theorem pull_after_abort_declares_success (m : Z) (p : Private) (f : QFile) (n : NAM.t) :
  tmpFile p = Some f -> downloader p = Some (D_NAM n) ->
  let p1 := fst (abort p) in
  readData m None p1 = (set_success true p1, 0, [QEmit q_finished])
  /\ staged (set_success true p1) = staged p
  /\ fileName (set_success true p1) = dstFileName p.
Proof.
  intros Ef Ed p1.
  assert (E1 : tmpFile p1 = Some f).
  { subst p1. unfold abort. rewrite Ed.
    destruct (Downloader.abort (D_NAM n)). exact Ef. }
  assert (E2 : downloader p1 = Some (fst (Downloader.abort (D_NAM n)))).
  { subst p1. unfold abort. rewrite Ed.
    destruct (Downloader.abort (D_NAM n)). reflexivity. }
  destruct aborted_adapter_is_quiet_nam with (n := n) (m := m) as (Hc & Ha & _).
  split; [apply (readData_drained m p1 f _ E1 E2 Hc Ha)|].
  split.
  - unfold staged. simpl. rewrite E1, Ef. reflexivity.
  - subst p1. unfold abort. rewrite Ed.
    destruct (Downloader.abort (D_NAM n)). reflexivity.
Qed.

(** [pull_after_abort_declares_success] on the download of [Scenario]
    aborted after its first two bytes. *)
Lemma pull_after_abort_witness :
  let p := fst (run [E_transport Scenario.nam_running; E_metaDataChanged None;
                     E_readData 2 None]
                    (Scenario.opened Scenario.one_http)) in
  staged p = "ab"
  /\ snd (readData 4096 None (fst (abort p))) = [QEmit q_finished]
  /\ success (fst (fst (readData 4096 None (fst (abort p))))) = true.
Proof.
  intros p. split; [reflexivity|].
  destruct (pull_after_abort_declares_success 4096 p
              {| qf_name := "/home/user/Documents/dl-a.txt"; qf_data := "ab" |}
              (fst (NAM.read 2 (fst (NAM.start Scenario.reply_running
                                       (Scenario.nam "http://a.example/f")))))
              eq_refl eq_refl) as (H & _).
  rewrite H. split; reflexivity.
Defined.

Lemma onFailed_fallback_step (p : Private) (d : Downloader) :
  downloader p = Some d -> metaReady p = false ->
  (uris p = [] ->
     onFailed p
     = (set_lastError
          (if isEmpty (Downloader.lastError d) then no_sources_text
           else Downloader.lastError d)
          (set_downloader None (set_success false p)),
        [Delete d; QEmit q_finished]))
  /\ (forall us u, uris p = (us ++ [u])%list -> known u ->
        exists d1,
          onFailed p
          = (set_downloader (Some d1)
               (set_uris us
                  (set_lastError (Downloader.lastError d) (set_success false p))),
             [Delete d; Start d1])
          /\ Abstract.sourceUri (Downloader.base d1) = u).
Proof.
  intros Ed Hm. split.
  - intros Hu. unfold onFailed. rewrite Ed. simpl. rewrite Hm.
    unfold startNextDownloader. simpl. rewrite Ed. simpl. rewrite Hu. simpl.
    destruct (isEmpty (Downloader.lastError d)); reflexivity.
  - intros us u Hu Ku.
    unfold onFailed. rewrite Ed. simpl. rewrite Hm.
    unfold startNextDownloader. simpl. rewrite Ed. simpl. rewrite Hu.
    destruct (us ++ [u])%list as [|x xs] eqn:Ex; [destruct us; discriminate|].
    rewrite <- Ex. rewrite last_snoc, removelast_snoc.
    match goal with |- context [newDownloader ?q u] =>
      destruct (newDownloader_known q u Ku) as (d0 & E0 & Hb & _) end.
    rewrite E0. simpl.
    exists (Downloader.setRange (rangeStart p) (rangeSize p) d0).
    split; [reflexivity|].
    destruct d0; simpl in *; rewrite Hb; reflexivity.
Qed.

Lemma started_app (a b : list Out) : started (a ++ b) = (started a ++ started b)%list.
Proof.
  induction a as [|x r IH]; simpl; [reflexivity|].
  destruct x; simpl; rewrite IH; reflexivity.
Qed.

Lemma finished_count_app (a b : list Out) :
  finished_count (a ++ b) = (finished_count a + finished_count b)%nat.
Proof.
  induction a as [|x r IH]; simpl; [reflexivity|].
  destruct x as [[ | | | ] | | | ]; simpl; rewrite IH; reflexivity.
Qed.

Lemma last_default {A : Type} (l : list A) (a b : A) : l <> [] -> last l a = last l b.
Proof.
  induction l as [|x [|y r] IH]; intros H; [congruence | reflexivity |].
  change (last (x :: y :: r) a) with (last (y :: r) a).
  change (last (x :: y :: r) b) with (last (y :: r) b).
  apply IH. discriminate.
Qed.

Lemma failures_exhaust_aux (n : nat) :
  forall (ds : list Downloader) (p : Private) (d : Downloader),
    length (uris p) = n -> length ds = S n ->
    downloader p = Some d -> metaReady p = false -> Forall known (uris p) ->
    let r := run (failures ds) p in
    started (snd r) = rev (uris p)
    /\ finished_count (snd r) = 1%nat
    /\ uris (fst r) = []
    /\ downloader (fst r) = None
    /\ success (fst r) = false
    /\ lastError (fst r)
       = (if isEmpty (Downloader.lastError (last ds d)) then no_sources_text
          else Downloader.lastError (last ds d)).
Proof.
  induction n as [|n IH]; intros ds p d Hn Hds Ed Hm Hk.
  - destruct ds as [|d1 [|d2 ds]]; try discriminate.
    destruct (uris p) as [|u us] eqn:Hu; [|discriminate].
    set (p1 := set_downloader (Some d1) p).
    destruct (onFailed_fallback_step p1 d1 eq_refl Hm) as [H0 _].
    specialize (H0 Hu).
    cbn [failures flat_map app]. rewrite !run_cons. cbn [run step].
    rewrite Ed. cbn [fst snd]. fold p1. rewrite H0. cbn [fst snd].
    repeat split; try reflexivity. exact Hu.
  - destruct ds as [|d1 ds]; [discriminate|].
    destruct (exists_last (l := uris p)) as (us & u & Hu).
    { intros E. rewrite E in Hn. discriminate. }
    set (p1 := set_downloader (Some d1) p).
    assert (Ku : known u /\ Forall known us).
    { rewrite Hu in Hk. apply Forall_app in Hk. destruct Hk as [Hus Hu1].
      inversion Hu1; subst. split; assumption. }
    destruct Ku as [Ku Kus].
    destruct (onFailed_fallback_step p1 d1 eq_refl Hm) as [_ H1].
    destruct (H1 us u Hu Ku) as (dn & E1 & Hsrc).
    change (failures (d1 :: ds)) with ([E_transport d1; E_failed] ++ failures ds)%list.
    cbn [app]. rewrite !run_cons. cbn [step].
    rewrite Ed. cbn [fst snd]. fold p1. rewrite E1. cbn [fst snd].
    set (p2 := set_downloader (Some dn) _).
    assert (Hlen : length us = n).
    { rewrite Hu, length_app in Hn. simpl in Hn. lia. }
    assert (Hds' : length ds = S n) by (simpl in Hds; lia).
    specialize (IH ds p2 dn Hlen Hds' eq_refl Hm Kus).
    cbv zeta in IH. destruct IH as (I1 & I2 & I3 & I4 & I5 & I6).
    cbn [app started finished_count]. rewrite Hsrc, I1, I2, Hu, rev_app_distr.
    repeat split; try assumption.
    rewrite I6. assert (Hne : ds <> []) by (intros E; rewrite E in Hds'; discriminate).
    change (last (d1 :: ds) d) with
      (match ds with [] => d1 | _ :: _ => last ds d end).
    destruct ds as [|x xs]; [congruence|].
    rewrite (last_default (x :: xs) dn d Hne). reflexivity.
Qed.

(** X14.  Before any metadata, when adapter after adapter fails, the
    sources left on the list are tried from the last to the first, each
    once; the failure after the last source ends the download with one
    [finished], no adapter, [success] false and the error text of the
    adapter that failed last (the text for missing sources when that one
    is empty). *)
Theorem failures_exhaust_the_list (ds : list Downloader) (p : Private) (d : Downloader) :
  downloader p = Some d -> metaReady p = false -> Forall known (uris p) ->
  length ds = S (length (uris p)) ->
  let r := run (failures ds) p in
  started (snd r) = rev (uris p)
  /\ finished_count (snd r) = 1%nat
  /\ uris (fst r) = []
  /\ downloader (fst r) = None
  /\ success (fst r) = false
  /\ lastError (fst r)
     = (if isEmpty (Downloader.lastError (last ds d)) then no_sources_text
        else Downloader.lastError (last ds d)).
Proof.
  intros Ed Hm Hk Hl. apply (failures_exhaust_aux (length (uris p))); auto.
Qed.

(** [failures_exhaust_the_list] on a download of two sources that both
    fail. *)
Lemma failures_exhaust_witness :
  let r := run (failures [D_NAM Scenario.nam_404; D_NAM Scenario.nam_broken])
               (Scenario.opened Scenario.two_http) in
  uris (Scenario.opened Scenario.two_http) = ["http://b.example/f"]
  /\ started (snd r) = ["http://b.example/f"]
  /\ finished_count (snd r) = 1%nat
  /\ lastError (fst r) = no_sources_text.
Proof.
  intros r. split; [reflexivity|].
  destruct (failures_exhaust_the_list
              [D_NAM Scenario.nam_404; D_NAM Scenario.nam_broken]
              (Scenario.opened Scenario.two_http)
              (D_NAM (Scenario.nam "http://a.example/f"))
              eq_refl eq_refl
              (sortSourcesByPriority_known Scenario.rank ["http://b.example/f"])
              eq_refl) as (H1 & H2 & _ & _ & _ & H6).
  split; [exact H1|]. split; [exact H2 | exact H6].
Defined.

Lemma startNextDownloader_frame (p : Private) :
  let p' := fst (startNextDownloader p) in
  dstFileName p' = dstFileName p /\ openMode p' = openMode p
  /\ tmpFile p' = tmpFile p
  /\ (uris p' = uris p \/ uris p' = removelast (uris p)).
Proof.
  unfold startNextDownloader.
  destruct (downloader p) as [d|]; simpl;
    (destruct (uris p) as [|u us] eqn:Eu; simpl;
     [ destruct (isEmpty _); simpl; rewrite Eu; auto
     | destruct (newDownloader _ _); simpl; auto ]).
Qed.

Lemma step_frame (e : Event) (p : Private) :
  let p' := fst (step e p) in
  dstFileName p' = dstFileName p /\ openMode p' = openMode p
  /\ (uris p' = uris p \/ uris p' = removelast (uris p)).
Proof.
  destruct e as [ | oe | | | m w | | s z | d']; simpl.
  - unfold onFailed. destruct (downloader p) as [d|]; [|auto].
    simpl. destruct (metaReady p); [simpl; auto|].
    destruct (startNextDownloader_frame (set_success false p)) as (A & B & _ & C).
    auto.
  - unfold onMetaDataChanged. destruct (downloader p) as [d|]; [|auto].
    destruct oe; [destruct (Downloader.abort d)|]; simpl; auto.
  - unfold onReadyRead. destruct (downloader p); simpl; auto.
  - unfold onDisconnected. destruct (downloader p); simpl; auto.
  - unfold readData. destruct (tmpFile p); [|simpl; auto].
    destruct (downloader p) as [d|]; [|simpl; auto].
    destruct (Downloader.read m d) as [d1 bs].
    destruct w as [[written err]|]; [destruct (Downloader.abort d1); simpl; auto|].
    destruct (negb _ && _); simpl; auto.
  - unfold abort. destruct (downloader p) as [d|]; [destruct (Downloader.abort d)|];
      simpl; auto.
  - auto.
  - destruct (downloader p); simpl; auto.
Qed.

Lemma run_dstFileName (evs : list Event) :
  forall p, dstFileName (fst (run evs p)) = dstFileName p.
Proof.
  induction evs as [|e rest IH]; intros p; [reflexivity|].
  rewrite run_cons. cbn [fst]. rewrite IH.
  apply (step_frame e p).
Qed.

(** X15.  Whatever happens during a download, the destination chosen by
    [open] and the open mode stay as they are, and the source list only
    loses sources from its end: no source comes back and none is added. *)
Theorem run_keeps_destination (evs : list Event) (p : Private) :
  let p' := fst (run evs p) in
  dstFileName p' = dstFileName p
  /\ openMode p' = openMode p
  /\ exists k, uris p' = firstn k (uris p).
Proof.
  revert p. induction evs as [|e rest IH]; intros p.
  - simpl. repeat split. exists (length (uris p)). symmetry. apply firstn_all.
  - rewrite run_cons. cbn [fst].
    destruct (step_frame e p) as (A & B & C).
    destruct (IH (fst (step e p))) as (A' & B' & k & C').
    cbv zeta in *.
    split; [congruence|]. split; [congruence|].
    destruct C as [C|C]; rewrite C in C'.
    + exists k. exact C'.
    + rewrite removelast_firstn_len, firstn_firstn in C'. eexists. exact C'.
Qed.

Lemma step_consistent (e : Event) (p : Private) :
  consistent p -> consistent (fst (step e p)).
Proof.
  unfold consistent. intros [H1 H2].
  destruct e as [ | oe | | | m w | | s z | d']; simpl.
  - unfold onFailed. destruct (downloader p) as [d|] eqn:Ed; [|simpl; rewrite ?Ed; split; assumption].
    simpl. destruct (metaReady p) eqn:Em; simpl.
    + rewrite Em, Ed. split; [exact H1 | discriminate].
    + assert (Ht : tmpFile p = None).
      { destruct (tmpFile p) as [f|] eqn:Ef; [|reflexivity].
        destruct (H1 f eq_refl) as [C _]. congruence. }
      destruct (startNextDownloader_frame (set_success false p)) as (_ & _ & T & _).
      cbv zeta in T. simpl in T. rewrite Ht in T.
      split; [intros f Hf; congruence|].
      intros Hs. exfalso. revert Hs.
      unfold startNextDownloader. simpl. rewrite Ed. simpl.
      destruct (uris p) as [|u us]; simpl.
      * destruct (isEmpty _); simpl; discriminate.
      * destruct (newDownloader _ _); simpl; discriminate.
  - unfold onMetaDataChanged. destruct (downloader p) as [d|] eqn:Ed; [|simpl; rewrite ?Ed; split; assumption].
    destruct oe as [err|].
    + destruct (Downloader.abort d) as [d1 calls]; simpl.
      split; [discriminate | discriminate].
    + simpl. rewrite Ed. split.
      * intros f Hf. injection Hf as <-. simpl. repeat split. discriminate.
      * intros _. discriminate.
  - unfold onReadyRead. destruct (downloader p) eqn:Ed; simpl; rewrite ?Ed; split; assumption.
  - unfold onDisconnected. destruct (downloader p) eqn:Ed; simpl; rewrite ?Ed; split; assumption.
  - unfold readData. destruct (tmpFile p) as [f|] eqn:Ef; [|simpl; rewrite ?Ef; split; assumption].
    destruct (downloader p) as [d|] eqn:Ed; [|simpl; rewrite ?Ef, ?Ed; split; assumption].
    destruct (H1 f eq_refl) as (A & _ & C).
    destruct (Downloader.read m d) as [d1 bs].
    destruct w as [[written err]|].
    + destruct (Downloader.abort d1) as [d2 calls]; simpl.
      split; [|intros _; discriminate].
      intros f0 Hf. injection Hf as <-. simpl. repeat split; try assumption. discriminate.
    + destruct (negb _ && _); simpl.
      * split; [|discriminate].
        intros f0 Hf. injection Hf as <-. simpl. repeat split; try assumption. discriminate.
      * split; [|intros _; discriminate].
        intros f0 Hf. injection Hf as <-. simpl. repeat split; try assumption. discriminate.
  - unfold abort. destruct (downloader p) as [d|] eqn:Ed; [|simpl; rewrite ?Ed; split; assumption].
    destruct (Downloader.abort d) as [d1 calls]; simpl.
    split; [|exact H2].
    intros f Hf. destruct (H1 f Hf) as (A & _ & C). repeat split; try assumption. discriminate.
  - split; [exact H1 | exact H2].
  - destruct (downloader p) as [d|] eqn:Ed; simpl; [|rewrite ?Ed; split; assumption].
    split; [|exact H2].
    intros f Hf. destruct (H1 f Hf) as (A & _ & C). repeat split; try assumption. discriminate.
Qed.

Lemma run_consistent (evs : list Event) :
  forall p, consistent p -> consistent (fst (run evs p)).
Proof.
  induction evs as [|e rest IH]; intros p H; [exact H|].
  rewrite run_cons. apply IH. apply step_consistent. exact H.
Qed.

Lemma open_consistent (env : Env) (fuel : nat) (mode : Z) (p p' : Private) (b : bool)
    (o : list Out) :
  tmpFile p = None -> success p = false ->
  open env fuel mode p = Some (p', b, o) -> consistent p'.
Proof.
  intros Ht Hs. unfold open, consistent.
  destruct (Nat.eqb _ 0 && _).
  { intros E. injection E as <- _ _. simpl. rewrite Ht. split; congruence. }
  destruct (isOpen p).
  { intros E. injection E as <- _ _. rewrite Ht, Hs. split; congruence. }
  destruct (pickName _ _ _ _ _ _) as [fn|]; [|discriminate].
  match goal with |- context [startNextDownloader ?q] =>
    destruct (startNextDownloader_frame q) as (_ & _ & T & _);
    assert (S0 : success (fst (startNextDownloader q)) = false);
    [| destruct (startNextDownloader q) as [p3 o3] ] end.
  { unfold startNextDownloader. simpl.
    destruct (downloader p); simpl; (destruct (uris p); simpl;
      [destruct (isEmpty _); reflexivity | destruct (newDownloader _ _); simpl; try exact Hs; reflexivity]). }
  intros E. injection E as <- _ _. cbv zeta in T. simpl in T, S0. rewrite Ht in T.
  rewrite T, S0. split; congruence.
Qed.

(** X16.  In every run of a freshly constructed and opened orchestrator:
    a staging file is there only after metadata was reported, with an
    adapter present, and it is the file named after the destination with
    the staging prefix; and [success] is set only while a staging file is
    there.  So a non-empty [fileName] always comes with a staging file of
    that download. *)
Theorem download_is_consistent (rank : SourceType -> Z) (sums0 : list Hash) (file0 : File)
    (jids0 : list Jid) (uris0 : QStringList) (env : Env) (fuel : nat) (mode : Z)
    (p1 : Private) (b : bool) (o : list Out) (evs : list Event) :
  open env fuel mode (make rank sums0 file0 jids0 uris0) = Some (p1, b, o) ->
  let p := fst (run evs p1) in
  (forall f, tmpFile p = Some f ->
     metaReady p = true /\ downloader p <> None
     /\ qf_name f = stagingName (dstFileName p1))
  /\ (success p = true -> tmpFile p <> None)
  /\ (fileName p <> EmptyString -> tmpFile p <> None /\ fileName p = dstFileName p1).
Proof.
  intros Ho p.
  pose proof (open_consistent env fuel mode (make rank sums0 file0 jids0 uris0) p1 b o
                eq_refl eq_refl Ho) as C1.
  pose proof (run_consistent evs p1 C1) as [H1 H2]. fold p in H1, H2.
  pose proof (run_dstFileName evs p1) as Hdst. fold p in Hdst.
  split; [|split].
  - intros f Hf. destruct (H1 f Hf) as (A & B & C). rewrite <- Hdst. auto.
  - exact H2.
  - unfold fileName. destruct (success p) eqn:Es; [|congruence].
    intros _. split; [apply H2; reflexivity | exact Hdst].
Qed.

(** [download_is_consistent] on the download of [Scenario] pulled to its
    end. *)
Lemma download_is_consistent_witness :
  let evs := [E_transport Scenario.nam_running; E_metaDataChanged None;
              E_readData 4096 None; E_transport Scenario.nam_closed; E_disconnected;
              E_readData 4096 None] in
  open Scenario.env_empty 1 ReadOnly Scenario.one_http
  = Some (Scenario.opened Scenario.one_http, true,
          [Start (D_NAM (Scenario.nam "http://a.example/f"))])
  /\ success (fst (run evs (Scenario.opened Scenario.one_http))) = true
  /\ tmpFile (fst (run evs (Scenario.opened Scenario.one_http))) <> None.
Proof.
  intros evs.
  split; [reflexivity|]. split; [reflexivity|].
  destruct (download_is_consistent Scenario.rank [] {| file_name := "a.txt" |} []
              ["http://a.example/f"] Scenario.env_empty 1 ReadOnly
              (Scenario.opened Scenario.one_http) true
              [Start (D_NAM (Scenario.nam "http://a.example/f"))]
              evs eq_refl) as (_ & H & _).
  exact (H eq_refl).
Defined.

(** What [before_last] and [after_last] cut a text into. *)
Lemma last_cut (c : ascii) (s : string) :
  match before_last c s, after_last c s with
  | Some a, Some b => s = a ++ String c b /\ has_char c b = false
  | None, None => has_char c s = false
  | _, _ => False
  end.
Proof.
  induction s as [|x r IH]; simpl; [reflexivity|].
  destruct (before_last c r) as [a|], (after_last c r) as [b|]; try contradiction.
  - destruct IH as [E H]. split; [rewrite E; reflexivity | exact H].
  - destruct (Ascii.eqb x c) eqn:Ex.
    + apply Ascii.eqb_eq in Ex. subst x. split; [reflexivity | exact IH].
    + simpl. exact IH.
Qed.

Lemma cut_at_last (c : ascii) (a b : string) :
  has_char c b = false ->
  before_last c (a ++ String c b) = Some a /\ after_last c (a ++ String c b) = Some b.
Proof.
  intros Hb.
  assert (Nb : before_last c b = None /\ after_last c b = None).
  { pose proof (last_cut c b) as L.
    destruct (before_last c b) as [x|], (after_last c b) as [y|]; try contradiction; auto.
    destruct L as [E H]. rewrite E, has_char_app in Hb. simpl in Hb.
    rewrite Ascii.eqb_refl in Hb. rewrite orb_true_r in Hb. discriminate. }
  destruct Nb as [N1 N2].
  induction a as [|x r [I1 I2]]; simpl.
  - rewrite N1, N2, Ascii.eqb_refl. auto.
  - rewrite I1, I2. auto.
Qed.

Lemma length_append (a b : string) :
  String.length (a ++ b) = (String.length a + String.length b)%nat.
Proof. induction a as [|x r IH]; simpl; [reflexivity | rewrite IH; reflexivity]. Qed.

(** X17.  The staging file is never the destination file: its name is
    the destination's with the prefix [dl-], and for a destination [fn] in
    a directory [dir] it is [dir/dl-fn], in the same directory. *)
Theorem staging_is_not_destination :
  (forall dst, stagingName dst <> dst)
  /\ (forall dst, Qt.fileName (stagingName dst) = "dl-" ++ Qt.fileName dst)
  /\ (forall dir fn,
        dir <> EmptyString -> has_char "/" fn = false ->
        stagingName (absoluteFilePath dir fn) = dir ++ "/dl-" ++ fn).
Proof.
  split; [|split].
  - intros dst E. apply (f_equal String.length) in E.
    unfold stagingName, Qt.path, Qt.fileName in E.
    pose proof (last_cut "/" dst) as L.
    destruct (before_last "/" dst) as [a|], (after_last "/" dst) as [b|];
      try contradiction.
    + destruct L as [L _]. rewrite L in E.
      destruct a as [|x r]; rewrite !length_append in E; simpl in E;
        rewrite ?length_append in E; simpl in E; lia.
    + rewrite !length_append in E. simpl in E. lia.
  - intros dst. unfold stagingName.
    assert (H : has_char "/" ("dl-" ++ Qt.fileName dst) = false).
    { unfold Qt.fileName. pose proof (last_cut "/" dst) as L.
      destruct (before_last "/" dst) as [a|], (after_last "/" dst) as [b|];
        try contradiction; simpl; [apply L | exact L]. }
    unfold Qt.fileName at 1.
    change (Qt.path dst ++ "/" ++ "dl-" ++ Qt.fileName dst)
      with (Qt.path dst ++ String "/" ("dl-" ++ Qt.fileName dst)).
    rewrite (proj2 (cut_at_last "/" (Qt.path dst) _ H)). reflexivity.
  - intros dir fn Hd Hf.
    assert (Ha : absoluteFilePath dir fn = dir ++ String "/" fn).
    { unfold absoluteFilePath, startsWith. destruct fn as [|x r]; [reflexivity|].
      cbn [String.prefix]. destruct (ascii_dec "/" x) as [E|_]; [|reflexivity].
      subst x. cbn [has_char] in Hf. rewrite Ascii.eqb_refl in Hf. discriminate. }
    rewrite Ha. unfold stagingName, Qt.path, Qt.fileName.
    destruct (cut_at_last "/" dir fn Hf) as [B A]. rewrite B, A.
    destruct dir; [congruence | reflexivity].
Qed.

(** [staging_is_not_destination] for the destination of [Scenario]. *)
Lemma staging_is_not_destination_witness :
  stagingName (absoluteFilePath "/home/user/Documents" "a.txt")
  = "/home/user/Documents/dl-a.txt".
Proof.
  exact (proj2 (proj2 staging_is_not_destination) "/home/user/Documents" "a.txt"
           ltac:(discriminate) eq_refl).
Defined.

Lemma pickName_cases (env : Env) (base sfx : QString) (i : Z) (fuel : nat) :
  forall fn fn', pickName env base sfx i fuel fn = Some fn' ->
                 fn' = fn \/ fn' = numbered base sfx i.
Proof.
  induction fuel as [|k IH]; simpl; intros fn fn' H; [discriminate|].
  destruct (dirExists env fn).
  - right. destruct (IH _ _ H) as [E|E]; exact E.
  - injection H as <-. left. reflexivity.
Qed.

(** X18.  When [open] goes on to choose a destination and returns, it
    returns true, records the requested mode, and the destination is a
    name that does not exist in the documents directory: the cleaned name
    of the payload (the digest in hex when that is empty) or that name
    with [-1] put before its suffix, never any other. *)
Theorem open_chooses_free_name (env : Env) (fuel : nat) (mode : Z) (p p' : Private)
    (b : bool) (o : list Out) :
  isOpen p = false ->
  uris p <> [] \/ Z.land mode ReadOnly <> 0 ->
  open env fuel mode p = Some (p', b, o) ->
  b = true
  /\ openMode p' = mode
  /\ exists fn,
      dstFileName p' = absoluteFilePath (documentsDir env) fn
      /\ dirExists env fn = false
      /\ (fn = firstName env p
          \/ fn = numbered (completeBaseName (firstName env p))
                           (Qt.suffix (firstName env p)) 1).
Proof.
  intros Ho Hg. unfold open. rewrite Ho.
  assert (G : Nat.eqb (length (uris p)) 0 && (Z.land mode ReadOnly =? 0) = false).
  { destruct Hg as [Hg|Hg].
    - destruct (uris p); [congruence | reflexivity].
    - apply Z.eqb_neq in Hg. rewrite Hg. apply andb_false_r. }
  rewrite G.
  destruct (pickName _ _ _ _ _ _) as [fn|] eqn:Ep; [|discriminate].
  match goal with |- context [startNextDownloader ?q] =>
    destruct (startNextDownloader_frame q) as (D & M & _ & _);
    destruct (startNextDownloader q) as [p3 o3] end.
  intros E. injection E as <- <- _. cbv zeta in D, M. simpl in D, M.
  split; [reflexivity|]. split; [exact M|].
  exists fn. split; [exact D|].
  split; [eapply pickName_sound; exact Ep | eapply pickName_cases; exact Ep].
Qed.

(** [open_chooses_free_name] where [a.txt] exists and [a-1.txt] does
    not. *)
Lemma open_chooses_free_name_witness :
  let env := {| documentsDir := "/home/user/Documents";
                dirExists := fun n => String.eqb n "a.txt";
                cleanFileName := fun s => s |} in
  exists p' o,
    open env 2 ReadOnly Scenario.one_http = Some (p', true, o)
    /\ dstFileName p' = "/home/user/Documents/a-1.txt".
Proof.
  intros env.
  assert (E : exists p' o, open env 2 ReadOnly Scenario.one_http = Some (p', true, o)).
  { eexists. eexists. vm_compute. reflexivity. }
  destruct E as (p' & o & E).
  assert (M : Z.land ReadOnly ReadOnly <> 0) by discriminate.
  destruct (open_chooses_free_name env 2 ReadOnly Scenario.one_http p' true o
              eq_refl (or_intror M) E) as (_ & _ & fn & Hd & Hfree & [Hfn|Hfn]).
  - subst fn. vm_compute in Hfree. discriminate.
  - exists p', o. split; [exact E|]. rewrite Hd, Hfn. reflexivity.
Defined.

(** X19.  [open] on a freshly constructed orchestrator starts at most one
    adapter; the adapter it starts is for a source that was given, of a
    known kind and of the highest priority among the known sources given;
    it is of the class of that kind, carries the range set before
    [open], and becomes the active adapter. *)
Theorem open_starts_best_source (rank : SourceType -> Z) (sums0 : list Hash)
    (file0 : File) (jids0 : list Jid) (uris0 : QStringList) (s z : Z)
    (env : Env) (fuel : nat) (mode : Z) (p' : Private) (b : bool) (o : list Out)
    (d : Downloader) :
  open env fuel mode (setRange s z (make rank sums0 file0 jids0 uris0)) = Some (p', b, o) ->
  In (Start d) o ->
  let u := Abstract.sourceUri (Downloader.base d) in
  o = [Start d]
  /\ downloader p' = Some d
  /\ In u uris0
  /\ kind_matches (sourceType u) d
  /\ Downloader.range d = (s, z)
  /\ (forall v, In v uris0 -> Sources.knownb v = true ->
                Sources.rank_of rank v <= Sources.rank_of rank u).
Proof.
  unfold open.
  change (isOpen (setRange s z (make rank sums0 file0 jids0 uris0))) with false.
  change (uris (setRange s z (make rank sums0 file0 jids0 uris0)))
    with (sortSourcesByPriority rank uris0).
  destruct (Nat.eqb _ 0 && _).
  { intros E. injection E as _ _ <-. intros []. }
  cbv iota.
  destruct (pickName _ _ _ _ _ _) as [fn|]; [|discriminate].
  unfold startNextDownloader.
  cbn [downloader set_openMode set_dstFileName setRange set_range make uris lastError
       rangeStart rangeSize fst snd].
  pose proof (sortSourcesByPriority_known rank uris0) as K.
  pose proof (sortSourcesByPriority_permutation rank uris0) as P.
  pose proof (sortSourcesByPriority_ascending rank uris0) as A.
  destruct (sortSourcesByPriority rank uris0) as [|x xs] eqn:Es.
  { cbn. intros E. injection E as _ _ <-. intros [H|[]]. discriminate. }
  rewrite <- Es in *.
  set (u0 := last (sortSourcesByPriority rank uris0) EmptyString).
  assert (Hin : In u0 (sortSourcesByPriority rank uris0)).
  { subst u0. rewrite Es. clear. generalize x. induction xs as [|c xs IH]; intros a0;
      [left; reflexivity | right; apply IH]. }
  assert (Ku : known u0) by (rewrite Forall_forall in K; apply K; exact Hin).
  rewrite Es at 1. cbv iota. cbn [app].
  match goal with |- context [newDownloader ?q u0] =>
    destruct (newDownloader_known q u0 Ku) as (d0 & E0 & Hb & Hkind); rewrite E0 end.
  intros E. injection E as <- _ <-. intros [H|[]]. injection H as <-.
  assert (Hu : Abstract.sourceUri
                 (Downloader.base (Downloader.setRange s z d0)) = u0).
  { destruct d0; simpl in *; rewrite Hb; reflexivity. }
  cbv zeta. rewrite Hu.
  split; [reflexivity|]. split; [reflexivity|].
  split.
  { apply (Permutation_in _ P) in Hin. apply filter_In in Hin. tauto. }
  split; [destruct d0; exact Hkind|].
  split; [destruct d0; reflexivity|].
  intros v Hv Kv. apply sorted_last_max; [exact A|].
  apply (Permutation_in _ (Permutation_sym P)). apply filter_In. split; assumption.
Qed.

(** [open_starts_best_source] for an inline and a bulk source, with the
    bytes from 100 on requested. *)
Lemma open_starts_best_source_witness :
  exists p' d,
    open Scenario.env_empty 1 ReadOnly
      (setRange 100 0
         (make Scenario.rank [] {| file_name := "a.txt" |} []
            ["http://a.example/f"; "cid:sha1+abc@bob.xmpp.org"]))
    = Some (p', true, [Start d])
    /\ Abstract.sourceUri (Downloader.base d) = "http://a.example/f"
    /\ Downloader.range d = (100, 0).
Proof.
  assert (E : exists p' d,
             open Scenario.env_empty 1 ReadOnly
               (setRange 100 0
                  (make Scenario.rank [] {| file_name := "a.txt" |} []
                     ["http://a.example/f"; "cid:sha1+abc@bob.xmpp.org"]))
             = Some (p', true, [Start d])
             /\ Abstract.sourceUri (Downloader.base d) = "http://a.example/f").
  { eexists. eexists. split; [vm_compute; reflexivity | reflexivity]. }
  destruct E as (p' & d & E & Hu).
  destruct (open_starts_best_source Scenario.rank [] {| file_name := "a.txt" |} []
              ["http://a.example/f"; "cid:sha1+abc@bob.xmpp.org"] 100 0
              Scenario.env_empty 1 ReadOnly p' true [Start d] d E (or_introl eq_refl))
    as (_ & _ & _ & _ & R & _).
  exists p', d. split; [exact E|]. split; [exact Hu | exact R].
Defined.

End Streaming.

(** ** The adapters: ranges asked and granted, peers *)

Section Adapters.

(** X20.  What [parseHttpRangeResponse] accepts: the value is the word
    [bytes], one space, a field that converts to the start, one hyphen and
    a rest without space or hyphen; the start fits a [qint64] and the
    size is at least 0 and fits a [qint64]. *)
Theorem parseHttpRangeResponse_accepts (value : QByteArray) (a n : Z) :
  parseHttpRangeResponse value = (true, a, n) ->
  0 <= n <= int64_max
  /\ int64_min <= a <= int64_max
  /\ exists S R,
      value = "bytes " ++ S ++ "-" ++ R
      /\ toLongLong S = (a, true)
      /\ has_char " " S = false /\ has_char "-" S = false
      /\ has_char " " R = false /\ has_char "-" R = false.
Proof.
  unfold parseHttpRangeResponse.
  destruct (split " " value) as [|a0 [|a1 [|a2 r]]] eqn:E1; try discriminate.
  destruct (negb (a0 =? "bytes")%string) eqn:Eb; [discriminate|].
  apply negb_false_iff, String.eqb_eq in Eb. subst a0.
  destruct (split "-" a1) as [|b0 [|b1 [|b2 r]]] eqn:E2; try discriminate.
  destruct (toLongLong b0) as [start [|]] eqn:Es; [|discriminate].
  destruct (toLongLong (hd EmptyString (split "/" b1))) as [e ok2].
  destruct (negb ok2 || (wrap64 (wrap64 (e - start) + 1) <? 0)) eqn:Ec; [discriminate|].
  intros H. injection H as <- <-.
  apply orb_false_elim in Ec. destruct Ec as [_ Ec]. apply Z.ltb_ge in Ec.
  pose proof (wrap64_range (wrap64 (e - start) + 1)) as W.
  pose proof (toLongLong_in_range b0 start Es) as R.
  apply split_two in E1. destruct E1 as (-> & _ & H1).
  apply split_two in E2. destruct E2 as (-> & H2 & H3).
  rewrite has_char_app in H1. simpl in H1.
  apply orb_false_elim in H1. destruct H1 as [H1 H4].
  split; [lia|]. split; [exact R|].
  exists b0, b1. repeat split; assumption.
Qed.

(** [parseHttpRangeResponse_accepts] on a granted range. *)
Lemma parseHttpRangeResponse_accepts_witness :
  parseHttpRangeResponse "bytes 100-999/1000" = (true, 100, 900)
  /\ 0 <= 900 <= int64_max.
Proof.
  split; [reflexivity|].
  exact (proj1 (parseHttpRangeResponse_accepts "bytes 100-999/1000" 100 900 eq_refl)).
Defined.

(** X21.  The range asked for and the range granted.  An adapter without
    a range sends no Range header; with a start only it sends an
    open-ended one; with a start and a size it sends [bytes=start-end]
    with [end = start+size-1], and when the server answers 206 with that
    very range the adapter keeps the range it asked for and emits
    [metaDataChanged]. *)
Theorem range_asked_and_granted (n : NAM.t) :
  NAM.rangeHeader (Abstract.setRange 0 0 (NAM.base n)) = None
  /\ (forall s, 0 < s ->
        NAM.rangeHeader (Abstract.setRange s 0 (NAM.base n))
        = Some ("bytes=" ++ number s ++ "-"))
  /\ (forall s z T,
        0 <= s -> 0 < z -> s + z - 1 < int64_max ->
        has_char " " T = false -> has_char "-" T = false ->
        let n0 := NAM.with_base (Abstract.setRange s z (NAM.base n)) n in
        NAM.rangeHeader (NAM.base n0)
        = Some ("bytes=" ++ number s ++ "-" ++ number (s + z - 1))
        /\ NAM.onReplyMetaDataChanged 206
             ("bytes " ++ number s ++ "-" ++ number (s + z - 1) ++ "/" ++ T) n0
           = (n0, [Emit metaDataChanged n0])).
Proof.
  split; [reflexivity|]. split.
  - intros s Hs. unfold NAM.rangeHeader, Abstract.isRanged. simpl.
    destruct (s =? 0) eqn:E; [apply Z.eqb_eq in E; lia | reflexivity].
  - intros s z T Hs Hz Hmax T1 T2 n0. split.
    + unfold NAM.rangeHeader, Abstract.isRanged. subst n0. simpl.
      destruct (z =? 0) eqn:E; [apply Z.eqb_eq in E; lia|]. simpl.
      unfold int64_max in Hmax.
      rewrite (wrap64_small (s + z)) by (unfold int64_min, int64_max; lia).
      rewrite (wrap64_small (s + z - 1)) by (unfold int64_min, int64_max; lia).
      reflexivity.
    + unfold NAM.onReplyMetaDataChanged. simpl (206 =? 206). cbv iota.
      rewrite (parseHttpRangeResponse_numbers s (s + z - 1) T) by (assumption || lia).
      replace (s + z - 1 - s + 1) with z by lia.
      destruct (negb (size _ =? 0)); reflexivity.
Qed.

(** [range_asked_and_granted] for 512 bytes from offset 100. *)
Lemma range_asked_and_granted_witness :
  let n0 := NAM.with_base (Abstract.setRange 100 512 (Abstract.make "http://a.example/f"))
              (Scenario.nam "http://a.example/f") in
  NAM.rangeHeader (NAM.base n0) = Some "bytes=100-611"
  /\ NAM.onReplyMetaDataChanged 206 "bytes 100-611/4096" n0 = (n0, [Emit metaDataChanged n0]).
Proof.
  intros n0.
  destruct (range_asked_and_granted (Scenario.nam "http://a.example/f")) as (_ & _ & H).
  destruct (H 100 512 "4096" ltac:(lia) ltac:(lia) ltac:(unfold int64_max; lia)
              eq_refl eq_refl) as [H1 H2].
  split; [exact H1 | exact H2].
Defined.

(** X22.  [selectOnlineJid] returns the first candidate, in the order of
    the list, that is not the local identity and has the resource of its
    address on line, and the null identity when there is none. *)
Theorem selectOnlineJid_first_reachable (acc : PsiAccount) (js : list Jid) :
  Abstract.selectOnlineJid acc js
  = match find (fun j => negb (Jid_eqb j (client_jid acc)) && Abstract.hasResource acc j) js
    with
    | Some j => j
    | None => nullJid
    end.
Proof.
  induction js as [|j r IH]; simpl; [reflexivity|].
  destruct (Jid_eqb j (client_jid acc)); simpl; [exact IH|].
  destruct (Abstract.hasResource acc j); [reflexivity | exact IH].
Qed.

End Adapters.

(** ** The shareable item: runs of the publish pipeline *)

Section PublishingRuns.

Import FileSharingItem Publishing.

Lemma notifications_app (a b : list Eff) :
  notifications (a ++ b) = (notifications a + notifications b)%nat.
Proof.
  induction a as [|x r IH]; simpl; [reflexivity|]. destruct x; simpl; rewrite IH; reflexivity.
Qed.

Lemma cache_writes_app (a b : list Eff) :
  cache_writes (a ++ b) = (cache_writes a + cache_writes b)%nat.
Proof.
  induction a as [|x r IH]; simpl; [reflexivity|]. destruct x; simpl; rewrite IH; reflexivity.
Qed.

(** [checkFinished] does nothing, or writes the cache once and notifies
    once and sets the flag that keeps it from doing so again. *)
Lemma checkFinished_once (fl : FlagBits) (env : Env) (i : t) :
  PublishNotified fl <> 0 ->
  let r := checkFinished fl env i in
  (Z.land (_flags i) (PublishNotified fl) <> 0 -> r = (i, []))
  /\ ((snd r = [] /\ fst r = i)
      \/ (notifications (snd r) = 1%nat /\ cache_writes (snd r) = 1%nat
          /\ Z.land (_flags (fst r)) (PublishNotified fl) <> 0)).
Proof.
  intros Hp r. subst r. unfold checkFinished.
  destruct (Z.land (_flags i) (PublishNotified fl) =? 0) eqn:E; simpl.
  - apply Z.eqb_eq in E. split; [intros H; congruence|].
    destruct (Z.land (_flags i) _ =? _); [|left; auto].
    right. destruct (FileType_eqb (_fileType i) TempFile); simpl;
      repeat split; apply land_lor_self; exact Hp.
  - split; [reflexivity | left; auto].
Qed.

Lemma step_once (fl : FlagBits) (env : Env) (e : Ev) (i i' : t) (es : list Eff) :
  PublishNotified fl <> 0 ->
  step fl env e i = Some (i', es) ->
  (Z.land (_flags i) (PublishNotified fl) <> 0 ->
     Z.land (_flags i') (PublishNotified fl) <> 0
     /\ notifications es = 0%nat /\ cache_writes es = 0%nat)
  /\ ((notifications es = 0%nat /\ cache_writes es = 0%nat)
      \/ (notifications es = 1%nat /\ cache_writes es = 1%nat
          /\ Z.land (_flags i') (PublishNotified fl) <> 0)).
Proof.
  intros Hp. destruct e as [ | n | ok url status]; simpl.
  - unfold publish. destruct (FileType_eqb (_fileType i) RemoteFile); [discriminate|].
    set (ia := if Z.land (_flags i) (HttpFinished fl) =? 0
               then if discoNotFound env
                    then checkFinished fl env (set_flags (Z.lor (_flags i) (HttpFinished fl)) i)
                    else (i, [Upload (_fileName i) (displayName env i) (_mimeType i)])
               else (i, [])).
    assert (Ha : (Z.land (_flags i) (PublishNotified fl) <> 0 ->
                    Z.land (_flags (fst ia)) (PublishNotified fl) <> 0
                    /\ notifications (snd ia) = 0%nat /\ cache_writes (snd ia) = 0%nat)
                 /\ ((notifications (snd ia) = 0%nat /\ cache_writes (snd ia) = 0%nat
                      /\ (Z.land (_flags i) (PublishNotified fl) = 0 ->
                          Z.land (_flags (fst ia)) (PublishNotified fl) = 0
                          \/ Z.land (_flags (fst ia)) (PublishNotified fl) <> 0))
                     \/ (notifications (snd ia) = 1%nat /\ cache_writes (snd ia) = 1%nat
                         /\ Z.land (_flags (fst ia)) (PublishNotified fl) <> 0))).
    { subst ia. destruct (Z.land (_flags i) (HttpFinished fl) =? 0).
      - destruct (discoNotFound env).
        + destruct (checkFinished_once fl env
                      (set_flags (Z.lor (_flags i) (HttpFinished fl)) i) Hp) as [C1 C2].
          cbv zeta in C1, C2. split.
          * intros H. rewrite C1 by (simpl; apply land_lor_keep; exact H).
            simpl. repeat split. apply land_lor_keep. exact H.
          * destruct C2 as [[C2 C3]|C2]; [left | right; exact C2].
            rewrite C2. repeat split.
            intros _. destruct (Z.eq_dec (Z.land (_flags (fst (checkFinished fl env
                        (set_flags (Z.lor (_flags i) (HttpFinished fl)) i))))
                        (PublishNotified fl)) 0); auto.
        + simpl. split; [intros H; auto | left; repeat split; auto].
      - simpl. split; [intros H; auto | left; repeat split; auto]. }
    destruct ia as [i1 e1]. simpl in Ha. destruct Ha as [Ha1 Ha2].
    set (ib := if Z.land (_flags i1) (JingleFinished fl) =? 0
               then checkFinished fl env (set_flags (Z.lor (_flags i1) (JingleFinished fl)) i1)
               else (i1, [])).
    assert (Hb : (Z.land (_flags i1) (PublishNotified fl) <> 0 ->
                    Z.land (_flags (fst ib)) (PublishNotified fl) <> 0
                    /\ snd ib = [])
                 /\ ((notifications (snd ib) = 0%nat /\ cache_writes (snd ib) = 0%nat)
                     \/ (notifications (snd ib) = 1%nat /\ cache_writes (snd ib) = 1%nat
                         /\ Z.land (_flags (fst ib)) (PublishNotified fl) <> 0))).
    { subst ib. destruct (Z.land (_flags i1) (JingleFinished fl) =? 0).
      - destruct (checkFinished_once fl env
                    (set_flags (Z.lor (_flags i1) (JingleFinished fl)) i1) Hp) as [C1 C2].
        cbv zeta in C1, C2. split.
        + intros H. rewrite C1 by (simpl; apply land_lor_keep; exact H).
          simpl. split; [apply land_lor_keep; exact H | reflexivity].
        + destruct C2 as [[C2 C3]|C2]; [left; rewrite C2; auto | right; exact C2].
      - simpl. split; [intros H; auto | left; auto]. }
    destruct ib as [i2 e2]. simpl in Hb. destruct Hb as [Hb1 Hb2].
    intros H. injection H as <- <-.
    rewrite notifications_app, cache_writes_app.
    split.
    + intros Hn. destruct (Ha1 Hn) as (F1 & N1 & W1).
      destruct (Hb1 F1) as [F2 ->]. simpl. repeat split; try assumption; lia.
    + destruct Ha2 as [(N1 & W1 & _)|(N1 & W1 & F1)].
      * destruct Hb2 as [(N2 & W2)|(N2 & W2 & F2)]; [left; lia | right].
        repeat split; try assumption; lia.
      * destruct (Hb1 F1) as [F2 ->]. right. simpl. repeat split; try assumption; lia.
  - intros H. injection H as <- <-. simpl. split; [intros Hn; auto | left; auto].
  - unfold onUploadFinished.
    set (i2 := if ok then _ else _).
    assert (F : _flags i2 = Z.lor (_flags i) (HttpFinished fl))
      by (subst i2; destruct ok; reflexivity).
    destruct (checkFinished_once fl env i2 Hp) as [C1 C2]. cbv zeta in C1, C2.
    destruct (checkFinished fl env i2) as [i3 e3] eqn:E3. simpl in C1, C2.
    intros H. injection H as <- <-. simpl.
    split.
    + intros Hn. assert (Hn2 : Z.land (_flags i2) (PublishNotified fl) <> 0)
        by (rewrite F; apply land_lor_keep; exact Hn).
      specialize (C1 Hn2). injection C1 as -> ->. simpl. auto.
    + destruct C2 as [[-> ->]|C2]; [left; auto | right; exact C2].
Qed.

(** X23.  Whatever is done to an item (calls of [publish], progress and
    end of uploads, in any number and order), [publishFinished] is emitted
    at most once, the cache is written exactly as often, and neither
    happens at all when the item was already notified, as every item
    restored from the cache is. *)
Theorem published_at_most_once (fl : FlagBits) (env : Env) (evs : list Ev) (i i' : t)
    (es : list Eff) :
  PublishNotified fl <> 0 ->
  run fl env evs i = Some (i', es) ->
  (notifications es <= 1)%nat
  /\ cache_writes es = notifications es
  /\ (notifications es = 1%nat -> Z.land (_flags i') (PublishNotified fl) <> 0)
  /\ (Z.land (_flags i) (PublishNotified fl) <> 0 ->
      notifications es = 0%nat /\ Z.land (_flags i') (PublishNotified fl) <> 0).
Proof.
  intros Hp. revert i i' es.
  induction evs as [|e rest IH]; intros i i' es; simpl.
  - intros H. injection H as <- <-. simpl. repeat split; auto. discriminate.
  - destruct (step fl env e i) as [[i1 e1]|] eqn:Es; [|discriminate].
    destruct (run fl env rest i1) as [[i2 e2]|] eqn:Er; [|discriminate].
    intros H. injection H as <- <-.
    destruct (step_once fl env e i i1 e1 Hp Es) as [S1 S2].
    destruct (IH i1 i2 e2 Er) as (I1 & I2 & I3 & I4).
    rewrite notifications_app, cache_writes_app.
    assert (Hcase : (notifications e1 = 0%nat /\ cache_writes e1 = 0%nat)
                    \/ (notifications e1 = 1%nat /\ cache_writes e1 = 1%nat
                        /\ notifications e2 = 0%nat
                        /\ Z.land (_flags i2) (PublishNotified fl) <> 0)).
    { destruct S2 as [S2|(N & W & F)]; [left; exact S2 | right].
      destruct (I4 F) as [N2 F2]. auto. }
    split; [|split; [|split]].
    + destruct Hcase as [[N W]|(N & W & N2 & _)]; lia.
    + destruct Hcase as [[N W]|(N & W & N2 & _)]; lia.
    + intros Hn. destruct Hcase as [[N W]|(N & W & N2 & F2)]; [apply I3; lia | exact F2].
    + intros Hn. destruct (S1 Hn) as (F1 & N1 & W1). destruct (I4 F1) as [N2 F2].
      split; [lia | exact F2].
Qed.

(** [published_at_most_once] on the item of [Scenario] published twice,
    with a stray end of upload after it. *)
Lemma published_at_most_once_witness :
  exists i' es,
    run Scenario.bits Scenario.no_upload
      [Publish; Publish; UploadFinished true "http://up.example/x" EmptyString]
      Scenario.blob_item = Some (i', es)
    /\ notifications es = 1%nat /\ cache_writes es = 1%nat.
Proof.
  assert (E : exists i' es,
             run Scenario.bits Scenario.no_upload
               [Publish; Publish; UploadFinished true "http://up.example/x" EmptyString]
               Scenario.blob_item = Some (i', es) /\ notifications es = 1%nat).
  { eexists. eexists. split; [vm_compute; reflexivity | reflexivity]. }
  destruct E as (i' & es & E & N).
  destruct (published_at_most_once Scenario.bits Scenario.no_upload _ _ i' es
              ltac:(discriminate) E) as (_ & W & _).
  exists i', es. split; [exact E|]. split; [exact N | congruence].
Defined.

End PublishingRuns.

(** ** The shareable item: one publication from start to end *)

Section PublishingOnce.

Import FileSharingItem Publishing.

Lemma land_lor_zero (a b c : Z) : Z.land a c = 0 -> Z.land b c = 0 -> Z.land (Z.lor a b) c = 0.
Proof. intros Ha Hb. rewrite Z.land_lor_distr_l, Ha, Hb. reflexivity. Qed.

Lemma land_covers (f h j : Z) : Z.land (Z.lor (Z.lor f h) j) (Z.lor h j) = Z.lor h j.
Proof.
  apply Z.bits_inj'. intros n _.
  rewrite Z.land_spec, !Z.lor_spec.
  destruct (Z.testbit f n), (Z.testbit h n), (Z.testbit j n); reflexivity.
Qed.

Lemma land_covers' (f h j : Z) : Z.land (Z.lor (Z.lor f j) h) (Z.lor h j) = Z.lor h j.
Proof.
  apply Z.bits_inj'. intros n _.
  rewrite Z.land_spec, !Z.lor_spec.
  destruct (Z.testbit f n), (Z.testbit h n), (Z.testbit j n); reflexivity.
Qed.

(** A flag word that lacks the bit [j] does not cover a mask holding [j]. *)
Lemma land_lacks (x m j : Z) :
  Z.land x j = 0 -> Z.land m j = j -> j <> 0 -> Z.land x m <> m.
Proof.
  intros Hx Hm Hj E. apply Hj.
  rewrite <- Hm. rewrite <- E at 1.
  rewrite <- Z.land_assoc, Hm. rewrite Hx. reflexivity.
Qed.

Lemma land_lor_r (h j : Z) : Z.land (Z.lor h j) j = j.
Proof.
  apply Z.bits_inj'. intros n _. rewrite Z.land_spec, Z.lor_spec.
  destruct (Z.testbit h n), (Z.testbit j n); reflexivity.
Qed.

Lemma land_lor_l (h j : Z) : Z.land (Z.lor h j) h = h.
Proof.
  apply Z.bits_inj'. intros n _. rewrite Z.land_spec, Z.lor_spec.
  destruct (Z.testbit h n), (Z.testbit j n); reflexivity.
Qed.

Lemma map_get_set (k : QString) (v : QVariant) (m : QVariantMap) :
  map_get k (map_set k v m) = Some v.
Proof.
  induction m as [|[k' v'] r IH]; simpl.
  - rewrite String.eqb_refl. reflexivity.
  - destruct (String.eqb k k') eqn:E; simpl.
    + rewrite String.eqb_refl. reflexivity.
    + rewrite E. exact IH.
Qed.

Lemma map_get_set_other (k k' : QString) (v : QVariant) (m : QVariantMap) :
  String.eqb k k' = false -> map_get k (map_set k' v m) = map_get k m.
Proof.
  intros Hk. induction m as [|[k2 v2] r IH]; simpl.
  - rewrite Hk. reflexivity.
  - destruct (String.eqb k' k2) eqn:E; simpl.
    + apply String.eqb_eq in E. subst k2. rewrite Hk. reflexivity.
    + destruct (String.eqb k k2); [reflexivity | exact IH].
Qed.

(** With both transports done and no notification yet, [checkFinished]
    writes the cache and notifies. *)
Lemma checkFinished_fires (fl : FlagBits) (env : Env) (i : t) :
  Z.land (_flags i) (PublishNotified fl) = 0 ->
  Z.land (_flags i) (Z.lor (HttpFinished fl) (JingleFinished fl))
    = Z.lor (HttpFinished fl) (JingleFinished fl) ->
  checkFinished fl env i =
    if FileType_eqb (_fileType i) TempFile
    then (set_flags (Z.lor (_flags i) (PublishNotified fl))
            (set_file LocalFile (cacheDir env ++ "/" ++ cachedName env) i),
          [MoveToCache (_sums i) (_fileName i) (finalMeta i) TEMP_TTL; Emit_publishFinished])
    else (set_flags (Z.lor (_flags i) (PublishNotified fl)) i,
          [SaveToCache (_sums i) EmptyString
             (map_set "link" (V_string (_fileName i)) (finalMeta i)) FILE_TTL;
           Emit_publishFinished]).
Proof.
  intros Hp Hf. unfold checkFinished, finalMeta. rewrite Hp, Hf, !Z.eqb_refl. simpl.
  destruct (FileType_eqb (_fileType i) TempFile); reflexivity.
Qed.

(** With a transport still pending, [checkFinished] does nothing. *)
Lemma checkFinished_waits (fl : FlagBits) (env : Env) (i : t) :
  Z.land (_flags i) (Z.lor (HttpFinished fl) (JingleFinished fl))
    <> Z.lor (HttpFinished fl) (JingleFinished fl) ->
  checkFinished fl env i = (i, []).
Proof.
  intros Hf. unfold checkFinished. apply Z.eqb_neq in Hf. rewrite Hf, andb_false_r.
  reflexivity.
Qed.

(** X24.  Publishing a fresh local item when the account has no upload
    service completes within the call: the cache is written once and
    [publishFinished] follows.  A temporary file is moved into the cache,
    kept for a week, and the item becomes a local file under the cache
    directory; any other item is saved as a link to its file, kept for a
    year, and keeps its type and file name. *)
Theorem publish_without_upload_service (fl : FlagBits) (env : Env) (i : t) :
  distinct_bits fl ->
  unpublished fl i ->
  _fileType i <> RemoteFile ->
  discoNotFound env = true ->
  exists i',
    publish fl env i =
      Some (i',
            [if FileType_eqb (_fileType i) TempFile
             then MoveToCache (_sums i) (_fileName i) (finalMeta i) (7 * 24 * 3600)
             else SaveToCache (_sums i) EmptyString
                    (map_set "link" (V_string (_fileName i)) (finalMeta i))
                    (365 * 24 * 3600);
             Emit_publishFinished])
    /\ _fileType i' = (if FileType_eqb (_fileType i) TempFile then LocalFile else _fileType i)
    /\ _fileName i' = (if FileType_eqb (_fileType i) TempFile
                       then (cacheDir env ++ "/" ++ cachedName env)%string
                       else _fileName i)
    /\ _uris i' = _uris i
    /\ _flags i' = Z.lor (Z.lor (Z.lor (_flags i) (HttpFinished fl)) (JingleFinished fl))
                     (PublishNotified fl).
Proof.
  intros (Hh & Hj & Hp & Hhj & Hhp & Hjp) (Uh & Uj & Up) Hty Hd.
  unfold publish.
  destruct (FileType_eqb (_fileType i) RemoteFile) eqn:Er;
    [destruct (_fileType i); try discriminate; congruence|].
  rewrite Uh, Hd. cbn [Z.eqb].
  rewrite checkFinished_waits.
  2:{ cbn [_flags set_flags]. apply (land_lacks _ _ (JingleFinished fl)).
      - apply land_lor_zero; assumption.
      - apply land_lor_r.
      - exact Hj. }
  cbn [_flags set_flags].
  rewrite (land_lor_zero _ _ _ Uj Hhj). cbn [Z.eqb].
  rewrite checkFinished_fires.
  2:{ cbn [_flags set_flags]. repeat apply land_lor_zero; assumption. }
  2:{ cbn [_flags set_flags]. apply land_covers. }
  cbn [_fileType _flags _fileName _sums set_flags].
  assert (M : finalMeta
                (set_flags (Z.lor (Z.lor (_flags i) (HttpFinished fl)) (JingleFinished fl))
                   (set_flags (Z.lor (_flags i) (HttpFinished fl)) i)) = finalMeta i)
    by reflexivity.
  rewrite M.
  destruct (FileType_eqb (_fileType i) TempFile); eexists; (split; [reflexivity|]);
    repeat split.
Qed.

(** [publish_without_upload_service] on the item of [Scenario]. *)
Lemma publish_without_upload_service_witness :
  exists i', publish Scenario.bits Scenario.no_upload Scenario.blob_item = Some (i',
     [if FileType_eqb (_fileType Scenario.blob_item) TempFile
      then MoveToCache (_sums Scenario.blob_item) (_fileName Scenario.blob_item)
             (finalMeta Scenario.blob_item) (7 * 24 * 3600)
      else SaveToCache (_sums Scenario.blob_item) EmptyString
             (map_set "link" (V_string (_fileName Scenario.blob_item))
                (finalMeta Scenario.blob_item)) (365 * 24 * 3600);
      Emit_publishFinished]).
Proof.
  assert (D : distinct_bits Scenario.bits)
    by (unfold distinct_bits; vm_compute; repeat split; discriminate).
  assert (U : unpublished Scenario.bits Scenario.blob_item)
    by (unfold unpublished; vm_compute; repeat split).
  assert (T : _fileType Scenario.blob_item <> RemoteFile) by (vm_compute; discriminate).
  destruct (publish_without_upload_service Scenario.bits Scenario.no_upload
              Scenario.blob_item D U T eq_refl) as (i' & E & _).
  exists i'. exact E.
Defined.

(** X25.  With an upload service, [publish] on a fresh local item only
    starts the upload; the publication completes when the upload ends,
    whether it succeeded or not.  After a successful upload the link is
    appended to the item's links and the metadata written to the cache
    lists them; after a failed one the links are as before. *)
Theorem upload_end_completes_publish (fl : FlagBits) (env : Env) (i : t) (ok : bool)
    (url status : QString) :
  distinct_bits fl ->
  unpublished fl i ->
  _fileType i <> RemoteFile ->
  discoNotFound env = false ->
  exists i1 i2 w,
    publish fl env i = Some (i1, [Upload (_fileName i) (displayName env i) (_mimeType i)])
    /\ onUploadFinished fl env ok url status i1 = (i2, [Emit_logChanged; w; Emit_publishFinished])
    /\ cache_writes [w] = 1%nat
    /\ Z.land (_flags i2) (PublishNotified fl) <> 0
    /\ (ok = true ->
        _uris i2 = (_uris i ++ [url])%list
        /\ written "uris" w = Some (V_list (_uris i ++ [url])%list))
    /\ (ok = false -> _uris i2 = _uris i).
Proof.
  intros (Hh & Hj & Hp & Hhj & Hhp & Hjp) (Uh & Uj & Up) Hty Hd.
  assert (Hjh : Z.land (JingleFinished fl) (HttpFinished fl) = 0)
    by (rewrite Z.land_comm; exact Hhj).
  unfold publish.
  destruct (FileType_eqb (_fileType i) RemoteFile) eqn:Er;
    [destruct (_fileType i); try discriminate; congruence|].
  rewrite Uh, Hd. cbn [Z.eqb]. cbv iota beta. rewrite Uj. cbn [Z.eqb].
  rewrite checkFinished_waits.
  2:{ cbn [_flags set_flags]. apply (land_lacks _ _ (HttpFinished fl)).
      - apply land_lor_zero; assumption.
      - apply land_lor_l.
      - exact Hh. }
  cbn [app].
  exists (set_flags (Z.lor (_flags i) (JingleFinished fl)) i).
  unfold onUploadFinished. cbv zeta.
  match goal with |- context [checkFinished fl env ?x] => set (i2 := x) end.
  assert (F : _flags i2 = Z.lor (Z.lor (_flags i) (JingleFinished fl)) (HttpFinished fl))
    by (subst i2; destruct ok; reflexivity).
  assert (T : _fileType i2 = _fileType i) by (subst i2; destruct ok; reflexivity).
  assert (Uo : _uris i2 = if ok then (_uris i ++ [url])%list else _uris i)
    by (subst i2; destruct ok; reflexivity).
  rewrite (checkFinished_fires fl env i2).
  2:{ rewrite F. repeat apply land_lor_zero; assumption. }
  2:{ rewrite F. apply land_covers'. }
  rewrite T.
  assert (Hm : ok = true -> map_get "uris" (finalMeta i2) = Some (V_list (_uris i ++ [url])%list)).
  { intros ->. unfold finalMeta. rewrite Uo.
    rewrite length_app. simpl List.length.
    replace (0 <? Z.of_nat (List.length (_uris i) + 1)) with true
      by (symmetry; apply Z.ltb_lt; lia).
    apply map_get_set. }
  destruct (FileType_eqb (_fileType i) TempFile); eexists; eexists;
    (split; [reflexivity|]); (split; [reflexivity|]); (split; [reflexivity|]);
    cbn [_flags set_flags set_file _uris fst snd].
  - split; [apply land_lor_self; exact Hp|].
    split; intros ->; [split; [exact Uo | exact (Hm eq_refl)] | exact Uo].
  - split; [apply land_lor_self; exact Hp|].
    split; intros ->; [split; [exact Uo |] | exact Uo].
    unfold written, written_meta. rewrite map_get_set_other by reflexivity.
    exact (Hm eq_refl).
Qed.

(** [upload_end_completes_publish] on the item of [Scenario] with an upload
    service that succeeds. *)
Lemma upload_end_completes_publish_witness :
  exists i1 i2 w,
    publish Scenario.bits
      {| discoNotFound := false; cacheDir := cacheDir Scenario.no_upload;
         cachedName := cachedName Scenario.no_upload;
         mimeToFileExt := mimeToFileExt Scenario.no_upload |} Scenario.blob_item
      = Some (i1, [Upload (_fileName Scenario.blob_item)
                     (displayName
                        {| discoNotFound := false; cacheDir := cacheDir Scenario.no_upload;
                           cachedName := cachedName Scenario.no_upload;
                           mimeToFileExt := mimeToFileExt Scenario.no_upload |}
                        Scenario.blob_item)
                     (_mimeType Scenario.blob_item)])
    /\ _uris i2 = (_uris Scenario.blob_item ++ ["http://up.example/x"])%list
    /\ written "uris" w = Some (V_list (_uris Scenario.blob_item ++ ["http://up.example/x"])%list).
Proof.
  assert (D : distinct_bits Scenario.bits)
    by (unfold distinct_bits; vm_compute; repeat split; discriminate).
  assert (U : unpublished Scenario.bits Scenario.blob_item)
    by (unfold unpublished; vm_compute; repeat split).
  assert (T : _fileType Scenario.blob_item <> RemoteFile) by (vm_compute; discriminate).
  destruct (upload_end_completes_publish Scenario.bits
              {| discoNotFound := false; cacheDir := cacheDir Scenario.no_upload;
                 cachedName := cachedName Scenario.no_upload;
                 mimeToFileExt := mimeToFileExt Scenario.no_upload |}
              Scenario.blob_item true "http://up.example/x" EmptyString D U T eq_refl)
    as (i1 & i2 & w & E1 & _ & _ & _ & Ok & _).
  exists i1, i2, w. split; [exact E1 | exact (Ok eq_refl)].
Defined.

Lemma has_char_remove (c : ascii) (s : string) : has_char c (Qt.remove c s) = false.
Proof.
  induction s as [|x r IH]; simpl; [reflexivity|].
  destruct (Ascii.eqb x c) eqn:E; [exact IH|]. simpl. rewrite E. exact IH.
Qed.

Lemma has_char_after_last (c : ascii) (s t : string) :
  after_last c s = Some t -> has_char c t = false.
Proof.
  revert t. induction s as [|x r IH]; intros t; simpl; [discriminate|].
  destruct (after_last c r) as [u|] eqn:E.
  - intros H. injection H as <-. apply IH. reflexivity.
  - destruct (Ascii.eqb x c); [|discriminate]. intros H. injection H as <-.
    clear IH. induction r as [|y q IHq]; simpl; [reflexivity|].
    simpl in E. destruct (after_last c q) eqn:E2; [discriminate|].
    destruct (Ascii.eqb y c); [discriminate|]. simpl. apply IHq. reflexivity.
Qed.

Lemma has_char_no_last (c : ascii) (s : string) :
  after_last c s = None -> has_char c s = false.
Proof.
  induction s as [|y q IHq]; simpl; [reflexivity|].
  destruct (after_last c q) eqn:E2; [discriminate|].
  destruct (Ascii.eqb y c); [discriminate|]. intros _. simpl. apply IHq. reflexivity.
Qed.

(** X26.  The display name of an item with at least one checksum is a bare
    file name: it contains no slash, whether it is made up from the first
    checksum and the MIME type or taken from the item's file path. *)
Theorem displayName_has_no_slash (env : Env) (i : t) :
  _sums i <> [] ->
  has_char "/"%char (displayName env i) = false.
Proof.
  intros _. unfold displayName.
  destruct (isEmpty (_fileName i)).
  - apply has_char_remove.
  - unfold Qt.fileName. destruct (after_last "/" (_fileName i)) as [n|] eqn:E.
    + exact (has_char_after_last _ _ _ E).
    + exact (has_char_no_last _ _ E).
Qed.

(** [displayName_has_no_slash] on the item of [Scenario]. *)
Lemma displayName_has_no_slash_witness :
  has_char "/"%char (displayName Scenario.no_upload Scenario.blob_item) = false.
Proof.
  apply displayName_has_no_slash. vm_compute. discriminate.
Defined.

End PublishingOnce.
